(** * hw-app-nano: the Ledger command codec of the Nano family of coins

    A shallow embedding of [src/util.js] (address and balance codec),
    [src/api.js] (block classifier, command frames, device session) and
    [src/Nano.js] (the earlier single-coin version of the same code),
    followed by the properties of the natural-language specification that
    were checked against it and by further properties of the code.
    [src/Xrb.js], the RaiBlocks class that writes into a buffer made
    with [new Buffer], is not embedded.

    Conventions.
    - A JavaScript [string] is a Rocq [string], one character per code
      unit below 256; a [Buffer] is a list of integers, each meant to lie
      in [0, 256).
    - A function that can throw returns a [result]; an [async] function
      that talks to the device is a state transformer over the transport,
      and a rejected promise is a [Throw].
    - An optional object field is an [option]; truthiness is written out.
    - Of the packages the code imports, nano-base32, blakejs and
      bip32-path are parameters of the embedding and big-integer is
      modelled on unsigned numerals; models of nano-base32, BLAKE2b and
      bip32-path are given for running the code on concrete data. *)

From Stdlib Require Import ZArith NArith String Ascii List Bool Lia.
From Stdlib Require DecimalString.
Import ListNotations.
#[local] Open Scope string_scope.
#[local] Open Scope list_scope.
#[local] Open Scope nat_scope.

(** ** JavaScript values and exceptions *)

Inductive exn : Type :=
| Error (message : string)
| RangeError
| TransportStatusError (statusCode : Z).

Inductive result (A : Type) : Type :=
| Ok (a : A)
| Throw (e : exn).
Arguments Ok {A} a.
Arguments Throw {A} e.

Definition bind {A B : Type} (r : result A) (k : A -> result B) : result B :=
  match r with
  | Ok a => k a
  | Throw e => Throw e
  end.

Declare Scope js_scope.
Delimit Scope js_scope with js.
Notation "x <- c ;; k" := (bind c (fun x => k))
  (at level 61, c at next level, right associativity) : js_scope.
Notation "' p <- c ;; k" := (bind c (fun x => match x with p => k end))
  (at level 61, p pattern, c at next level, right associativity) : js_scope.

(** [forEach] over an array with a callback that updates captured state
    and may throw. *)
Fixpoint forEach {A S : Type} (xs : list A) (f : A -> S -> result S) (s : S)
  : result S :=
  match xs with
  | [] => Ok s
  | x :: xs' => bind (f x s) (forEach xs' f)
  end.

(** [s.startsWith(p)] and [s.substr(n)]. *)
Definition startsWith (s p : string) : bool := String.prefix p s.

Fixpoint substr (s : string) (n : nat) : string :=
  match n, s with
  | O, _ => s
  | S n', String _ s' => substr s' n'
  | S _, EmptyString => EmptyString
  end.

(** ["0".repeat(n)] *)
Fixpoint repeat_string (s : string) (n : nat) : string :=
  match n with
  | O => EmptyString
  | S n' => (s ++ repeat_string s n')%string
  end.

(** Truthiness of an optional string field: [undefined], [null] and the
    empty string are falsy. *)
Definition truthy (o : option string) : bool :=
  match o with
  | Some s => negb (String.eqb s EmptyString)
  | None => false
  end.

Definition in_range (lo hi c : ascii) : bool :=
  (N_of_ascii lo <=? N_of_ascii c)%N && (N_of_ascii c <=? N_of_ascii hi)%N.

(** Whether a string starts with [n] characters of the class [p]. *)
Fixpoint starts_with_class (p : ascii -> bool) (n : nat) (s : string) : bool :=
  match n with
  | O => true
  | S n' =>
      match s with
      | String c s' => p c && starts_with_class p n' s'
      | EmptyString => false
      end
  end.

(** [re.test(s)] for a pattern without anchors: the pattern may match at
    any position of [s]. *)
Fixpoint test_anywhere (here : string -> bool) (s : string) : bool :=
  here s ||
  match s with
  | String _ s' => test_anywhere here s'
  | EmptyString => false
  end.

(** ** Buffer (the subset of the Node API the package calls) *)

Definition Buffer : Type := list Z.

Module Buf.

Definition alloc (size : nat) : Buffer := repeat 0%Z size.

(** Overwrite [buf] from [offset] on with [src]; the callers below make
    sure that [src] fits. *)
Definition blit (buf : Buffer) (offset : nat) (src : list Z) : Buffer :=
  firstn offset buf ++ src ++ skipn (offset + length src) buf.

(** [buf.writeUInt8(value, offset)] *)
Definition writeUInt8 (buf : Buffer) (value : Z) (offset : nat)
  : result Buffer :=
  if ((0 <=? value) && (value <=? 255))%Z && (offset + 1 <=? length buf)
  then Ok (blit buf offset [value])
  else Throw RangeError.

(** [buf.writeUInt32BE(value, offset)] *)
Definition writeUInt32BE (buf : Buffer) (value : Z) (offset : nat)
  : result Buffer :=
  if ((0 <=? value) && (value <=? 4294967295))%Z && (offset + 4 <=? length buf)
  then Ok (blit buf offset
             [Z.land (Z.shiftr value 24) 255; Z.land (Z.shiftr value 16) 255;
              Z.land (Z.shiftr value 8) 255; Z.land value 255])
  else Throw RangeError.

(** [buf.readUInt8(offset)] *)
Definition readUInt8 (buf : Buffer) (offset : nat) : result Z :=
  match nth_error buf offset with
  | Some v => Ok v
  | None => Throw RangeError
  end.

(** [buf.slice(start, end)] clamps both indices to the buffer. *)
Definition slice (buf : Buffer) (start stop : nat) : Buffer :=
  skipn start (firstn stop buf).

Definition hex_value (c : ascii) : option Z :=
  if in_range "0" "9" c then Some (Z.of_N (N_of_ascii c) - 48)%Z
  else if in_range "a" "f" c then Some (Z.of_N (N_of_ascii c) - 87)%Z
  else if in_range "A" "F" c then Some (Z.of_N (N_of_ascii c) - 55)%Z
  else None.

(** Decoding of a hex string into at most [n] bytes: it stops at the
    first pair that is not two hex digits, and ignores a trailing odd
    character. *)
Fixpoint hex_bytes (n : nat) (s : string) : list Z :=
  match n, s with
  | S n', String a (String b s') =>
      match hex_value a, hex_value b with
      | Some h, Some l => (16 * h + l)%Z :: hex_bytes n' s'
      | _, _ => []
      end
  | _, _ => []
  end.

(** [buf.write(string, offset, length, "hex")]; returns the number of
    bytes written along with the updated buffer. *)
Definition write_hex (buf : Buffer) (s : string) (offset length_ : nat)
  : result (nat * Buffer) :=
  if (0 <? String.length s) && (length buf <? offset) then Throw RangeError
  else
    let remaining := length buf - offset in
    let bytes := hex_bytes (Nat.min length_ remaining) s in
    Ok (length bytes, blit buf offset bytes).

(** [source.copy(target, targetStart)]; returns the number of bytes
    copied along with the updated target. *)
Definition copy (source target : Buffer) (targetStart : nat)
  : nat * Buffer :=
  let bytes := firstn (length target - targetStart) source in
  (length bytes, blit target targetStart bytes).

Definition hex_digit (v : Z) : ascii :=
  if (v <? 10)%Z then ascii_of_N (Z.to_N (v + 48))
  else ascii_of_N (Z.to_N (v + 87)).

(** [buf.toString("hex")] *)
Fixpoint toString_hex (buf : Buffer) : string :=
  match buf with
  | [] => EmptyString
  | v :: buf' =>
      String (hex_digit (Z.shiftr v 4))
        (String (hex_digit (Z.land v 15)) (toString_hex buf'))
  end.

(** [buf.toString("ascii")] keeps the low seven bits of every byte. *)
Fixpoint toString_ascii (buf : Buffer) : string :=
  match buf with
  | [] => EmptyString
  | v :: buf' =>
      String (ascii_of_N (Z.to_N (Z.land v 127))) (toString_ascii buf')
  end.

(** [Buffer.from(string, "hex")] *)
Definition from_hex (s : string) : Buffer :=
  hex_bytes (String.length s / 2) s.

End Buf.

(** ** The big-integer package, on unsigned numerals

    [bigInt(text, radix)] reads the digits of [text] in the alphabet
    [0-9a-z] (letters in either case) and throws on a character that is
    not a digit of the radix; the messages are abridged.  The package
    also reads a sign and, in radix 10, an exponent; those inputs are not
    modelled and nothing below depends on them. *)

Module BigInteger.

Definition digit_value (c : ascii) : option N :=
  if in_range "0" "9" c then Some (N_of_ascii c - 48)%N
  else if in_range "a" "z" c then Some (N_of_ascii c - 87)%N
  else if in_range "A" "Z" c then Some (N_of_ascii c - 55)%N
  else None.

Fixpoint parseBase (radix acc : N) (text : string) : result N :=
  match text with
  | EmptyString => Ok acc
  | String c text' =>
      match digit_value c with
      | Some d =>
          if (d <? radix)%N then parseBase radix (acc * radix + d)%N text'
          else Throw (Error "not a valid digit in this base")
      | None => Throw (Error "not a valid character")
      end
  end.

Definition bigInt (text : string) (radix : N) : result N :=
  parseBase radix 0%N text.

Definition digit_char (d : N) : ascii :=
  if (d <? 10)%N then ascii_of_N (d + 48) else ascii_of_N (d + 87).

(** Digits of [n], most significant first; none for zero.  The fuel
    bounds the number of divisions. *)
Fixpoint toBase_fuel (fuel : nat) (radix n : N) : string :=
  match fuel with
  | O => EmptyString
  | S fuel' =>
      if (n =? 0)%N then EmptyString
      else (toBase_fuel fuel' radix (n / radix)%N
            ++ String (digit_char (n mod radix)%N) EmptyString)%string
  end.

Definition toBase (radix n : N) : string :=
  toBase_fuel (N.to_nat (N.size n)) radix n.

(** [n.toString(radix)], for a radix between 2 and 36. *)
Definition toString (n radix : N) : string :=
  if (n =? 0)%N then "0" else toBase radix n.

End BigInteger.

(** ** The nano-base32 package

    [decode] reads five bits per character of the alphabet, most
    significant first, pads the bit string on the left to whole bytes and
    drops the first byte when padding was needed.  A character outside
    the alphabet makes it throw. *)

Module NanoBase32.

Definition alphabet : string := "13456789abcdefghijkmnopqrstuwxyz".

(** [s.indexOf(c)] *)
Fixpoint indexOf (s : string) (c : ascii) : option nat :=
  match s with
  | EmptyString => None
  | String a s' =>
      if Ascii.eqb a c then Some 0
      else option_map S (indexOf s' c)
  end.

Definition readChar (c : ascii) : result Z :=
  match indexOf alphabet c with
  | Some idx => Ok (Z.of_nat idx)
  | None =>
      Throw (Error ("Invalid character found: " ++ String c EmptyString))
  end.

(** One round of the loop of [decode]: [value] is a 32-bit integer,
    [bits] counts the bits not yet emitted. *)
Definition decode_step (offset : Z) (c : ascii) (st : Z * Z * Buffer)
  : result (Z * Z * Buffer) :=
  let '(value, bits, output) := st in
  (idx <- readChar c ;;
   let value := (Z.lor (Z.shiftl value 5) idx mod 2 ^ 32)%Z in
   let bits := (bits + 5)%Z in
   if (8 <=? bits)%Z
   then Ok (value, (bits - 8)%Z,
            output ++ [Z.land (Z.shiftr value (bits + offset - 8)) 255])
   else Ok (value, bits, output))%js.

Definition decode (input : string) : result Buffer :=
  let length := Z.of_nat (String.length input) in
  let leftover := ((length * 5) mod 8)%Z in
  let offset := if (leftover =? 0)%Z then 0%Z else (8 - leftover)%Z in
  ('(value, bits, output) <-
     forEach (list_ascii_of_string input) (decode_step offset) (0%Z, 0%Z, []) ;;
   let output :=
     if (0 <? bits)%Z
     then output ++ [Z.land (Z.shiftl value (bits + offset - 8)) 255]
     else output in
   let output := if (leftover =? 0)%Z then output else skipn 1 output in
   Ok output)%js.

End NanoBase32.

(** ** The blakejs package: BLAKE2b (RFC 7693), without key *)

Module Blake2b.
#[local] Open Scope Z_scope.

Definition w64 (x : Z) : Z := x mod 2 ^ 64.
Definition rotr64 (x n : Z) : Z :=
  w64 (Z.lor (Z.shiftr x n) (Z.shiftl x (64 - n))).

Definition IV : list Z :=
  [0x6a09e667f3bcc908; 0xbb67ae8584caa73b; 0x3c6ef372fe94f82b;
   0xa54ff53a5f1d36f1; 0x510e527fade682d1; 0x9b05688c2b3e6c1f;
   0x1f83d9abfb41bd6b; 0x5be0cd19137e2179].

Definition SIGMA : list (list nat) :=
  [[0; 1; 2; 3; 4; 5; 6; 7; 8; 9; 10; 11; 12; 13; 14; 15];
   [14; 10; 4; 8; 9; 15; 13; 6; 1; 12; 0; 2; 11; 7; 5; 3];
   [11; 8; 12; 0; 5; 2; 15; 13; 10; 14; 3; 6; 7; 1; 9; 4];
   [7; 9; 3; 1; 13; 12; 11; 14; 2; 6; 5; 10; 4; 0; 15; 8];
   [9; 0; 5; 7; 2; 4; 10; 15; 14; 1; 11; 12; 6; 8; 3; 13];
   [2; 12; 6; 10; 0; 11; 8; 3; 4; 13; 7; 5; 15; 14; 1; 9];
   [12; 5; 1; 15; 14; 13; 4; 10; 0; 7; 6; 3; 9; 2; 8; 11];
   [13; 11; 7; 14; 12; 1; 3; 9; 5; 0; 15; 4; 8; 6; 2; 10];
   [6; 15; 14; 9; 11; 3; 0; 8; 12; 2; 13; 7; 1; 4; 10; 5];
   [10; 2; 8; 4; 7; 6; 1; 5; 15; 11; 9; 14; 3; 12; 13; 0];
   [0; 1; 2; 3; 4; 5; 6; 7; 8; 9; 10; 11; 12; 13; 14; 15];
   [14; 10; 4; 8; 9; 15; 13; 6; 1; 12; 0; 2; 11; 7; 5; 3]]%nat.

Definition get (v : list Z) (i : nat) : Z := nth i v 0.
Definition set (v : list Z) (i : nat) (x : Z) : list Z :=
  firstn i v ++ x :: skipn (S i) v.

Definition G (a b c d : nat) (x y : Z) (v : list Z) : list Z :=
  let v := set v a (w64 (get v a + get v b + x)) in
  let v := set v d (rotr64 (Z.lxor (get v d) (get v a)) 32) in
  let v := set v c (w64 (get v c + get v d)) in
  let v := set v b (rotr64 (Z.lxor (get v b) (get v c)) 24) in
  let v := set v a (w64 (get v a + get v b + y)) in
  let v := set v d (rotr64 (Z.lxor (get v d) (get v a)) 16) in
  let v := set v c (w64 (get v c + get v d)) in
  set v b (rotr64 (Z.lxor (get v b) (get v c)) 63).

Definition round (m : list Z) (v : list Z) (s : list nat) : list Z :=
  let mi (i : nat) := get m (nth i s 0%nat) in
  let v := G 0 4 8 12 (mi 0%nat) (mi 1%nat) v in
  let v := G 1 5 9 13 (mi 2%nat) (mi 3%nat) v in
  let v := G 2 6 10 14 (mi 4%nat) (mi 5%nat) v in
  let v := G 3 7 11 15 (mi 6%nat) (mi 7%nat) v in
  let v := G 0 5 10 15 (mi 8%nat) (mi 9%nat) v in
  let v := G 1 6 11 12 (mi 10%nat) (mi 11%nat) v in
  let v := G 2 7 8 13 (mi 12%nat) (mi 13%nat) v in
  G 3 4 9 14 (mi 14%nat) (mi 15%nat) v.

(** Little-endian 64-bit words of a 128-byte block. *)
Fixpoint le_word (bytes : list Z) : Z :=
  match bytes with
  | [] => 0
  | b :: bytes' => b + 256 * le_word bytes'
  end.

Fixpoint words (n : nat) (block : list Z) : list Z :=
  match n with
  | O => []
  | S n' => le_word (firstn 8 block) :: words n' (skipn 8 block)
  end.

Definition compress (h : list Z) (block : list Z) (t : Z) (last : bool)
  : list Z :=
  let m := words 16 (block ++ repeat 0 (128 - length block)) in
  let v := h ++ IV in
  let v := set v 12 (Z.lxor (get v 12) (w64 t)) in
  let v := set v 13 (Z.lxor (get v 13) (Z.shiftr t 64)) in
  let v := if last then set v 14 (Z.lxor (get v 14) (2 ^ 64 - 1)) else v in
  let v := fold_left (round m) SIGMA v in
  map (fun i => Z.lxor (get h i) (Z.lxor (get v i) (get v (i + 8))))
      (seq 0 8).

(** Absorb the message, 128 bytes at a time; the last block, which may
    be short but is empty only for the empty message, is flagged. *)
Fixpoint absorb (fuel : nat) (h : list Z) (t : Z) (msg : list Z) : list Z :=
  match fuel with
  | O => h
  | S fuel' =>
      if (length msg <=? 128)%nat
      then compress h msg (t + Z.of_nat (length msg)) true
      else absorb fuel' (compress h (firstn 128 msg) (t + 128) false)
             (t + 128) (skipn 128 msg)
  end.

Fixpoint le_bytes (n : nat) (w : Z) : list Z :=
  match n with
  | O => []
  | S n' => w mod 256 :: le_bytes n' (w / 256)
  end.

(** [blake2b(input, null, outlen)] *)
Definition blake2b (input : Buffer) (outlen : nat) : Buffer :=
  let h := set IV 0 (Z.lxor (get IV 0) (Z.lxor 0x01010000 (Z.of_nat outlen))) in
  let h := absorb (S (length input)) h 0 input in
  firstn outlen (flat_map (le_bytes 8) h).

End Blake2b.

(** ** The bip32-path package

    [BIPPath.fromString(text).toPathArray()]: a leading [m/] is skipped,
    the text is split at the slashes, and in every component the first
    run of decimal digits is the index, hardened when the character
    after the run is [h], [H] or an apostrophe.  A component without a
    digit and an index of [2^31] or more make it throw. *)

Module BIP32Path.

Definition HARDENED : Z := 0x80000000.

(** [text.split("/")] *)
Fixpoint split (text : string) : list string :=
  match text with
  | EmptyString => [EmptyString]
  | String c text' =>
      if Ascii.eqb c "/" then EmptyString :: split text'
      else
        match split text' with
        | component :: rest => String c component :: rest
        | [] => [String c EmptyString]
        end
  end.

(** The digits a string starts with, and what follows them. *)
Fixpoint digits_run (s : string) : string * string :=
  match s with
  | String c s' =>
      if in_range "0" "9" c
      then let '(digits, rest) := digits_run s' in (String c digits, rest)
      else (EmptyString, s)
  | EmptyString => (EmptyString, EmptyString)
  end.

(** The group [([hH']?)] at the head of what follows the digits. *)
Definition modifier (rest : string) : string :=
  match rest with
  | String c _ =>
      if Ascii.eqb c "h" || Ascii.eqb c "H" || Ascii.eqb c "'"
      then String c EmptyString
      else EmptyString
  | EmptyString => EmptyString
  end.

(** [/(\d+)([hH']?)/.exec(component)]: the two groups of the leftmost
    match, or nothing. *)
Fixpoint exec (component : string) : option (string * string) :=
  match component with
  | EmptyString => None
  | String c component' =>
      if in_range "0" "9" c
      then
        let '(digits, rest) := digits_run component in
        Some (digits, modifier rest)
      else exec component'
  end.

(** [parseInt(digits, 10)] on a string of decimal digits. *)
Fixpoint parseInt (acc : Z) (digits : string) : Z :=
  match digits with
  | EmptyString => acc
  | String c digits' =>
      parseInt (acc * 10 + (Z.of_N (N_of_ascii c) - 48))%Z digits'
  end.

Definition parseComponent (component : string) : result Z :=
  match exec component with
  | None => Throw (Error "Invalid input")
  | Some (digits, m) =>
      let index := parseInt 0 digits in
      if (HARDENED <=? index)%Z then Throw (Error "Invalid child index")
      else if String.eqb m "h" || String.eqb m "H" || String.eqb m "'"
      then Ok (index + HARDENED)%Z
      else if negb (String.length m =? 0)
      then Throw (Error "Invalid modifier")
      else Ok index
  end.

Definition fromString (text : string) : result (list Z) :=
  let text :=
    if startsWith text "m/" || startsWith text "M/" then substr text 2
    else text in
  forEach (split text)
    (fun component ret =>
       (index <- parseComponent component ;; Ok (ret ++ [index]))%js)
    [].

End BIP32Path.

(** ** Data of api.js *)

Record CoinConfig : Type := {
  coinName : string;
  addressPrimaryPrefix : string;
  addressSecondaryPrefix : string
}.

(** [BlockData]: the optional fields are absent ([None]) or hold a string. *)
Record BlockData : Type := {
  previousBlock : option string;
  representative : string;
  balance : string;
  sourceBlock : option string;
  recipient : option string
}.

Record BlockKeys : Type := {
  representativePublicKey : Buffer;
  recipientPublicKey : option Buffer
}.

Record AppConfiguration : Type := {
  version : string;
  appCoinName : string
}.

Record AddressInfo : Type := {
  publicKey : string;
  address : string
}.

Record BlockSignature : Type := {
  blockHash : string;
  signature : string
}.

(** ** The transport

    One [send] hands the device a command header and a payload and gets
    a response buffer or a status error back.  What the device answers is
    up to the device: [device] maps the commands exchanged so far and the
    present one to the answer.  [exchanged] records every command sent. *)

Record APDU : Type := {
  cla : Z;
  ins : Z;
  p1 : Z;
  p2 : Z;
  data : Buffer
}.

Record Transport : Type := {
  device : list APDU -> APDU -> result Buffer;
  exchanged : list APDU;
  scrambleKey : option string
}.

Definition setScrambleKey (t : Transport) (key : string) : Transport :=
  {| device := device t; exchanged := exchanged t; scrambleKey := Some key |}.

(** Computations that may throw and that act on a state [S]: the
    transport for the functions of api.js, the session object for the
    methods of [BaseAPI]. *)
Definition M (S A : Type) : Type := S -> result A * S.

Definition ret {S A : Type} (a : A) : M S A := fun s => (Ok a, s).

Definition throw {S A : Type} (e : exn) : M S A := fun s => (Throw e, s).

Definition bindM {S A B : Type} (m : M S A) (k : A -> M S B) : M S B :=
  fun s =>
    match m s with
    | (Ok a, s') => k a s'
    | (Throw e, s') => (Throw e, s')
    end.

(** A computation without effect on the state. *)
Definition pure {S A : Type} (r : result A) : M S A := fun s => (r, s).

Declare Scope async_scope.
Delimit Scope async_scope with async.
Notation "x <- c ;; k" := (bindM c (fun x => k))
  (at level 61, c at next level, right associativity) : async_scope.
Notation "' p <- c ;; k" := (bindM c (fun x => match x with p => k end))
  (at level 61, p pattern, c at next level, right associativity) : async_scope.

(** [await transport.send(cla, ins, p1, p2, buf)] *)
Definition send (cla ins p1 p2 : Z) (buf : Buffer) : M Transport Buffer :=
  fun t =>
    let apdu := {| cla := cla; ins := ins; p1 := p1; p2 := p2; data := buf |} in
    (device t (exchanged t) apdu,
     {| device := device t; exchanged := exchanged t ++ [apdu];
        scrambleKey := scrambleKey t |}).

Record BaseAPI : Type := {
  transport : Transport;
  coin : CoinConfig;
  _appCoin : option string
}.

(** Run a function of api.js on the transport of the session. *)
Definition on_transport {A : Type} (m : M Transport A) : M BaseAPI A :=
  fun this =>
    let '(r, t) := m (transport this) in
    (r, {| transport := t; coin := coin this; _appCoin := _appCoin this |}).

(** The value of an optional string field that was found truthy. *)
Definition str (o : option string) : string :=
  match o with
  | Some s => s
  | None => EmptyString
  end.

(** A number converted to a string, as by [+] with a string. *)
Definition Number_toString (n : Z) : string :=
  DecimalString.NilZero.string_of_int (Z.to_int n).

Section Package.

(** The packages imported for address decoding and path parsing:
    [nanoBase32.decode], [blake2b(input, null, outlen)] and
    [BIPPath.fromString(path).toPathArray()]. *)
Variable nanoBase32_decode : string -> result Buffer.
Variable blake2b : Buffer -> nat -> Buffer.
Variable BIPPath_fromString : string -> result (list Z).

(** *** util.js *)

(** The loop over [allowedPrefixes]: the first prefix the address
    starts with is cut off. *)
Fixpoint strip_prefix (address : string) (allowedPrefixes : list string)
  : string :=
  match allowedPrefixes with
  | [] => address
  | prefix :: rest =>
      if startsWith address prefix
      then substr address (String.length prefix)
      else strip_prefix address rest
  end.

(** The character class [[0-9a-km-uw-z]]. *)
Definition address_body_char (c : ascii) : bool :=
  in_range "0" "9" c || in_range "a" "k" c
  || in_range "m" "u" c || in_range "w" "z" c.

(** The character class [[13]]. *)
Definition address_head_char (c : ascii) : bool :=
  Ascii.eqb c "1" || Ascii.eqb c "3".

(** [/[13][0-9a-km-uw-z]{59}/.test(address)] *)
Definition address_pattern_test (address : string) : bool :=
  test_anywhere
    (fun s =>
       match s with
       | String c s' =>
           address_head_char c && starts_with_class address_body_char 59 s'
       | EmptyString => false
       end)
    address.

(** The loop comparing the checksums, byte by byte. *)
Fixpoint checksum_matches (checksum computedChecksum : Buffer) : bool :=
  match checksum, computedChecksum with
  | x :: checksum', y :: computedChecksum' =>
      (x =? y)%Z && checksum_matches checksum' computedChecksum'
  | _, _ => true
  end.

Definition decodeAddress (address : string) (allowedPrefixes : list string)
  : result (option Buffer) :=
  (let address := strip_prefix address allowedPrefixes in
   if negb (address_pattern_test address) then Ok None
   else
     bytes <- nanoBase32_decode address ;;
     let publicKey := firstn 32 bytes in
     let checksum := skipn 32 bytes in
     let computedChecksum := rev (blake2b publicKey 5) in
     if negb (length checksum =? length computedChecksum) then Ok None
     else if negb (checksum_matches checksum computedChecksum) then Ok None
     else Ok (Some publicKey))%js.

Definition encodeBalance (value : string) : result string :=
  (value <- BigInteger.bigInt value 10 ;;
   let value := BigInteger.toString value 16 in
   let value :=
     if String.length value <? 32
     then (repeat_string "0" (32 - String.length value) ++ value)%string
     else value in
   Ok value)%js.

Definition decodeBalance (value : string) : result string :=
  (value <- BigInteger.bigInt value 16 ;;
   Ok (BigInteger.toString value 10))%js.

(** *** api.js *)

Definition addressPrefixes (coin : CoinConfig) : list string :=
  [addressPrimaryPrefix coin; addressSecondaryPrefix coin].

Definition badAddressReason (c : CoinConfig) (field : string) : string :=
  let addrLen := 60 in
  let pre1 := addressPrimaryPrefix c in
  let pre2 := addressSecondaryPrefix c in
  let msg :=
    (if String.eqb pre1 pre2
     then "must be a "
          ++ Number_toString (Z.of_nat (addrLen + String.length pre1))
          ++ " character " ++ pre1 ++ " address"
     else "must be either a "
          ++ Number_toString (Z.of_nat (addrLen + String.length pre1))
          ++ " character " ++ pre1 ++ " address "
          ++ "or a "
          ++ Number_toString (Z.of_nat (addrLen + String.length pre2))
          ++ " character " ++ pre2 ++ " address")%string in
  ("`" ++ field ++ "` " ++ msg)%string.

(** [/[0-9]+/.test(balance)] *)
Definition balance_pattern_test (balance : string) : bool :=
  test_anywhere
    (fun s =>
       match s with
       | String c _ => in_range "0" "9" c
       | EmptyString => false
       end)
    balance.

Definition processBlockData (c : CoinConfig) (b : BlockData)
  : result BlockKeys :=
  (if truthy (previousBlock b)
      && negb (String.length (str (previousBlock b)) =? 64)
   then Throw (Error "`previousBlock` must be a 64 character hex string")
   else
     representativePublicKey <-
       decodeAddress (representative b) (addressPrefixes c) ;;
     match representativePublicKey with
     | None => Throw (Error (badAddressReason c "representative"))
     | Some representativePublicKey =>
         if negb (balance_pattern_test (balance b))
         then Throw (Error "`balance` must be a number")
         else if truthy (sourceBlock b)
                 && negb (String.length (str (sourceBlock b)) =? 64)
         then Throw (Error "`sourceBlock` must be a 64 character hex string")
         else
           recipientPublicKey <-
             (if truthy (recipient b)
              then decodeAddress (str (recipient b)) (addressPrefixes c)
              else Ok None) ;;
           if truthy (recipient b)
              && match recipientPublicKey with
                 | None => true
                 | Some _ => false
                 end
           then Throw (Error (badAddressReason c "recipient"))
           else
             let isOpenBlock :=
               negb (truthy (previousBlock b)) && truthy (sourceBlock b)
               && negb (truthy (recipient b)) in
             let isReceiveBlock :=
               truthy (previousBlock b) && truthy (sourceBlock b)
               && negb (truthy (recipient b)) in
             let isSendBlock :=
               truthy (previousBlock b) && negb (truthy (sourceBlock b))
               && truthy (recipient b) in
             let isChangeBlock :=
               truthy (previousBlock b) && negb (truthy (sourceBlock b))
               && negb (truthy (recipient b)) in
             if negb isOpenBlock && negb isReceiveBlock
                && negb isSendBlock && negb isChangeBlock
             then Throw (Error
                    "`blockData` optional field configuration is unsupported")
             else Ok {| representativePublicKey := representativePublicKey;
                        recipientPublicKey := recipientPublicKey |}
     end)%js.

Definition getAppConfiguration (coin : CoinConfig)
  : M Transport AppConfiguration :=
  (let cla := 0xa1%Z in
   let ins := 0x01%Z in
   let p1 := 0x00%Z in
   let p2 := 0x00%Z in
   let size := 0 in
   let buf := Buf.alloc size in
   buf <- send cla ins p1 p2 buf ;;
   let ptr := 0 in
   versionMajor <- pure (Buf.readUInt8 buf ptr) ;;
   let ptr := ptr + 1 in
   versionMinor <- pure (Buf.readUInt8 buf ptr) ;;
   let ptr := ptr + 1 in
   versionPatch <- pure (Buf.readUInt8 buf ptr) ;;
   let ptr := ptr + 1 in
   coinName <-
     (if ptr <? length buf
      then
        coinNameLength <- pure (Buf.readUInt8 buf ptr) ;;
        let ptr := ptr + 1 + Z.to_nat coinNameLength in
        ret (Buf.toString_ascii
               (Buf.slice buf (ptr - Z.to_nat coinNameLength) ptr))
      else if ((versionMajor =? 1) && (versionMinor =? 0)
               && (versionPatch =? 0))%Z
      then ret "Nano"
      else ret EmptyString) ;;
   ret {| version := (Number_toString versionMajor ++ "."
                      ++ Number_toString versionMinor ++ "."
                      ++ Number_toString versionPatch)%string;
          appCoinName := coinName |})%async.

Definition getAddress (coin : CoinConfig) (path : string)
  (boolDisplay : bool) : M Transport AddressInfo :=
  (bipPath <- pure (BIPPath_fromString path) ;;
   let cla := 0xa1%Z in
   let ins := 0x02%Z in
   let p1 := if boolDisplay then 0x01%Z else 0x00%Z in
   let p2 := 0x00%Z in
   let size := 1 + 4 * length bipPath in
   let buf := Buf.alloc size in
   buf <- pure (Buf.writeUInt8 buf (Z.of_nat (length bipPath)) 0) ;;
   '(buf, _) <-
     pure (forEach bipPath
             (fun segment '(buf, index) =>
                (buf <- Buf.writeUInt32BE buf segment (1 + 4 * index) ;;
                 Ok (buf, S index))%js)
             (buf, 0)) ;;
   buf <- send cla ins p1 p2 buf ;;
   let ptr := 0 in
   let ptr := ptr + 32 in
   let publicKey := Buf.toString_hex (Buf.slice buf (ptr - 32) ptr) in
   addressLength <- pure (Buf.readUInt8 buf ptr) ;;
   let ptr := ptr + 1 + Z.to_nat addressLength in
   let address :=
     Buf.toString_ascii (Buf.slice buf (ptr - Z.to_nat addressLength) ptr) in
   ret {| publicKey := publicKey; address := address |})%async.

Definition signBlock (coin : CoinConfig) (path : string)
  (blockData : BlockData) : M Transport BlockSignature :=
  (let b := blockData in
   keys <- pure (processBlockData coin b) ;;
   let representativePublicKey := representativePublicKey keys in
   let recipientPublicKey := recipientPublicKey keys in
   bipPath <- pure (BIPPath_fromString path) ;;
   let cla := 0xa1%Z in
   let ins := 0x04%Z in
   let p1 := 0x00%Z in
   let p2 := 0x00%Z in
   let p2 :=
     if negb (String.eqb (addressPrimaryPrefix coin)
                (addressSecondaryPrefix coin))
     then
       let p2 :=
         if truthy (recipient b)
            && startsWith (str (recipient b)) (addressSecondaryPrefix coin)
         then Z.lor p2 0x01 else p2 in
       if startsWith (representative b) (addressSecondaryPrefix coin)
       then Z.lor p2 0x02 else p2
     else p2 in
   let size := 1 + 4 * length bipPath in
   let size := size + 32 in
   let size := size + 32 in
   let size := size + 32 in
   let size := size + 16 in
   let ptr := 0 in
   let buf := Buf.alloc size in
   buf <- pure (Buf.writeUInt8 buf (Z.of_nat (length bipPath)) ptr) ;;
   let ptr := ptr + 1 in
   '(buf, ptr) <-
     pure (forEach bipPath
             (fun segment '(buf, ptr) =>
                (buf <- Buf.writeUInt32BE buf segment ptr ;;
                 Ok (buf, ptr + 4))%js)
             (buf, ptr)) ;;
   '(n, buf) <-
     pure (if truthy (previousBlock b)
           then Buf.write_hex buf (str (previousBlock b)) ptr
                  (length buf - ptr)
           else Ok (32, buf)) ;;
   let ptr := ptr + n in
   '(n, buf) <-
     pure (if truthy (sourceBlock b)
           then Buf.write_hex buf (str (sourceBlock b)) ptr
                  (length buf - ptr)
           else match recipientPublicKey with
                | Some recipientPublicKey =>
                    Ok (Buf.copy recipientPublicKey buf ptr)
                | None => Ok (32, buf)
                end) ;;
   let ptr := ptr + n in
   let '(n, buf) := Buf.copy representativePublicKey buf ptr in
   let ptr := ptr + n in
   balanceHex <- pure (encodeBalance (balance b)) ;;
   '(n, buf) <- pure (Buf.write_hex buf balanceHex ptr (length buf - ptr)) ;;
   let ptr := ptr + n in
   buf <- send cla ins p1 p2 buf ;;
   let ptr := 0 in
   let ptr := ptr + 32 in
   let blockHash := Buf.toString_hex (Buf.slice buf (ptr - 32) ptr) in
   let ptr := ptr + 64 in
   let signature := Buf.toString_hex (Buf.slice buf (ptr - 64) ptr) in
   ret {| blockHash := blockHash; signature := signature |})%async.

Definition cacheBlock (coin : CoinConfig) (path : string)
  (blockData : BlockData) (signature : string) : M Transport unit :=
  (let b := blockData in
   keys <- pure (processBlockData coin b) ;;
   let representativePublicKey := representativePublicKey keys in
   let recipientPublicKey := recipientPublicKey keys in
   if negb (String.length signature =? 128)
   then throw (Error "`signature` must be a 128 character hex string")
   else
     bipPath <- pure (BIPPath_fromString path) ;;
     let cla := 0xa1%Z in
     let ins := 0x03%Z in
     let p1 := 0x00%Z in
     let p2 := 0x00%Z in
     let size := 1 + 4 * length bipPath in
     let size := size + 32 in
     let size := size + 32 in
     let size := size + 32 in
     let size := size + 16 in
     let size := size + 64 in
     let ptr := 0 in
     let buf := Buf.alloc size in
     buf <- pure (Buf.writeUInt8 buf (Z.of_nat (length bipPath)) ptr) ;;
     let ptr := ptr + 1 in
     '(buf, ptr) <-
       pure (forEach bipPath
               (fun segment '(buf, ptr) =>
                  (buf <- Buf.writeUInt32BE buf segment ptr ;;
                   Ok (buf, ptr + 4))%js)
               (buf, ptr)) ;;
     '(n, buf) <-
       pure (if truthy (previousBlock b)
             then Buf.write_hex buf (str (previousBlock b)) ptr
                    (length buf - ptr)
             else Ok (32, buf)) ;;
     let ptr := ptr + n in
     '(n, buf) <-
       pure (if truthy (sourceBlock b)
             then Buf.write_hex buf (str (sourceBlock b)) ptr
                    (length buf - ptr)
             else match recipientPublicKey with
                  | Some recipientPublicKey =>
                      Ok (Buf.copy recipientPublicKey buf ptr)
                  | None => Ok (32, buf)
                  end) ;;
     let ptr := ptr + n in
     let '(n, buf) := Buf.copy representativePublicKey buf ptr in
     let ptr := ptr + n in
     balanceHex <- pure (encodeBalance (balance b)) ;;
     '(n, buf) <- pure (Buf.write_hex buf balanceHex ptr (length buf - ptr)) ;;
     let ptr := ptr + n in
     '(n, buf) <- pure (Buf.write_hex buf signature ptr (length buf - ptr)) ;;
     let ptr := ptr + n in
     _ <- send cla ins p1 p2 buf ;;
     ret tt)%async.

(** *** class BaseAPI *)

Definition BaseAPI_constructor (transport : Transport) (coin : CoinConfig)
  : BaseAPI :=
  {| transport := setScrambleKey transport "mRB";
     coin := coin;
     _appCoin := None |}.

Definition _assertCorrectCoin : M BaseAPI unit :=
  fun this =>
    match _appCoin this with
    | Some appCoin =>
        if negb (String.eqb appCoin (coinName (coin this)))
        then throw (Error ("Expected " ++ coinName (coin this)
                           ++ " app to be open, found " ++ appCoin
                           ++ " app open instead")%string) this
        else ret tt this
    | None => ret tt this
    end.

Definition BaseAPI_getAppConfiguration : M BaseAPI AppConfiguration :=
  fun this =>
    (appConf <- on_transport (getAppConfiguration (coin this)) ;;
     fun this =>
       (Ok appConf,
        {| transport := transport this; coin := coin this;
           _appCoin := Some (appCoinName appConf) |}))%async this.

(** *** class Banano extends BaseAPI: the guarded operations *)

Definition Banano_constructor (transport : Transport) : BaseAPI :=
  BaseAPI_constructor transport
    {| coinName := "Banano";
       addressPrimaryPrefix := "ban_";
       addressSecondaryPrefix := "ban_" |}.

Definition Banano_getAddress (path : string) (boolDisplay : bool)
  : M BaseAPI AddressInfo :=
  fun this =>
    (_ <- _assertCorrectCoin ;;
     on_transport (getAddress (coin this) path boolDisplay))%async this.

Definition Banano_signBlock (path : string) (blockData : BlockData)
  : M BaseAPI BlockSignature :=
  fun this =>
    (_ <- _assertCorrectCoin ;;
     on_transport (signBlock (coin this) path blockData))%async this.

Definition Banano_cacheBlock (path : string) (blockData : BlockData)
  (signature : string) : M BaseAPI unit :=
  fun this =>
    (_ <- _assertCorrectCoin ;;
     on_transport (cacheBlock (coin this) path blockData signature))%async
      this.

(** *** Sessions: sequences of calls on one session object *)

Inductive call : Type :=
| CallGetAppConfiguration
| CallGetAddress (path : string) (boolDisplay : bool)
| CallSignBlock (path : string) (blockData : BlockData)
| CallCacheBlock (path : string) (blockData : BlockData) (signature : string).

(** One call, its returned value dropped. *)
Definition run_call (c : call) : M BaseAPI unit :=
  match c with
  | CallGetAppConfiguration =>
      (_ <- BaseAPI_getAppConfiguration ;; ret tt)%async
  | CallGetAddress path boolDisplay =>
      (_ <- Banano_getAddress path boolDisplay ;; ret tt)%async
  | CallSignBlock path blockData =>
      (_ <- Banano_signBlock path blockData ;; ret tt)%async
  | CallCacheBlock path blockData signature =>
      Banano_cacheBlock path blockData signature
  end.

(** The session object after a sequence of calls, each awaited before
    the next, whether it failed or not. *)
Definition run_calls (calls : list call) (this : BaseAPI) : BaseAPI :=
  fold_left (fun this c => snd (run_call c this)) calls this.

Definition is_app_query (c : call) : bool :=
  match c with
  | CallGetAppConfiguration => true
  | _ => false
  end.

(** *** Vocabulary of the specification *)

Definition is_digit (c : ascii) : bool := in_range "0" "9" c.

Fixpoint all_chars (p : ascii -> bool) (s : string) : bool :=
  match s with
  | EmptyString => true
  | String c s' => p c && all_chars p s'
  end.

(** A decimal-digit string: one digit or more, nothing else. *)
Definition is_decimal_numeral (v : string) : bool :=
  negb (String.eqb v EmptyString) && all_chars is_digit v.

(** The value of a decimal numeral, as the Standard Library reads it. *)
Definition numeral_value (v : string) : N :=
  match DecimalString.NilEmpty.uint_of_string v with
  | Some d => N.of_uint d
  | None => 0%N
  end.

Fixpoint strip_leading_zeros (v : string) : string :=
  match v with
  | String c v' => if Ascii.eqb c "0" then strip_leading_zeros v' else v
  | EmptyString => EmptyString
  end.

(** The numeral without its leading zeros; ["0"] when nothing is left. *)
Definition canonical_decimal (v : string) : string :=
  match strip_leading_zeros v with
  | EmptyString => "0"
  | s => s
  end.

Definition is_hex_char (c : ascii) : bool :=
  match Buf.hex_value c with
  | Some _ => true
  | None => false
  end.

(** A string of exactly [n] hexadecimal characters. *)
Definition is_hex_string (n : nat) (s : string) : bool :=
  (String.length s =? n) && all_chars is_hex_char s.

Definition present (o : option string) : bool :=
  match o with
  | Some _ => true
  | None => false
  end.

Inductive BlockKind : Type :=
| OpenBlock
| ReceiveBlock
| SendBlock
| ChangeBlock.

(** The four shapes of a block descriptor, by the fields supplied. *)
Definition block_kind (b : BlockData) : option BlockKind :=
  match present (previousBlock b), present (sourceBlock b),
        present (recipient b) with
  | false, true, false => Some OpenBlock
  | true, true, false => Some ReceiveBlock
  | true, false, true => Some SendBlock
  | true, false, false => Some ChangeBlock
  | _, _, _ => None
  end.

(** The four bytes of an unsigned 32-bit integer, big end first. *)
Definition uint32_be (v : Z) : list Z :=
  [(v / 2 ^ 24) mod 256; (v / 2 ^ 16) mod 256; (v / 2 ^ 8) mod 256;
   v mod 256]%Z.

(** The path field of a request: the number of segments in one byte,
    then the segments. *)
Definition path_field (segments : list Z) : Buffer :=
  Z.of_nat (length segments) :: flat_map uint32_be segments.

(** The public key an address decodes to. *)
Definition decoded_key (coin : CoinConfig) (address : string) : Buffer :=
  match decodeAddress address (addressPrefixes coin) with
  | Ok (Some key) => key
  | _ => []
  end.

(** The block fields of a Sign or Cache request, as the specification
    lays them out. *)
Definition previous_field (b : BlockData) : Buffer :=
  match previousBlock b with
  | Some hash => Buf.from_hex hash
  | None => Buf.alloc 32
  end.

Definition link_field (coin : CoinConfig) (b : BlockData) : Buffer :=
  match sourceBlock b with
  | Some hash => Buf.from_hex hash
  | None =>
      match recipient b with
      | Some address => decoded_key coin address
      | None => Buf.alloc 32
      end
  end.

Definition representative_field (coin : CoinConfig) (b : BlockData)
  : Buffer :=
  decoded_key coin (representative b).

Definition balance_field (b : BlockData) : Buffer :=
  match encodeBalance (balance b) with
  | Ok hex => Buf.from_hex hex
  | Throw _ => []
  end.

Definition sign_payload (coin : CoinConfig) (segments : list Z)
  (b : BlockData) : Buffer :=
  path_field segments ++ previous_field b ++ link_field coin b
  ++ representative_field coin b ++ balance_field b.

Definition is_uint32 (v : Z) : Prop := (0 <= v < 2 ^ 32)%Z.

(** The message of the error thrown by [_assertCorrectCoin]. *)
Definition wrong_app (expected found : string) : exn :=
  Error ("Expected " ++ expected ++ " app to be open, found " ++ found
         ++ " app open instead")%string.

(** *** Data of the documentation, used to exercise the theorems *)

Definition nano_coin : CoinConfig :=
  {| coinName := "Nano";
     addressPrimaryPrefix := "nano_";
     addressSecondaryPrefix := "xrb_" |}.

Definition doc_address : string :=
  "3hd4ezdgsp15iemx7h81in7xz5tpxi43b6b41zn3qmwiuypankocw3awes5k".

Definition doc_previous : string :=
  "991CF190094C00F0B68E2E5F75F6BEE95A2E0BD93CEAA4A6734DB9F19B728948".

Definition doc_source : string :=
  "06B95C8A7EC4116E5BD907CD6DC65D310E065992A2E1D02F337D1A8308DEBC14".

Definition doc_balance : string := "100000000000000000000000000000000".

Definition openBlockData : BlockData :=
  {| previousBlock := None;
     representative := ("xrb_" ++ doc_address)%string;
     balance := doc_balance;
     sourceBlock := Some doc_source;
     recipient := None |}.

Definition sendBlockData : BlockData :=
  {| previousBlock := Some doc_previous;
     representative := ("xrb_" ++ doc_address)%string;
     balance := doc_balance;
     sourceBlock := None;
     recipient := Some ("nano_" ++ doc_address)%string |}.

Definition with_balance (b : BlockData) (balance : string) : BlockData :=
  {| previousBlock := previousBlock b;
     representative := representative b;
     balance := balance;
     sourceBlock := sourceBlock b;
     recipient := recipient b |}.

(** [bip32-path] on the path of the documentation: three hardened
    segments. *)
Definition doc_path (path : string) : result (list Z) :=
  if String.eqb path "44'/165'/0'"
  then Ok [0x8000002C; 0x800000A5; 0x80000000]%Z
  else Throw (Error "unknown path").

(** The app-info command. *)
Definition app_info_command : APDU :=
  {| cla := 0xa1; ins := 0x01; p1 := 0x00; p2 := 0x00; data := [] |}.

(** A device that answers every command with the same bytes. *)
Definition answering (response : Buffer) : Transport :=
  {| device := fun _ _ => Ok response;
     exchanged := [];
     scrambleKey := None |}.

(** A device that answers the first command with one response and
    every later command with another. *)
Definition answering_then (first later : Buffer) : Transport :=
  {| device := fun history _ =>
                 match history with
                 | [] => Ok first
                 | _ :: _ => Ok later
                 end;
     exchanged := [];
     scrambleKey := None |}.


(** *** Nano.js: the earlier, single-coin class

    The same codec written out for the prefixes [nano_] and [xrb_], with
    a classifier that tests the length of the balance. *)

Record NanoAppConfiguration : Type := {
  nanoVersion : string
}.

Definition Nano_decodeAddress (address : string) : result (option Buffer) :=
  (let address :=
     if startsWith address "nano_" then substr address 5
     else if startsWith address "xrb_" then substr address 4
     else address in
   if negb (address_pattern_test address) then Ok None
   else
     bytes <- nanoBase32_decode address ;;
     let publicKey := firstn 32 bytes in
     let checksum := skipn 32 bytes in
     let computedChecksum := rev (blake2b publicKey 5) in
     if negb (length checksum =? length computedChecksum) then Ok None
     else if negb (checksum_matches checksum computedChecksum) then Ok None
     else Ok (Some publicKey))%js.

Definition Nano_encodeBalance (value : string) : result string :=
  (value <- BigInteger.bigInt value 10 ;;
   let value := BigInteger.toString value 16 in
   let value :=
     if String.length value <? 32
     then (repeat_string "0" (32 - String.length value) ++ value)%string
     else value in
   Ok value)%js.

Definition Nano_decodeBalance (value : string) : result string :=
  (value <- BigInteger.bigInt value 16 ;;
   Ok (BigInteger.toString value 10))%js.

Definition Nano_processBlockData (b : BlockData) : result BlockKeys :=
  (if truthy (previousBlock b)
      && negb (String.length (str (previousBlock b)) =? 64)
   then Throw (Error "`previousBlock` must be a 64 character hex string")
   else
     representativePublicKey <- Nano_decodeAddress (representative b) ;;
     match representativePublicKey with
     | None =>
         Throw (Error
           "`representative` must be either a 65 character nano address or a 64 character xrb address")
     | Some representativePublicKey =>
         if negb (String.length (balance b) =? 32)
         then Throw (Error "`balance` must be a 32 character hex string")
         else if truthy (sourceBlock b)
                 && negb (String.length (str (sourceBlock b)) =? 64)
         then Throw (Error "`sourceBlock` must be a 64 character hex string")
         else
           recipientPublicKey <-
             (if truthy (recipient b)
              then Nano_decodeAddress (str (recipient b))
              else Ok None) ;;
           if truthy (recipient b)
              && match recipientPublicKey with
                 | None => true
                 | Some _ => false
                 end
           then Throw (Error
             "`recipient` must be either a 65 character nano address or a 64 character xrb address")
           else
             let isOpenBlock :=
               negb (truthy (previousBlock b)) && truthy (sourceBlock b)
               && negb (truthy (recipient b)) in
             let isReceiveBlock :=
               truthy (previousBlock b) && truthy (sourceBlock b)
               && negb (truthy (recipient b)) in
             let isSendBlock :=
               truthy (previousBlock b) && negb (truthy (sourceBlock b))
               && truthy (recipient b) in
             let isChangeBlock :=
               truthy (previousBlock b) && negb (truthy (sourceBlock b))
               && negb (truthy (recipient b)) in
             if negb isOpenBlock && negb isReceiveBlock
                && negb isSendBlock && negb isChangeBlock
             then Throw (Error
                    "`blockData` optional field configuration is unsupported")
             else Ok {| representativePublicKey := representativePublicKey;
                        recipientPublicKey := recipientPublicKey |}
     end)%js.

(** [new Nano(transport)] *)
Definition Nano_constructor (transport : Transport) : Transport :=
  setScrambleKey transport "mRB".

Definition Nano_getAppConfiguration : M Transport NanoAppConfiguration :=
  (let cla := 0xa1%Z in
   let ins := 0x01%Z in
   let p1 := 0x00%Z in
   let p2 := 0x00%Z in
   let size := 0 in
   let buf := Buf.alloc size in
   buf <- send cla ins p1 p2 buf ;;
   let ptr := 0 in
   versionMajor <- pure (Buf.readUInt8 buf ptr) ;;
   let ptr := ptr + 1 in
   versionMinor <- pure (Buf.readUInt8 buf ptr) ;;
   let ptr := ptr + 1 in
   versionPatch <- pure (Buf.readUInt8 buf ptr) ;;
   let ptr := ptr + 1 in
   ret {| nanoVersion := (Number_toString versionMajor ++ "."
                          ++ Number_toString versionMinor ++ "."
                          ++ Number_toString versionPatch)%string |})%async.

Definition Nano_getAddress (path : string) (boolDisplay : bool)
  : M Transport AddressInfo :=
  (bipPath <- pure (BIPPath_fromString path) ;;
   let cla := 0xa1%Z in
   let ins := 0x02%Z in
   let p1 := if boolDisplay then 0x01%Z else 0x00%Z in
   let p2 := 0x00%Z in
   let size := 1 + 4 * length bipPath in
   let buf := Buf.alloc size in
   buf <- pure (Buf.writeUInt8 buf (Z.of_nat (length bipPath)) 0) ;;
   '(buf, _) <-
     pure (forEach bipPath
             (fun segment '(buf, index) =>
                (buf <- Buf.writeUInt32BE buf segment (1 + 4 * index) ;;
                 Ok (buf, S index))%js)
             (buf, 0)) ;;
   buf <- send cla ins p1 p2 buf ;;
   let ptr := 0 in
   let ptr := ptr + 32 in
   let publicKey := Buf.toString_hex (Buf.slice buf (ptr - 32) ptr) in
   addressLength <- pure (Buf.readUInt8 buf ptr) ;;
   let ptr := ptr + 1 + Z.to_nat addressLength in
   let address :=
     Buf.toString_ascii (Buf.slice buf (ptr - Z.to_nat addressLength) ptr) in
   ret {| publicKey := publicKey; address := address |})%async.

(** In [buf.write(string, ptr, undefined, "hex")] the length defaults to
    what is left of the buffer. *)
Definition Nano_signBlock (path : string) (blockData : BlockData)
  : M Transport BlockSignature :=
  (let b := blockData in
   keys <- pure (Nano_processBlockData b) ;;
   let representativePublicKey := representativePublicKey keys in
   let recipientPublicKey := recipientPublicKey keys in
   bipPath <- pure (BIPPath_fromString path) ;;
   let cla := 0xa1%Z in
   let ins := 0x04%Z in
   let p1 := 0x00%Z in
   let p2 := 0x00%Z in
   let p2 :=
     if truthy (recipient b) && startsWith (str (recipient b)) "xrb_"
     then Z.lor p2 0x01 else p2 in
   let p2 :=
     if startsWith (representative b) "xrb_" then Z.lor p2 0x02 else p2 in
   let size := 1 + 4 * length bipPath in
   let size := size + 32 in
   let size := size + 32 in
   let size := size + 32 in
   let size := size + 16 in
   let ptr := 0 in
   let buf := Buf.alloc size in
   buf <- pure (Buf.writeUInt8 buf (Z.of_nat (length bipPath)) ptr) ;;
   let ptr := ptr + 1 in
   '(buf, ptr) <-
     pure (forEach bipPath
             (fun segment '(buf, ptr) =>
                (buf <- Buf.writeUInt32BE buf segment ptr ;;
                 Ok (buf, ptr + 4))%js)
             (buf, ptr)) ;;
   '(n, buf) <-
     pure (if truthy (previousBlock b)
           then Buf.write_hex buf (str (previousBlock b)) ptr
                  (length buf - ptr)
           else Ok (32, buf)) ;;
   let ptr := ptr + n in
   '(n, buf) <-
     pure (if truthy (sourceBlock b)
           then Buf.write_hex buf (str (sourceBlock b)) ptr
                  (length buf - ptr)
           else match recipientPublicKey with
                | Some recipientPublicKey =>
                    Ok (Buf.copy recipientPublicKey buf ptr)
                | None => Ok (32, buf)
                end) ;;
   let ptr := ptr + n in
   let '(n, buf) := Buf.copy representativePublicKey buf ptr in
   let ptr := ptr + n in
   balanceHex <- pure (Nano_encodeBalance (balance b)) ;;
   '(n, buf) <- pure (Buf.write_hex buf balanceHex ptr (length buf - ptr)) ;;
   let ptr := ptr + n in
   buf <- send cla ins p1 p2 buf ;;
   let ptr := 0 in
   let ptr := ptr + 32 in
   let blockHash := Buf.toString_hex (Buf.slice buf (ptr - 32) ptr) in
   let ptr := ptr + 64 in
   let signature := Buf.toString_hex (Buf.slice buf (ptr - 64) ptr) in
   ret {| blockHash := blockHash; signature := signature |})%async.

Definition Nano_cacheBlock (path : string) (blockData : BlockData)
  (signature : string) : M Transport unit :=
  (let b := blockData in
   keys <- pure (Nano_processBlockData b) ;;
   let representativePublicKey := representativePublicKey keys in
   let recipientPublicKey := recipientPublicKey keys in
   if negb (String.length signature =? 128)
   then throw (Error "`signature` must be a 128 character hex string")
   else
     bipPath <- pure (BIPPath_fromString path) ;;
     let cla := 0xa1%Z in
     let ins := 0x03%Z in
     let p1 := 0x00%Z in
     let p2 := 0x00%Z in
     let size := 1 + 4 * length bipPath in
     let size := size + 32 in
     let size := size + 32 in
     let size := size + 32 in
     let size := size + 16 in
     let size := size + 64 in
     let ptr := 0 in
     let buf := Buf.alloc size in
     buf <- pure (Buf.writeUInt8 buf (Z.of_nat (length bipPath)) ptr) ;;
     let ptr := ptr + 1 in
     '(buf, ptr) <-
       pure (forEach bipPath
               (fun segment '(buf, ptr) =>
                  (buf <- Buf.writeUInt32BE buf segment ptr ;;
                   Ok (buf, ptr + 4))%js)
               (buf, ptr)) ;;
     '(n, buf) <-
       pure (if truthy (previousBlock b)
             then Buf.write_hex buf (str (previousBlock b)) ptr
                    (length buf - ptr)
             else Ok (32, buf)) ;;
     let ptr := ptr + n in
     '(n, buf) <-
       pure (if truthy (sourceBlock b)
             then Buf.write_hex buf (str (sourceBlock b)) ptr
                    (length buf - ptr)
             else match recipientPublicKey with
                  | Some recipientPublicKey =>
                      Ok (Buf.copy recipientPublicKey buf ptr)
                  | None => Ok (32, buf)
                  end) ;;
     let ptr := ptr + n in
     let '(n, buf) := Buf.copy representativePublicKey buf ptr in
     let ptr := ptr + n in
     balanceHex <- pure (Nano_encodeBalance (balance b)) ;;
     '(n, buf) <- pure (Buf.write_hex buf balanceHex ptr (length buf - ptr)) ;;
     let ptr := ptr + n in
     '(n, buf) <- pure (Buf.write_hex buf signature ptr (length buf - ptr)) ;;
     let ptr := ptr + n in
     _ <- send cla ins p1 p2 buf ;;
     ret tt)%async.

(** *** Further vocabulary *)

(** The second parameter byte of a Sign request: bit 0 for a recipient
    given with the secondary prefix, bit 1 for such a representative;
    nothing for a coin with one prefix. *)
Definition sign_p2 (coin : CoinConfig) (b : BlockData) : Z :=
  if String.eqb (addressPrimaryPrefix coin) (addressSecondaryPrefix coin)
  then 0%Z
  else
    ((match recipient b with
      | Some r => if startsWith r (addressSecondaryPrefix coin) then 1 else 0
      | None => 0
      end)
     + (if startsWith (representative b) (addressSecondaryPrefix coin)
        then 2 else 0))%Z.

(** The fields of a request before the balance. *)
Definition block_prefix (coin : CoinConfig) (segments : list Z)
  (b : BlockData) : Buffer :=
  path_field segments ++ previous_field b ++ link_field coin b
  ++ representative_field coin b.

(** An optional field as the code sees it: the empty string counts as
    absent. *)
Definition supplied (o : option string) : option string :=
  match o with
  | Some s => if String.eqb s EmptyString then None else Some s
  | None => None
  end.

Definition without_empty_fields (b : BlockData) : BlockData :=
  {| previousBlock := supplied (previousBlock b);
     representative := representative b;
     balance := balance b;
     sourceBlock := supplied (sourceBlock b);
     recipient := supplied (recipient b) |}.

(** What a call does to the transport. *)
Definition sends_nothing {A : Type} (m : M Transport A) : Prop :=
  forall t, snd (m t) = t.

Definition is_byte_buffer (bytes : Buffer) : Prop :=
  Forall (fun v => (0 <= v < 256)%Z) bytes.

(** A hex digit in lower case. *)
Definition lower_digit (c : ascii) : ascii :=
  match BigInteger.digit_value c with
  | Some d => BigInteger.digit_char d
  | None => c
  end.

Fixpoint map_string (f : ascii -> ascii) (s : string) : string :=
  match s with
  | EmptyString => EmptyString
  | String c s' => String (f c) (map_string f s')
  end.

(** A path the requests can carry: it parses, to at most 255 segments of
    32 bits each. *)
Definition well_formed_path (path : string) (segments : list Z) : Prop :=
  BIPPath_fromString path = Ok segments
  /\ length segments <= 255
  /\ Forall is_uint32 segments.

(** A block descriptor of one of the four shapes whose addresses decode,
    whose supplied hashes are 64 hex characters and whose balance is a
    decimal numeral of any size. *)
Definition well_formed_block (coin : CoinConfig) (b : BlockData) : Prop :=
  (exists kind, block_kind b = Some kind)
  /\ (exists key,
        decodeAddress (representative b) (addressPrefixes coin)
        = Ok (Some key))
  /\ (forall r, recipient b = Some r ->
        exists key, decodeAddress r (addressPrefixes coin) = Ok (Some key))
  /\ (forall h, previousBlock b = Some h -> is_hex_string 64 h = true)
  /\ (forall h, sourceBlock b = Some h -> is_hex_string 64 h = true)
  /\ is_decimal_numeral (balance b) = true.

(** The bytes of the encoded balance, not cut to any length. *)
Definition balance_bytes (b : BlockData) : Buffer :=
  match encodeBalance (balance b) with
  | Ok hex => Buf.from_hex hex
  | Throw _ => []
  end.

(** The block hash and the signature read off a response to a Sign
    request. *)
Definition signature_of_response (response : Buffer) : BlockSignature :=
  {| blockHash := Buf.toString_hex (firstn 32 response);
     signature := Buf.toString_hex (firstn 64 (skipn 32 response)) |}.

(** The transport after one more command. *)
Definition after_exchange (t : Transport) (apdu : APDU) : Transport :=
  {| device := device t;
     exchanged := exchanged t ++ [apdu];
     scrambleKey := scrambleKey t |}.

(** A call that either throws with the transport untouched or hands the
    device exactly one command. *)
Definition fails_or_exchanges_once {A : Type} (m : M Transport A) : Prop :=
  forall t,
    (exists e, m t = (Throw e, t))
    \/ (exists apdu, snd (m t) = after_exchange t apdu).

Definition sign_command (coin : CoinConfig) (segments : list Z)
  (b : BlockData) : APDU :=
  {| cla := 0xa1; ins := 0x04; p1 := 0x00; p2 := sign_p2 coin b;
     data := block_prefix coin segments b ++ firstn 16 (balance_bytes b) |}.

Definition cache_command (coin : CoinConfig) (segments : list Z)
  (b : BlockData) (signature : string) : APDU :=
  {| cla := 0xa1; ins := 0x03; p1 := 0x00; p2 := 0x00;
     data := block_prefix coin segments b
             ++ firstn 80 (balance_bytes b ++ Buf.from_hex signature) |}.

Definition address_command (segments : list Z) (boolDisplay : bool) : APDU :=
  {| cla := 0xa1; ins := 0x02; p1 := if boolDisplay then 0x01 else 0x00;
     p2 := 0x00; data := path_field segments |}.

(** The number a buffer holds, read big end first. *)
Definition be_value (bytes : Buffer) : Z :=
  fold_left (fun acc x => acc * 256 + x)%Z bytes 0%Z.

(** A descriptor with the hex digits of its hashes in lower case. *)
Definition lower_case_hashes (b : BlockData) : BlockData :=
  {| previousBlock := option_map (map_string lower_digit) (previousBlock b);
     representative := representative b;
     balance := balance b;
     sourceBlock := option_map (map_string lower_digit) (sourceBlock b);
     recipient := recipient b |}.

(** A path field read back, as the device has to read it: the count,
    then that many big-endian integers of four bytes. *)
Fixpoint read_segments (n : nat) (bytes : Buffer) : list Z :=
  match n, bytes with
  | S n', a :: b :: c :: d :: rest =>
      be_value [a; b; c; d] :: read_segments n' rest
  | _, _ => []
  end.

Definition read_path (payload : Buffer) : list Z :=
  match payload with
  | count :: rest => read_segments (Z.to_nat count) rest
  | [] => []
  end.
(** *** Strings *)

Lemma length_append (s1 s2 : string) :
  String.length (s1 ++ s2) = String.length s1 + String.length s2.
Proof. induction s1; simpl; congruence. Qed.

Lemma append_assoc (s1 s2 s3 : string) :
  ((s1 ++ s2) ++ s3 = s1 ++ (s2 ++ s3))%string.
Proof. induction s1; simpl; congruence. Qed.

(** *** Facts about the big-integer model *)

Lemma length_repeat_string (c : ascii) (n : nat) :
  String.length (repeat_string (String c EmptyString) n) = n.
Proof. induction n; simpl; congruence. Qed.

Lemma digit_value_digit_char (d : N) :
  (d < 36)%N -> BigInteger.digit_value (BigInteger.digit_char d) = Some d.
Proof.
  intros H.
  assert (B : forall k, (k < 36)%nat ->
            BigInteger.digit_value (BigInteger.digit_char (N.of_nat k))
            = Some (N.of_nat k)).
  { intros k Hk.
    do 36 (destruct k as [|k]; [vm_compute; reflexivity|]). lia. }
  rewrite <- (N2Nat.id d). apply B. lia.
Qed.

Lemma digit_char_digit_value (c : ascii) :
  is_digit c = true ->
  exists d, BigInteger.digit_value c = Some d /\ (d < 10)%N
            /\ BigInteger.digit_char d = c.
Proof.
  destruct c as [[] [] [] [] [] [] [] []]; try discriminate; intros _;
    eexists; (split; [reflexivity|split; [reflexivity|reflexivity]]).
Qed.

Lemma parseBase_app (radix : N) (s1 s2 : string) (acc : N) :
  BigInteger.parseBase radix acc (s1 ++ s2)
  = bind (BigInteger.parseBase radix acc s1)
      (fun a => BigInteger.parseBase radix a s2).
Proof.
  revert acc. induction s1 as [|c s1 IH]; intros acc; simpl; [reflexivity|].
  destruct (BigInteger.digit_value c) as [d|]; [|reflexivity].
  destruct (d <? radix)%N; [apply IH|reflexivity].
Qed.

Lemma parseBase_zeros (radix : N) (k : nat) (s : string) :
  (0 < radix)%N ->
  BigInteger.parseBase radix 0 (repeat_string "0" k ++ s)
  = BigInteger.parseBase radix 0 s.
Proof.
  intros Hr. induction k as [|k IH]; simpl; [reflexivity|].
  change (BigInteger.digit_value "0") with (Some 0%N).
  destruct (N.ltb_spec 0 radix) as [_|]; [|lia].
  simpl. exact IH.
Qed.

Lemma toBase_fuel_enough (radix : N) :
  (2 <= radix)%N ->
  forall f1 f2 n,
    (n < 2 ^ N.of_nat f1)%N -> (n < 2 ^ N.of_nat f2)%N ->
    BigInteger.toBase_fuel f1 radix n = BigInteger.toBase_fuel f2 radix n.
Proof.
  intros Hr.
  assert (Hdiv : forall f n, (n < 2 ^ N.of_nat (S f))%N ->
                   (n / radix < 2 ^ N.of_nat f)%N).
  { intros f n Hn. rewrite Nat2N.inj_succ, N.pow_succ_r' in Hn.
    apply N.le_lt_trans with (n / 2)%N.
    - apply N.div_le_compat_l. lia.
    - apply N.Div0.div_lt_upper_bound; lia. }
  induction f1 as [|f1 IH]; intros f2 n H1 H2.
  - simpl in H1. assert (n = 0%N) by lia. subst n.
    destruct f2; reflexivity.
  - destruct f2 as [|f2].
    + simpl in H2. assert (n = 0%N) by lia. subst n. reflexivity.
    + simpl. destruct (n =? 0)%N; [reflexivity|].
      f_equal. apply IH; apply Hdiv; assumption.
Qed.

Lemma toBase_zero (radix : N) : BigInteger.toBase radix 0 = EmptyString.
Proof. reflexivity. Qed.

Lemma toBase_step (radix n : N) :
  (2 <= radix)%N -> n <> 0%N ->
  BigInteger.toBase radix n
  = (BigInteger.toBase radix (n / radix)
     ++ String (BigInteger.digit_char (n mod radix)) EmptyString)%string.
Proof.
  intros Hr Hn. unfold BigInteger.toBase.
  destruct (N.to_nat (N.size n)) as [|f] eqn:Ef.
  - destruct n; [congruence|]. simpl in Ef. lia.
  - simpl. destruct (N.eqb_spec n 0); [congruence|].
    f_equal. apply toBase_fuel_enough;
      [assumption| |rewrite N2Nat.id; apply N.size_gt].
    apply N.le_lt_trans with (n / 2)%N.
    + apply N.div_le_compat_l. lia.
    + apply N.Div0.div_lt_upper_bound.
      rewrite <- N.pow_succ_r', <- Nat2N.inj_succ, <- Ef, N2Nat.id.
      apply N.size_gt.
Qed.

(** A number too large for [k] digits, a number small enough. *)
Lemma length_toBase_le (radix : N) (k : nat) :
  (2 <= radix)%N ->
  forall n, (n < radix ^ N.of_nat k)%N ->
            String.length (BigInteger.toBase radix n) <= k.
Proof.
  intros Hr. induction k as [|k IH]; intros n Hn.
  - simpl in Hn. assert (n = 0%N) by lia. subst n. simpl. lia.
  - destruct (N.eq_dec n 0) as [->|Hz]; [simpl; lia|].
    rewrite toBase_step, length_append by assumption. simpl.
    rewrite Nat2N.inj_succ, N.pow_succ_r' in Hn.
    assert (String.length (BigInteger.toBase radix (n / radix)) <= k).
    { apply IH. apply N.Div0.div_lt_upper_bound; lia. }
    lia.
Qed.

Lemma length_toBase_gt (radix : N) (k : nat) :
  (2 <= radix)%N ->
  forall n, (radix ^ N.of_nat k <= n)%N ->
            k < String.length (BigInteger.toBase radix n).
Proof.
  intros Hr. induction k as [|k IH]; intros n Hn.
  - simpl in Hn. rewrite toBase_step, length_append by lia.
    simpl. lia.
  - rewrite Nat2N.inj_succ, N.pow_succ_r' in Hn.
    assert (0 < radix ^ N.of_nat k)%N by (apply N.neq_0_lt_0, N.pow_nonzero; lia).
    rewrite toBase_step, length_append by nia. simpl.
    assert (k < String.length (BigInteger.toBase radix (n / radix))).
    { apply IH. apply N.div_le_lower_bound; lia. }
    lia.
Qed.

Lemma parseBase_toBase (radix n : N) :
  (2 <= radix <= 36)%N ->
  BigInteger.parseBase radix 0 (BigInteger.toBase radix n) = Ok n.
Proof.
  intros Hr. induction n as [n IH] using (well_founded_induction N.lt_wf_0).
  destruct (N.eq_dec n 0) as [->|Hz]; [reflexivity|].
  rewrite toBase_step, parseBase_app by lia.
  rewrite IH by (apply N.div_lt; lia). simpl.
  assert (Hm : (n mod radix < radix)%N) by (apply N.mod_lt; lia).
  rewrite digit_value_digit_char by lia.
  destruct (N.ltb_spec (n mod radix) radix) as [_|]; [|lia].
  f_equal. rewrite (N.div_mod n radix) at 3 by lia. lia.
Qed.

Lemma append_nil_r (s : string) : (s ++ EmptyString)%string = s.
Proof. induction s; simpl; congruence. Qed.

Lemma toBase_digit (d : N) :
  d <> 0%N -> (d < 10)%N ->
  BigInteger.toBase 10 d = String (BigInteger.digit_char d) EmptyString.
Proof.
  intros Hz Hd. rewrite toBase_step by lia.
  rewrite N.div_small, N.mod_small by lia. reflexivity.
Qed.

(** Reading a string of decimal digits and writing the number back:
    the digits come back, after those of the accumulator or without
    their leading zeros. *)
Lemma parseBase_decimal (s : string) :
  all_chars is_digit s = true ->
  forall acc, exists n,
    BigInteger.parseBase 10 acc s = Ok n
    /\ (acc <> 0%N ->
        BigInteger.toBase 10 n = (BigInteger.toBase 10 acc ++ s)%string)
    /\ (acc = 0%N -> BigInteger.toBase 10 n = strip_leading_zeros s).
Proof.
  induction s as [|c s IH]; intros Hs acc.
  - exists acc. split; [reflexivity|]. split.
    + intros _. now rewrite append_nil_r.
    + intros ->. reflexivity.
  - simpl in Hs. apply andb_true_iff in Hs. destruct Hs as [Hc Hs].
    destruct (digit_char_digit_value c Hc) as (d & Hv & Hd & Hch).
    destruct (IH Hs (acc * 10 + d)%N) as (n & Hn & Hnz & Hz).
    exists n. simpl. rewrite Hv.
    destruct (N.ltb_spec d 10) as [_|]; [|lia].
    split; [exact Hn|]. split.
    + intros Hacc. rewrite Hnz by lia.
      rewrite (toBase_step 10 (acc * 10 + d)) by lia.
      replace ((acc * 10 + d) / 10)%N with acc
        by (apply N.div_unique with d; lia).
      replace ((acc * 10 + d) mod 10)%N with d
        by (apply N.mod_unique with acc; lia).
      rewrite Hch, append_assoc. reflexivity.
    + intros ->. simpl in Hnz, Hz.
      destruct (Ascii.eqb_spec c "0") as [->|Hc0].
      * injection Hv as <-. now apply Hz.
      * assert (d <> 0%N) by (intros ->; now apply Hc0).
        rewrite Hnz, toBase_digit, Hch by assumption. reflexivity.
Qed.

Lemma bigInt_decimal (v : string) :
  is_decimal_numeral v = true ->
  exists n, BigInteger.bigInt v 10 = Ok n
            /\ BigInteger.toString n 10 = canonical_decimal v.
Proof.
  intros Hv. apply andb_true_iff in Hv. destruct Hv as [_ Hv].
  destruct (parseBase_decimal v Hv 0%N) as (n & Hn & _ & Hz).
  exists n. split; [exact Hn|].
  unfold BigInteger.toString, canonical_decimal.
  rewrite <- (Hz eq_refl).
  destruct (N.eqb_spec n 0) as [->|Hnz]; [reflexivity|].
  rewrite toBase_step by lia.
  destruct (BigInteger.toBase 10 (n / 10)); reflexivity.
Qed.

(** The parser agrees with the Standard Library on decimal numerals. *)
Lemma parseBase_of_uint_acc (d : Decimal.uint) :
  forall acc : positive,
    BigInteger.parseBase 10 (Npos acc)
      (DecimalString.NilEmpty.string_of_uint d)
    = Ok (Npos (Pos.of_uint_acc d acc)).
Proof.
  induction d as [|d IH|d IH|d IH|d IH|d IH|d IH|d IH|d IH|d IH|d IH];
    intros acc; [reflexivity|..];
    cbn [DecimalString.NilEmpty.string_of_uint BigInteger.parseBase
         Pos.of_uint_acc];
    match goal with
    | |- context [BigInteger.digit_value ?c] =>
        let r := eval vm_compute in (BigInteger.digit_value c) in
        change (BigInteger.digit_value c) with r
    end;
    cbv beta iota;
    match goal with
    | |- context [(?k <? 10)%N] => change (k <? 10)%N with true
    end;
    cbv iota;
    match goal with
    | |- BigInteger.parseBase 10 ?a _ = Ok (Npos (Pos.of_uint_acc d ?b)) =>
        replace a with (Npos b) by lia
    end;
    apply IH.
Qed.

Lemma parseBase_of_uint (d : Decimal.uint) :
  BigInteger.parseBase 10 0 (DecimalString.NilEmpty.string_of_uint d)
  = Ok (N.of_uint d).
Proof.
  induction d as [|d IH|d IH|d IH|d IH|d IH|d IH|d IH|d IH|d IH|d IH];
    [reflexivity|exact IH|..];
    cbn [DecimalString.NilEmpty.string_of_uint]; unfold N.of_uint;
    cbn [Pos.of_uint]; apply (parseBase_of_uint_acc d).
Qed.

Lemma uint_of_decimal (v : string) :
  all_chars is_digit v = true ->
  exists d, DecimalString.NilEmpty.uint_of_string v = Some d.
Proof.
  induction v as [|c v IH]; intros H; [now exists Decimal.Nil|].
  cbn [all_chars] in H. apply andb_true_iff in H. destruct H as [Hc Hv].
  destruct (IH Hv) as [d Hd]. cbn [DecimalString.NilEmpty.uint_of_string].
  rewrite Hd. revert Hc.
  destruct c as [[] [] [] [] [] [] [] []]; try discriminate; intros _;
    eexists; reflexivity.
Qed.

Lemma bigInt_numeral_value (v : string) :
  is_decimal_numeral v = true ->
  BigInteger.bigInt v 10 = Ok (numeral_value v).
Proof.
  intros H. apply andb_true_iff in H. destruct H as [_ H].
  destruct (uint_of_decimal v H) as [d Hd].
  unfold numeral_value, BigInteger.bigInt. rewrite Hd.
  rewrite <- (DecimalString.NilEmpty.sus v d Hd). apply parseBase_of_uint.
Qed.

Lemma length_toString_hex (n : N) :
  (n < 2 ^ 128)%N -> String.length (BigInteger.toString n 16) <= 32.
Proof.
  intros Hn. unfold BigInteger.toString.
  destruct (n =? 0)%N; [simpl; lia|].
  apply length_toBase_le; [lia|exact Hn].
Qed.

Lemma bigInt_toString (n radix : N) :
  (2 <= radix <= 36)%N ->
  BigInteger.bigInt (BigInteger.toString n radix) radix = Ok n.
Proof.
  intros Hr. unfold BigInteger.bigInt, BigInteger.toString.
  destruct (N.eqb_spec n 0) as [->|Hnz].
  - simpl. destruct (N.ltb_spec 0 radix); [reflexivity|lia].
  - now apply parseBase_toBase.
Qed.

(** *** The balance codec *)

(** C3. For a decimal-digit string [v] whose value is below [2^128],
    [encodeBalance v] is the hexadecimal rendering of that value padded
    on the left with ['0'] to exactly 32 characters, and
    [decodeBalance] of it is [v] without its leading zeros. *)
Theorem balance_round_trip (v : string) :
  is_decimal_numeral v = true ->
  (numeral_value v < 2 ^ 128)%N ->
  exists hex,
    encodeBalance v = Ok hex
    /\ String.length hex = 32
    /\ hex = (repeat_string "0"
                (32 - String.length
                        (BigInteger.toString (numeral_value v) 16))
              ++ BigInteger.toString (numeral_value v) 16)%string
    /\ decodeBalance hex = Ok (canonical_decimal v).
Proof.
  intros Hv. pose proof (bigInt_numeral_value v Hv) as Hn.
  generalize dependent (numeral_value v). intros n Hn Hlt.
  pose proof (length_toString_hex n Hlt) as Hlen.
  destruct (bigInt_decimal v Hv) as (n' & Hn' & Hcanon).
  rewrite Hn in Hn'. injection Hn' as <-.
  exists (repeat_string "0" (32 - String.length (BigInteger.toString n 16))
          ++ BigInteger.toString n 16)%string.
  assert (Hdec : decodeBalance
            (repeat_string "0"
               (32 - String.length (BigInteger.toString n 16))
             ++ BigInteger.toString n 16)
          = Ok (canonical_decimal v)).
  { unfold decodeBalance, BigInteger.bigInt.
    rewrite parseBase_zeros by lia.
    change (BigInteger.parseBase 16 0 (BigInteger.toString n 16))
      with (BigInteger.bigInt (BigInteger.toString n 16) 16).
    rewrite bigInt_toString by lia. simpl. now rewrite Hcanon. }
  split; [|split; [|split; [reflexivity|exact Hdec]]].
  - unfold encodeBalance. rewrite Hn. cbn [bind].
    destruct (Nat.ltb_spec (String.length (BigInteger.toString n 16)) 32)
      as [Hl|Hl]; [reflexivity|].
    replace (32 - String.length (BigInteger.toString n 16)) with 0 by lia.
    reflexivity.
  - rewrite length_append, length_repeat_string. lia.
Qed.

(** C9. For a decimal-digit string whose value is [2^128] or more,
    [encodeBalance] returns the hexadecimal rendering of the value as it
    is, longer than 32 characters: nothing is cut and nothing is thrown. *)
Theorem encodeBalance_overflow (v : string) :
  is_decimal_numeral v = true ->
  (2 ^ 128 <= numeral_value v)%N ->
  encodeBalance v = Ok (BigInteger.toString (numeral_value v) 16)
  /\ 32 < String.length (BigInteger.toString (numeral_value v) 16)
  /\ BigInteger.bigInt (BigInteger.toString (numeral_value v) 16) 16
     = Ok (numeral_value v).
Proof.
  intros Hv. pose proof (bigInt_numeral_value v Hv) as Hn.
  generalize dependent (numeral_value v). intros n Hn Hge.
  assert (Hlen : 32 < String.length (BigInteger.toString n 16)).
  { unfold BigInteger.toString.
    destruct (N.eqb_spec n 0) as [->|_]; [lia|].
    apply length_toBase_gt; [lia|exact Hge]. }
  split; [|split; [exact Hlen|apply bigInt_toString; lia]].
  unfold encodeBalance. rewrite Hn. cbn [bind].
  destruct (Nat.ltb_spec (String.length (BigInteger.toString n 16)) 32);
    [lia|reflexivity].
Qed.

(** *** Buffers under construction

    While a request is built the buffer is what has been written so
    far followed by zeros, and the write pointer is at the boundary. *)

Lemma skipn_alloc (n k : nat) : skipn n (Buf.alloc k) = Buf.alloc (k - n).
Proof.
  revert n. induction k as [|k IH]; intros [|n]; simpl; try reflexivity.
  apply IH.
Qed.

Lemma length_alloc (k : nat) : length (Buf.alloc k) = k.
Proof. apply repeat_length. Qed.

Lemma blit_frame (w src : list Z) (k : nat) :
  length src <= k ->
  Buf.blit (w ++ Buf.alloc k) (length w) src
  = (w ++ src) ++ Buf.alloc (k - length src).
Proof.
  intros Hk. unfold Buf.blit.
  rewrite firstn_app, Nat.sub_diag, firstn_all, firstn_O, app_nil_r.
  rewrite skipn_app, skipn_all2 by lia.
  replace (length w + length src - length w) with (length src) by lia.
  rewrite skipn_alloc, <- app_assoc. reflexivity.
Qed.

Lemma writeUInt8_frame (buf w : list Z) (ptr k : nat) (v : Z) :
  buf = w ++ Buf.alloc k -> ptr = length w ->
  (0 <= v <= 255)%Z -> 1 <= k ->
  Buf.writeUInt8 buf v ptr = Ok ((w ++ [v]) ++ Buf.alloc (k - 1)).
Proof.
  intros -> -> Hv Hk. unfold Buf.writeUInt8.
  rewrite length_app, length_alloc.
  destruct (Z.leb_spec 0 v); [|lia].
  destruct (Z.leb_spec v 255); [|lia].
  destruct (Nat.leb_spec (length w + 1) (length w + k)); [|lia].
  simpl. now rewrite blit_frame by (simpl; lia).
Qed.

Lemma uint32_be_shift (v : Z) :
  [Z.land (Z.shiftr v 24) 255; Z.land (Z.shiftr v 16) 255;
   Z.land (Z.shiftr v 8) 255; Z.land v 255] = uint32_be v.
Proof.
  unfold uint32_be. change 255%Z with (Z.ones 8).
  rewrite !Z.land_ones, !Z.shiftr_div_pow2 by lia. reflexivity.
Qed.

Lemma writeUInt32BE_frame (buf w : list Z) (ptr k : nat) (v : Z) :
  buf = w ++ Buf.alloc k -> ptr = length w ->
  is_uint32 v -> 4 <= k ->
  Buf.writeUInt32BE buf v ptr = Ok ((w ++ uint32_be v) ++ Buf.alloc (k - 4)).
Proof.
  intros -> -> Hv Hk. unfold Buf.writeUInt32BE, is_uint32 in *.
  rewrite length_app, length_alloc.
  destruct (Z.leb_spec 0 v); [|lia].
  destruct (Z.leb_spec v 4294967295); [|lia].
  destruct (Nat.leb_spec (length w + 4) (length w + k)); [|lia].
  simpl andb. cbv iota. rewrite uint32_be_shift.
  now rewrite blit_frame by (simpl; lia).
Qed.

(** The loop writing the segments of the path. *)
Lemma segments_frame (segments : list Z) :
  Forall is_uint32 segments ->
  forall (w : list Z) (k ptr : nat),
    ptr = length w -> 4 * length segments <= k ->
    forEach segments
      (fun segment '(buf, ptr) =>
         (buf <- Buf.writeUInt32BE buf segment ptr ;; Ok (buf, ptr + 4))%js)
      (w ++ Buf.alloc k, ptr)
    = Ok ((w ++ flat_map uint32_be segments)
            ++ Buf.alloc (k - 4 * length segments),
          ptr + 4 * length segments).
Proof.
  induction 1 as [|v segments Hv _ IH]; intros w k ptr Hptr Hk.
  - simpl. rewrite app_nil_r, Nat.sub_0_r, Nat.add_0_r. reflexivity.
  - simpl forEach.
    rewrite (writeUInt32BE_frame _ w ptr k v eq_refl Hptr Hv)
      by (cbn [length] in Hk; lia).
    cbn [bind length] in *. rewrite IH.
    + replace (k - 4 - 4 * length segments)
        with (k - 4 * S (length segments)) by lia.
      replace (ptr + 4 + 4 * length segments)
        with (ptr + 4 * S (length segments)) by lia.
      cbn [flat_map]. now rewrite <- !app_assoc.
    + rewrite length_app. cbn [uint32_be length]. lia.
    + lia.
Qed.

Lemma copy_frame (src buf w : list Z) (ptr k : nat) :
  buf = w ++ Buf.alloc k -> ptr = length w -> length src <= k ->
  Buf.copy src buf ptr = (length src, (w ++ src) ++ Buf.alloc (k - length src)).
Proof.
  intros -> -> Hk. unfold Buf.copy.
  rewrite length_app, length_alloc, firstn_all2 by lia.
  now rewrite blit_frame.
Qed.

Lemma skip_frame (w : list Z) (k n : nat) :
  n <= k -> w ++ Buf.alloc k = (w ++ Buf.alloc n) ++ Buf.alloc (k - n).
Proof.
  intros Hn. rewrite <- app_assoc. f_equal. unfold Buf.alloc.
  rewrite <- repeat_app. f_equal. lia.
Qed.

(** *** Hex strings *)

Lemma hex_bytes_all (m : nat) :
  forall s n,
    all_chars is_hex_char s = true -> String.length s = 2 * m -> m <= n ->
    Buf.hex_bytes n s = Buf.hex_bytes m s
    /\ length (Buf.hex_bytes m s) = m.
Proof.
  induction m as [|m IH]; intros s n Hs Hlen Hn.
  - destruct s; [|discriminate]. destruct n; split; reflexivity.
  - destruct s as [|a [|b s]]; [discriminate|simpl in Hlen; lia|].
    simpl in Hs. apply andb_true_iff in Hs. destruct Hs as [Ha Hs].
    apply andb_true_iff in Hs. destruct Hs as [Hb Hs].
    destruct n as [|n]; [lia|]. simpl.
    unfold is_hex_char in Ha, Hb.
    destruct (Buf.hex_value a); [|discriminate].
    destruct (Buf.hex_value b); [|discriminate].
    destruct (IH s n Hs) as [E L]; [simpl in Hlen; lia|lia|].
    rewrite E. simpl. now rewrite L.
Qed.

Lemma from_hex_length (m : nat) (s : string) :
  is_hex_string (2 * m) s = true -> length (Buf.from_hex s) = m.
Proof.
  intros H. apply andb_true_iff in H. destruct H as [Hl Hs].
  apply Nat.eqb_eq in Hl. unfold Buf.from_hex. rewrite Hl.
  replace (2 * m / 2) with m by (apply Nat.div_unique_exact; lia).
  now apply (hex_bytes_all m s m).
Qed.

Lemma write_hex_frame (buf w : list Z) (ptr k len m : nat) (s : string) :
  buf = w ++ Buf.alloc k -> ptr = length w ->
  is_hex_string (2 * m) s = true -> m <= k -> m <= len ->
  Buf.write_hex buf s ptr len
  = Ok (m, (w ++ Buf.from_hex s) ++ Buf.alloc (k - m)).
Proof.
  intros -> -> Hs Hk Hlen. pose proof (from_hex_length m s Hs) as Hfrom.
  apply andb_true_iff in Hs. destruct Hs as [Hl Hs].
  apply Nat.eqb_eq in Hl. unfold Buf.write_hex.
  rewrite length_app, length_alloc.
  destruct (Nat.ltb_spec (length w + k) (length w)); [lia|].
  rewrite andb_false_r.
  replace (length w + k - length w) with k by lia.
  assert (E : Buf.hex_bytes (Nat.min len k) s = Buf.from_hex s).
  { unfold Buf.from_hex. rewrite Hl.
    replace (2 * m / 2) with m by (apply Nat.div_unique_exact; lia).
    apply (hex_bytes_all m s (Nat.min len k)); [assumption|assumption|lia]. }
  rewrite E, Hfrom, blit_frame by lia. now rewrite Hfrom.
Qed.

(** *** Address decoding *)

Lemma strip_prefix_empty (allowedPrefixes : list string) :
  strip_prefix EmptyString allowedPrefixes = EmptyString.
Proof.
  induction allowedPrefixes as [|p ps IH]; simpl; [reflexivity|].
  destruct p; simpl; [reflexivity|exact IH].
Qed.

Lemma decodeAddress_empty (allowedPrefixes : list string) :
  decodeAddress EmptyString allowedPrefixes = Ok None.
Proof. unfold decodeAddress. now rewrite strip_prefix_empty. Qed.

Lemma truthy_nonempty (s : string) :
  s <> EmptyString -> truthy (Some s) = true.
Proof. intros H. simpl. now destruct (String.eqb_spec s EmptyString). Qed.

Lemma truthy_length (s : string) (n : nat) :
  String.length s = S n -> truthy (Some s) = true.
Proof. intros H. apply truthy_nonempty. now intros ->. Qed.

Lemma truthy_decodes (s : string) (ps : list string) (key : Buffer) :
  decodeAddress s ps = Ok (Some key) -> truthy (Some s) = true.
Proof.
  intros H. apply truthy_nonempty. intros ->.
  now rewrite decodeAddress_empty in H.
Qed.

(** A decoded public key has 32 bytes, the hash being asked for 5. *)
Lemma decodeAddress_key_length (a : string) (ps : list string)
    (key : Buffer) :
  (forall input, length (blake2b input 5) = 5) ->
  decodeAddress a ps = Ok (Some key) -> length key = 32.
Proof.
  intros Hh. unfold decodeAddress. intros H.
  destruct (address_pattern_test (strip_prefix a ps));
    cbn [negb] in H; [|discriminate].
  destruct (nanoBase32_decode (strip_prefix a ps)) as [bytes|];
    cbn [bind] in H; [|discriminate].
  destruct (Nat.eqb_spec (length (skipn 32 bytes))
              (length (rev (blake2b (firstn 32 bytes) 5)))) as [E|];
    cbn [negb] in H; [|discriminate].
  destruct (checksum_matches _ _); cbn [negb] in H; [|discriminate].
  assert (Hk : firstn 32 bytes = key) by congruence.
  rewrite length_rev, Hh, length_skipn in E.
  rewrite <- Hk, length_firstn. lia.
Qed.

(** *** The block classifier *)

(** C2. When every field passes its own check (the representative and
    a supplied recipient decode, supplied hashes have 64 characters,
    the balance passes the numeral test), [processBlockData] succeeds
    exactly for the four shapes open, receive, send and change, and
    throws the unsupported-configuration error for every other
    combination of supplied fields. *)
Theorem processBlockData_shapes (c : CoinConfig) (b : BlockData)
    (key : Buffer) :
  decodeAddress (representative b) (addressPrefixes c) = Ok (Some key) ->
  (forall r, recipient b = Some r ->
     exists k, decodeAddress r (addressPrefixes c) = Ok (Some k)) ->
  (forall h, previousBlock b = Some h -> String.length h = 64) ->
  (forall h, sourceBlock b = Some h -> String.length h = 64) ->
  balance_pattern_test (balance b) = true ->
  ((exists keys, processBlockData c b = Ok keys)
   <-> (exists kind, block_kind b = Some kind))
  /\ (block_kind b = None ->
      processBlockData c b
      = Throw (Error
          "`blockData` optional field configuration is unsupported")).
Proof.
  intros Hrep Hrcp Hprev Hsrc Hbal.
  unfold processBlockData, block_kind.
  rewrite Hrep, Hbal. cbn [bind negb].
  assert (Tp : truthy (previousBlock b) = present (previousBlock b)).
  { destruct (previousBlock b) as [h|]; [|reflexivity].
    exact (truthy_length h 63 (Hprev h eq_refl)). }
  assert (Ts : truthy (sourceBlock b) = present (sourceBlock b)).
  { destruct (sourceBlock b) as [h|]; [|reflexivity].
    exact (truthy_length h 63 (Hsrc h eq_refl)). }
  assert (Tr : truthy (recipient b) = present (recipient b)).
  { destruct (recipient b) as [r|]; [|reflexivity].
    destruct (Hrcp r eq_refl) as [k Hk]. exact (truthy_decodes _ _ _ Hk). }
  rewrite Tp, Ts, Tr.
  destruct (previousBlock b) as [hp|];
    [cbn [str]; rewrite (Hprev hp eq_refl)|];
    (destruct (sourceBlock b) as [hs|];
     [cbn [str]; rewrite (Hsrc hs eq_refl)|]);
    (destruct (recipient b) as [r|];
     [destruct (Hrcp r eq_refl) as [k Hk]; cbn [str present]; rewrite Hk|]);
    cbn; (split; [split; [intros [keys E]|intros [kind E]]|intros E]);
    try discriminate; try reflexivity; eauto.
Qed.

Lemma numeral_passes_test (v : string) :
  is_decimal_numeral v = true -> balance_pattern_test v = true.
Proof.
  intros H. apply andb_true_iff in H. destruct H as [Hne Hd].
  destruct v as [|c v]; [discriminate|].
  simpl in Hd. apply andb_true_iff in Hd. destruct Hd as [Hc _].
  unfold balance_pattern_test. simpl. unfold is_digit in Hc.
  now rewrite Hc.
Qed.

Lemma decoded_key_eq (c : CoinConfig) (a : string) (key : Buffer) :
  decodeAddress a (addressPrefixes c) = Ok (Some key) ->
  decoded_key c a = key.
Proof. intros H. unfold decoded_key. now rewrite H. Qed.

(** What the classifier returns for a descriptor of one of the four
    shapes whose fields pass their checks. *)
Lemma processBlockData_valid (c : CoinConfig) (b : BlockData)
    (key : Buffer) (kind : BlockKind) :
  decodeAddress (representative b) (addressPrefixes c) = Ok (Some key) ->
  (forall r, recipient b = Some r ->
     exists k, decodeAddress r (addressPrefixes c) = Ok (Some k)) ->
  (forall h, previousBlock b = Some h -> String.length h = 64) ->
  (forall h, sourceBlock b = Some h -> String.length h = 64) ->
  balance_pattern_test (balance b) = true ->
  block_kind b = Some kind ->
  processBlockData c b
  = Ok {| representativePublicKey := key;
          recipientPublicKey :=
            match recipient b with
            | Some r => Some (decoded_key c r)
            | None => None
            end |}.
Proof.
  intros Hrep Hrcp Hprev Hsrc Hbal.
  unfold processBlockData, block_kind.
  rewrite Hrep, Hbal. cbn [bind negb].
  destruct (previousBlock b) as [hp|];
    [rewrite (truthy_length hp 63 (Hprev hp eq_refl));
     cbn [str]; rewrite (Hprev hp eq_refl)|];
    (destruct (sourceBlock b) as [hs|];
     [rewrite (truthy_length hs 63 (Hsrc hs eq_refl));
      cbn [str]; rewrite (Hsrc hs eq_refl)|]);
    (destruct (recipient b) as [r|];
     [destruct (Hrcp r eq_refl) as [k Hk];
      rewrite (truthy_decodes _ _ _ Hk), (decoded_key_eq _ _ _ Hk);
      cbn [str present]; rewrite Hk|]);
    cbn; intros E; try discriminate; reflexivity.
Qed.

Lemma all_chars_app (p : ascii -> bool) (s1 s2 : string) :
  all_chars p (s1 ++ s2) = all_chars p s1 && all_chars p s2.
Proof.
  induction s1 as [|c s1 IH]; simpl; [reflexivity|].
  now rewrite IH, andb_assoc.
Qed.

Lemma hex_digit_char (d : N) :
  (d < 16)%N -> is_hex_char (BigInteger.digit_char d) = true.
Proof.
  intros H. rewrite <- (N2Nat.id d).
  assert (K : (N.to_nat d < 16)%nat) by lia. revert K.
  generalize (N.to_nat d) as k. intros k Hk.
  do 16 (destruct k as [|k]; [reflexivity|]). lia.
Qed.

Lemma toBase_hex_chars (n : N) :
  all_chars is_hex_char (BigInteger.toBase 16 n) = true.
Proof.
  induction n as [n IH] using (well_founded_induction N.lt_wf_0).
  destruct (N.eq_dec n 0) as [->|Hz]; [reflexivity|].
  rewrite toBase_step, all_chars_app by lia.
  rewrite IH by (apply N.div_lt; lia). simpl.
  rewrite hex_digit_char by (apply N.mod_lt; lia). reflexivity.
Qed.

Lemma zeros_hex_chars (k : nat) :
  all_chars is_hex_char (repeat_string "0" k) = true.
Proof. induction k; simpl; auto. Qed.

(** The encoded balance of a value below [2^128]: 32 hex characters. *)
Lemma encodeBalance_small (v : string) (n : N) :
  BigInteger.bigInt v 10 = Ok n -> (n < 2 ^ 128)%N ->
  exists hex, encodeBalance v = Ok hex /\ is_hex_string 32 hex = true.
Proof.
  intros Hn Hlt. pose proof (length_toString_hex n Hlt) as Hlen.
  assert (Hch : all_chars is_hex_char (BigInteger.toString n 16) = true).
  { unfold BigInteger.toString. destruct (n =? 0)%N; [reflexivity|].
    apply toBase_hex_chars. }
  unfold encodeBalance. rewrite Hn. cbn [bind].
  destruct (Nat.ltb_spec (String.length (BigInteger.toString n 16)) 32)
    as [Hl|Hl]; eexists; (split; [reflexivity|]);
    unfold is_hex_string; apply andb_true_iff; split.
  - apply Nat.eqb_eq. rewrite length_append, length_repeat_string. lia.
  - now rewrite all_chars_app, zeros_hex_chars.
  - apply Nat.eqb_eq. lia.
  - exact Hch.
Qed.

(** *** The Sign and Cache requests *)

Lemma bindM_pure {S A B : Type} (r : result A) (a : A) (k : A -> M S B)
    (s : S) :
  r = Ok a -> bindM (pure r) k s = k a s.
Proof. intros ->. reflexivity. Qed.

Lemma length_uint32_segments (segments : list Z) :
  length (flat_map uint32_be segments) = 4 * length segments.
Proof. induction segments as [|v l IH]; simpl in *; lia. Qed.

Lemma previous_step (b : BlockData) (buf w : list Z) (ptr k len : nat) :
  (forall h, previousBlock b = Some h -> is_hex_string 64 h = true) ->
  buf = w ++ Buf.alloc k -> ptr = length w -> 32 <= k -> 32 <= len ->
  (if truthy (previousBlock b)
   then Buf.write_hex buf (str (previousBlock b)) ptr len
   else Ok (32, buf))
  = Ok (32, (w ++ previous_field b) ++ Buf.alloc (k - 32))
  /\ length (previous_field b) = 32.
Proof.
  intros Hhex Hbuf Hptr Hk Hlen. unfold previous_field.
  destruct (previousBlock b) as [h|].
  - pose proof (Hhex h eq_refl) as Hh.
    assert (Hl : String.length h = 64).
    { apply andb_true_iff in Hh. now apply Nat.eqb_eq. }
    rewrite (truthy_length h 63 Hl). cbn [str].
    split; [|now apply (from_hex_length 32)].
    now apply (write_hex_frame buf w ptr k len 32).
  - cbn [truthy]. split; [|apply length_alloc].
    rewrite Hbuf. do 2 f_equal. now apply skip_frame.
Qed.

Lemma link_step (c : CoinConfig) (b : BlockData) (buf w : list Z)
    (ptr k len : nat) :
  (forall input, length (blake2b input 5) = 5) ->
  (forall h, sourceBlock b = Some h -> is_hex_string 64 h = true) ->
  (forall r, recipient b = Some r ->
     exists key, decodeAddress r (addressPrefixes c) = Ok (Some key)) ->
  buf = w ++ Buf.alloc k -> ptr = length w -> 32 <= k -> 32 <= len ->
  (if truthy (sourceBlock b)
   then Buf.write_hex buf (str (sourceBlock b)) ptr len
   else match match recipient b with
              | Some r => Some (decoded_key c r)
              | None => None
              end with
        | Some recipientPublicKey =>
            Ok (Buf.copy recipientPublicKey buf ptr)
        | None => Ok (32, buf)
        end)
  = Ok (32, (w ++ link_field c b) ++ Buf.alloc (k - 32))
  /\ length (link_field c b) = 32.
Proof.
  intros Hh Hhex Hrcp Hbuf Hptr Hk Hlen. unfold link_field.
  destruct (sourceBlock b) as [h|].
  - pose proof (Hhex h eq_refl) as Hx.
    assert (Hl : String.length h = 64).
    { apply andb_true_iff in Hx. now apply Nat.eqb_eq. }
    rewrite (truthy_length h 63 Hl). cbn [str].
    split; [|now apply (from_hex_length 32)].
    now apply (write_hex_frame buf w ptr k len 32).
  - cbn [truthy]. destruct (recipient b) as [r|].
    + destruct (Hrcp r eq_refl) as [key Hkey].
      rewrite (decoded_key_eq _ _ _ Hkey).
      pose proof (decodeAddress_key_length _ _ _ Hh Hkey) as Lk.
      split; [|exact Lk].
      rewrite (copy_frame key buf w ptr k Hbuf Hptr) by lia.
      now rewrite Lk.
    + split; [|apply length_alloc].
      rewrite Hbuf. do 2 f_equal. now apply skip_frame.
Qed.

Lemma alloc_zero (k : nat) : k = 0 -> Buf.alloc k = [].
Proof. now intros ->. Qed.

(** The side conditions of the steps: lengths of what was written. *)
Ltac frame_len :=
  repeat rewrite length_app;
  rewrite ?length_uint32_segments, ?length_alloc;
  repeat match goal with
         | H : length _ = _ |- _ => rewrite H
         end;
  cbn [length]; lia.

(** C1. For a valid block descriptor (one of the four shapes, the
    representative and a supplied recipient decode, supplied hashes are
    64 hex characters, the balance is a decimal numeral below [2^128])
    and a path of at most 255 segments, [signBlock] sends one request
    whose payload is the path field (a length byte, then the segments as
    4-byte big-endian integers), the 32-byte previous field, the 32-byte
    link field, the 32-byte representative key and the 16-byte balance;
    [cacheBlock] sends the same payload followed by the 64 bytes of the
    signature. *)
Theorem block_request_payload (coin : CoinConfig) (path : string)
    (b : BlockData) (segments : list Z) (key : Buffer) (kind : BlockKind)
    (signature : string) (t : Transport) :
  (forall input, length (blake2b input 5) = 5) ->
  BIPPath_fromString path = Ok segments ->
  length segments <= 255 ->
  Forall is_uint32 segments ->
  block_kind b = Some kind ->
  decodeAddress (representative b) (addressPrefixes coin) = Ok (Some key) ->
  (forall r, recipient b = Some r ->
     exists k, decodeAddress r (addressPrefixes coin) = Ok (Some k)) ->
  (forall h, previousBlock b = Some h -> is_hex_string 64 h = true) ->
  (forall h, sourceBlock b = Some h -> is_hex_string 64 h = true) ->
  is_decimal_numeral (balance b) = true ->
  (numeral_value (balance b) < 2 ^ 128)%N ->
  is_hex_string 128 signature = true ->
  (length (path_field segments) = 1 + 4 * length segments
   /\ length (previous_field b) = 32
   /\ length (link_field coin b) = 32
   /\ length (representative_field coin b) = 32
   /\ length (balance_field b) = 16
   /\ length (Buf.from_hex signature) = 64)
  /\ (exists p2,
        exchanged (snd (signBlock coin path b t))
        = exchanged t
          ++ [{| cla := 0xa1; ins := 0x04; p1 := 0x00; p2 := p2;
                 data := sign_payload coin segments b |}])
  /\ exchanged (snd (cacheBlock coin path b signature t))
     = exchanged t
       ++ [{| cla := 0xa1; ins := 0x03; p1 := 0x00; p2 := 0x00;
              data := sign_payload coin segments b
                      ++ Buf.from_hex signature |}].
Proof.
  intros Hh Hpath Hcount Hsegs Hkind Hrep Hrcp Hprev Hsrc Hnum Hlt Hsig.
  pose proof (bigInt_numeral_value _ Hnum) as Hn.
  assert (Hproc := processBlockData_valid coin b key kind Hrep Hrcp).
  assert (Lh : forall h, is_hex_string 64 h = true -> String.length h = 64).
  { intros h H. apply andb_true_iff in H. now apply Nat.eqb_eq. }
  specialize (Hproc (fun h E => Lh h (Hprev h E))
                    (fun h E => Lh h (Hsrc h E))
                    (numeral_passes_test _ Hnum) Hkind).
  destruct (encodeBalance_small _ _ Hn Hlt) as (hex & Hhex & Hhexs).
  pose proof (decodeAddress_key_length _ _ _ Hh Hrep) as Lkey.
  pose proof (from_hex_length 16 hex Hhexs) as Lbal.
  pose proof (from_hex_length 64 signature Hsig) as Lsig.
  assert (Lsiglen : String.length signature = 128).
  { apply andb_true_iff in Hsig. now apply Nat.eqb_eq. }
  assert (Lpath : length (path_field segments) = 1 + 4 * length segments).
  { unfold path_field. cbn [length]. now rewrite length_uint32_segments. }
  assert (Erep : representative_field coin b = key)
    by (now apply decoded_key_eq).
  assert (Ebal : balance_field b = Buf.from_hex hex)
    by (unfold balance_field; now rewrite Hhex).
  destruct (previous_step b (Buf.alloc 32) [] 0 32 32 Hprev eq_refl eq_refl
              (le_n _) (le_n _)) as [_ Lprev].
  destruct (link_step coin b (Buf.alloc 32) [] 0 32 32 Hh Hsrc Hrcp eq_refl eq_refl
              (le_n _) (le_n _)) as [_ Llink].
  assert (Epay : forall tail,
            (((((([] ++ [Z.of_nat (length segments)])
                  ++ flat_map uint32_be segments)
                 ++ previous_field b) ++ link_field coin b) ++ key)
              ++ Buf.from_hex hex) ++ tail
            = sign_payload coin segments b ++ tail).
  { intros tail. unfold sign_payload, path_field.
    rewrite Erep, Ebal, <- !app_assoc. reflexivity. }
  split.
  { rewrite Erep, Ebal. repeat split; assumption. }
  split.
  - eexists. unfold signBlock. cbv zeta.
    rewrite (bindM_pure _ _ _ _ Hproc). cbv beta.
    cbn [representativePublicKey recipientPublicKey].
    rewrite (bindM_pure _ _ _ _ Hpath). cbv beta.
    erewrite bindM_pure
      by (eapply (writeUInt8_frame _ []); [reflexivity|reflexivity|lia|lia]).
    cbv beta.
    erewrite bindM_pure
      by (eapply segments_frame; [assumption|reflexivity|lia]).
    cbv beta iota.
    erewrite bindM_pure
      by (eapply proj1, previous_step;
          [exact Hprev|reflexivity|frame_len|lia|frame_len]).
    cbv beta iota.
    erewrite bindM_pure
      by (eapply proj1, link_step;
          [exact Hh|exact Hsrc|exact Hrcp|reflexivity|frame_len|lia
          |frame_len]).
    cbv beta iota.
    erewrite copy_frame by (first [reflexivity|frame_len]).
    rewrite Lkey. cbv beta iota.
    rewrite (bindM_pure _ _ _ _ Hhex). cbv beta.
    erewrite bindM_pure
      by (eapply (write_hex_frame _ _ _ _ _ 16);
          [reflexivity|frame_len|exact Hhexs|lia|frame_len]).
    cbv beta iota.
    match goal with
    | |- context [Buf.alloc ?K] => rewrite (alloc_zero K) by lia
    end.
    rewrite Epay, app_nil_r.
    unfold bindM, send. destruct (device t _ _); reflexivity.
  - unfold cacheBlock. cbv zeta.
    rewrite (bindM_pure _ _ _ _ Hproc). cbv beta.
    cbn [representativePublicKey recipientPublicKey].
    rewrite Lsiglen. change (128 =? 128) with true. cbn [negb]. cbv iota.
    rewrite (bindM_pure _ _ _ _ Hpath). cbv beta.
    erewrite bindM_pure
      by (eapply (writeUInt8_frame _ []); [reflexivity|reflexivity|lia|lia]).
    cbv beta.
    erewrite bindM_pure
      by (eapply segments_frame; [assumption|reflexivity|lia]).
    cbv beta iota.
    erewrite bindM_pure
      by (eapply proj1, previous_step;
          [exact Hprev|reflexivity|frame_len|lia|frame_len]).
    cbv beta iota.
    erewrite bindM_pure
      by (eapply proj1, link_step;
          [exact Hh|exact Hsrc|exact Hrcp|reflexivity|frame_len|lia
          |frame_len]).
    cbv beta iota.
    erewrite copy_frame by (first [reflexivity|frame_len]).
    rewrite Lkey. cbv beta iota.
    rewrite (bindM_pure _ _ _ _ Hhex). cbv beta.
    erewrite bindM_pure
      by (eapply (write_hex_frame _ _ _ _ _ 16);
          [reflexivity|frame_len|exact Hhexs|lia|frame_len]).
    cbv beta iota.
    erewrite bindM_pure
      by (eapply (write_hex_frame _ _ _ _ _ 64);
          [reflexivity|frame_len|exact Hsig|lia|frame_len]).
    cbv beta iota.
    match goal with
    | |- context [Buf.alloc ?K] => rewrite (alloc_zero K) by lia
    end.
    rewrite app_nil_r, Epay.
    unfold bindM, send. destruct (device t _ _); reflexivity.
Qed.

(** C6, as the code has it. For a signature whose length is not 128
    characters and a descriptor the classifier accepts, [cacheBlock]
    throws the signature validation error and hands nothing to the
    transport.  The characters of the signature are not examined. *)
Theorem cacheBlock_signature_length (coin : CoinConfig) (path : string)
    (b : BlockData) (keys : BlockKeys) (signature : string)
    (t : Transport) :
  processBlockData coin b = Ok keys ->
  String.length signature <> 128 ->
  cacheBlock coin path b signature t
  = (Throw (Error "`signature` must be a 128 character hex string"), t).
Proof.
  intros Hproc Hlen. unfold cacheBlock. cbv zeta.
  rewrite (bindM_pure _ _ _ _ Hproc).
  destruct (Nat.eqb_spec (String.length signature) 128); [contradiction|].
  reflexivity.
Qed.

(** *** The app-info response and the session *)

Lemma slice_name (len : nat) (a b c d : Z) (rest : list Z) :
  Buf.slice (a :: b :: c :: d :: rest)
    (S (S (S (S len))) - len) (S (S (S (S len))))
  = firstn len rest.
Proof.
  unfold Buf.slice. replace (S (S (S (S len))) - len) with 4 by lia.
  reflexivity.
Qed.

(** What [getAppConfiguration] makes of a response of three bytes or
    more. *)
Lemma getAppConfiguration_parse (coin : CoinConfig) (t : Transport)
    (major minor patch : Z) (tail : list Z) :
  device t (exchanged t) app_info_command
  = Ok (major :: minor :: patch :: tail) ->
  getAppConfiguration coin t
  = (Ok {| version := (Number_toString major ++ "."
                       ++ Number_toString minor ++ "."
                       ++ Number_toString patch)%string;
           appCoinName :=
             match tail with
             | [] =>
                 if ((major =? 1) && (minor =? 0) && (patch =? 0))%Z
                 then "Nano" else EmptyString
             | len :: rest =>
                 Buf.toString_ascii (firstn (Z.to_nat len) rest)
             end |},
     {| device := device t;
        exchanged := exchanged t ++ [app_info_command];
        scrambleKey := scrambleKey t |}).
Proof.
  intros Hdev. unfold getAppConfiguration, bindM, send. cbv zeta.
  change {| cla := 161; ins := 1; p1 := 0; p2 := 0; data := Buf.alloc 0 |}
    with app_info_command.
  rewrite Hdev. cbn [pure Buf.readUInt8 nth_error Nat.add].
  destruct tail as [|len rest].
  - cbn. destruct ((major =? 1) && (minor =? 0) && (patch =? 0))%Z;
      reflexivity.
  - cbn [length Nat.ltb Nat.leb nth_error ret].
    cbn [Buf.readUInt8 nth_error].
    rewrite (slice_name (Z.to_nat len) major minor patch len rest).
    reflexivity.
Qed.

Lemma toString_ascii_codes (bytes : list Z) :
  Forall (fun v => (0 <= v < 128)%Z) bytes ->
  map (fun ch => Z.of_N (N_of_ascii ch))
    (list_ascii_of_string (Buf.toString_ascii bytes))
  = bytes.
Proof.
  induction 1 as [|v bytes Hv _ IH]; [reflexivity|].
  cbn [Buf.toString_ascii list_ascii_of_string map]. rewrite IH. f_equal.
  change 127%Z with (Z.ones 7). rewrite Z.land_ones by lia.
  rewrite Z.mod_small by (change (2 ^ 7)%Z with 128%Z; lia).
  rewrite N_ascii_embedding by lia. lia.
Qed.

Lemma length_toString_ascii (bytes : list Z) :
  String.length (Buf.toString_ascii bytes) = length bytes.
Proof. induction bytes; simpl; congruence. Qed.

(** C8. The response to the app-info command is read as three version
    bytes; when more bytes follow, the first of them is the length of
    the coin name and the name is that many of the bytes after it, read
    as ASCII; when nothing follows and the version is 1.0.0 the name is
    ["Nano"]. *)
Theorem getAppConfiguration_response (coin : CoinConfig) (t : Transport)
    (major minor patch : Z) (tail : list Z) :
  device t (exchanged t) app_info_command
  = Ok (major :: minor :: patch :: tail) ->
  exists name,
    fst (getAppConfiguration coin t)
    = Ok {| version := (Number_toString major ++ "."
                        ++ Number_toString minor ++ "."
                        ++ Number_toString patch)%string;
            appCoinName := name |}
    /\ (forall len bytes rest,
          tail = len :: bytes ++ rest ->
          length bytes = Z.to_nat len ->
          name = Buf.toString_ascii bytes
          /\ String.length name = Z.to_nat len
          /\ (Forall (fun v => (0 <= v < 128)%Z) bytes ->
              map (fun ch => Z.of_N (N_of_ascii ch))
                (list_ascii_of_string name) = bytes))
    /\ (tail = [] -> major = 1%Z -> minor = 0%Z -> patch = 0%Z ->
        name = "Nano").
Proof.
  intros Hdev. rewrite (getAppConfiguration_parse _ _ _ _ _ _ Hdev).
  eexists. split; [reflexivity|]. split.
  - intros len bytes rest -> Hlen.
    rewrite <- Hlen, firstn_app, Nat.sub_diag, firstn_all, firstn_O,
      app_nil_r.
    split; [reflexivity|]. split; [apply length_toString_ascii|].
    apply toString_ascii_codes.
  - intros -> -> -> ->. reflexivity.
Qed.

Lemma assertCorrectCoin_state (this : BaseAPI) :
  _assertCorrectCoin this = (fst (_assertCorrectCoin this), this).
Proof.
  unfold _assertCorrectCoin. destruct (_appCoin this) as [appCoin|];
    [destruct (negb _)|]; reflexivity.
Qed.

Lemma on_transport_identity {A : Type} (m : M Transport A)
    (this : BaseAPI) :
  _appCoin (snd (on_transport m this)) = _appCoin this
  /\ coin (snd (on_transport m this)) = coin this.
Proof.
  unfold on_transport. destruct (m (transport this)). split; reflexivity.
Qed.

Lemma guarded_identity {A : Type} (m : M Transport A) (this : BaseAPI) :
  let after := snd ((_ <- _assertCorrectCoin ;; on_transport m)%async this) in
  _appCoin after = _appCoin this /\ coin after = coin this.
Proof.
  unfold bindM. rewrite assertCorrectCoin_state.
  destruct (fst (_assertCorrectCoin this)); cbn [snd];
    [apply on_transport_identity|split; reflexivity].
Qed.

Lemma bindM_snd_ret {S A : Type} (m : M S A) (s : S) :
  snd ((_ <- m ;; ret tt)%async s) = snd (m s).
Proof. unfold bindM. destruct (m s) as [[a|e] s']; reflexivity. Qed.

(** Only the app-info query touches the recorded identity. *)
Lemma run_call_identity (c : call) (this : BaseAPI) :
  is_app_query c = false ->
  _appCoin (snd (run_call c this)) = _appCoin this
  /\ coin (snd (run_call c this)) = coin this.
Proof.
  destruct c; intros Hq; try discriminate; cbn [run_call];
    rewrite ?bindM_snd_ret; apply guarded_identity.
Qed.

Lemma run_calls_identity (calls : list call) :
  forallb (fun c => negb (is_app_query c)) calls = true ->
  forall this,
    _appCoin (run_calls calls this) = _appCoin this
    /\ coin (run_calls calls this) = coin this.
Proof.
  induction calls as [|c calls IH]; intros Hq this; [split; reflexivity|].
  cbn [forallb] in Hq. apply andb_true_iff in Hq. destruct Hq as [Hc Hq].
  apply negb_true_iff in Hc.
  destruct (run_call_identity c this Hc) as [E1 E2].
  destruct (IH Hq (snd (run_call c this))) as [E3 E4].
  unfold run_calls in *. cbn [fold_left].
  rewrite E3, E4. split; assumption.
Qed.

(** A call that is not the app-info query and finds the wrong
    application recorded: the error, nothing sent, nothing changed. *)
Lemma run_call_blocked (c : call) (this : BaseAPI) (e : exn) :
  is_app_query c = false ->
  _assertCorrectCoin this = (Throw e, this) ->
  run_call c this = (Throw e, this).
Proof.
  destruct c; intros Hq Ha; try discriminate; cbn [run_call];
    unfold Banano_getAddress, Banano_signBlock, Banano_cacheBlock, bindM;
    rewrite Ha; reflexivity.
Qed.

(** C7. Before any app-info query [_assertCorrectCoin] succeeds and
    changes nothing.  A query that the device answers with a version
    and a length-prefixed coin name records that very name: right after
    it [_assertCorrectCoin] succeeds when the name the device gave is
    that of the configured coin and throws the wrong-app error naming
    both otherwise; the same holds of whatever name a successful query
    returned.  In general [_assertCorrectCoin] throws exactly when an
    identity is recorded and differs from the configured name. *)
Theorem assertCorrectCoin_spec :
  (forall (t : Transport) (c : CoinConfig) (calls : list call),
      forallb (fun x => negb (is_app_query x)) calls = true ->
      let this := run_calls calls (BaseAPI_constructor t c) in
      _appCoin this = None
      /\ _assertCorrectCoin this = (Ok tt, this))
  /\ (forall (this : BaseAPI) (major minor patch len : Z)
             (bytes rest : Buffer),
         device (transport this) (exchanged (transport this))
           app_info_command
         = Ok (major :: minor :: patch :: len :: bytes ++ rest) ->
         length bytes = Z.to_nat len ->
         let name := Buf.toString_ascii bytes in
         let this' := snd (BaseAPI_getAppConfiguration this) in
         (exists conf,
             fst (BaseAPI_getAppConfiguration this) = Ok conf
             /\ appCoinName conf = name)
         /\ _appCoin this' = Some name
         /\ coin this' = coin this
         /\ (name = coinName (coin this) ->
             _assertCorrectCoin this' = (Ok tt, this'))
         /\ (name <> coinName (coin this) ->
             _assertCorrectCoin this'
             = (Throw (wrong_app (coinName (coin this)) name), this')))
  /\ (forall (this this' : BaseAPI) (conf : AppConfiguration),
         BaseAPI_getAppConfiguration this = (Ok conf, this') ->
         _appCoin this' = Some (appCoinName conf)
         /\ _assertCorrectCoin this'
            = if String.eqb (appCoinName conf) (coinName (coin this))
              then (Ok tt, this')
              else (Throw (wrong_app (coinName (coin this))
                             (appCoinName conf)), this'))
  /\ (forall this : BaseAPI,
         (exists e, _assertCorrectCoin this = (Throw e, this))
         <-> (exists appCoin,
                 _appCoin this = Some appCoin
                 /\ appCoin <> coinName (coin this))).
Proof.
  split; [|split; [|split]].
  - intros t c calls Hq this.
    destruct (run_calls_identity calls Hq (BaseAPI_constructor t c))
      as [E _].
    unfold _assertCorrectCoin. fold this in E. rewrite E.
    split; reflexivity.
  - intros this major minor patch len bytes rest Hdev Hlen name this'.
    subst name this'.
    unfold BaseAPI_getAppConfiguration, bindM, on_transport.
    rewrite (getAppConfiguration_parse (coin this) (transport this)
               _ _ _ _ Hdev).
    rewrite <- Hlen, firstn_app, Nat.sub_diag, firstn_all, firstn_O,
      app_nil_r.
    cbn [fst snd appCoinName _appCoin coin].
    split; [eexists; split; reflexivity|].
    split; [reflexivity|]. split; [reflexivity|].
    unfold _assertCorrectCoin. cbn [_appCoin coin].
    destruct (String.eqb_spec (Buf.toString_ascii bytes)
                (coinName (coin this))) as [E|N]; cbn [negb]; split;
      intros H; try reflexivity; contradiction.
  - intros this this' conf H.
    unfold BaseAPI_getAppConfiguration, bindM, on_transport in H.
    destruct (getAppConfiguration (coin this) (transport this))
      as [[conf'|e] t']; [|discriminate].
    injection H as <- <-. split; [reflexivity|].
    unfold _assertCorrectCoin. cbn.
    destruct (String.eqb _ _); reflexivity.
  - intros this. unfold _assertCorrectCoin.
    destruct (_appCoin this) as [appCoin|].
    + destruct (String.eqb_spec appCoin (coinName (coin this))) as [E|N];
        cbn [negb]; split.
      * intros [e H]. discriminate.
      * intros [a [[= <-] H]]. contradiction.
      * intros _. now exists appCoin.
      * intros _. eexists. reflexivity.
    + split; [intros [e H]; discriminate|intros [a [H _]]; discriminate].
Qed.


(** *** Where [decodeAddress] does return null *)

Lemma starts_with_class_length (p : ascii -> bool) (n : nat) (s : string) :
  starts_with_class p n s = true -> n <= String.length s.
Proof.
  revert s. induction n as [|n IH]; intros s H; [lia|].
  destruct s as [|c s]; [discriminate|]. simpl in H.
  apply andb_true_iff in H. destruct H as [_ H].
  apply IH in H. simpl. lia.
Qed.

Lemma test_anywhere_length (here : string -> bool) (n : nat) :
  (forall s, here s = true -> n <= String.length s) ->
  forall s, test_anywhere here s = true -> n <= String.length s.
Proof.
  intros Hhere s. induction s as [|c s IH]; simpl; intros H.
  - rewrite orb_false_r in H. now apply (Hhere EmptyString).
  - apply orb_true_iff in H. destruct H as [H|H].
    + now apply (Hhere (String c s)).
    + apply IH in H. lia.
Qed.

(** A remainder shorter than 60 characters is rejected. *)
Lemma decodeAddress_short (a : string) (ps : list string) :
  String.length (strip_prefix a ps) < 60 -> decodeAddress a ps = Ok None.
Proof.
  intros Hlen. unfold decodeAddress.
  destruct (address_pattern_test (strip_prefix a ps)) eqn:E; [|reflexivity].
  apply (test_anywhere_length _ 60) in E; [lia|].
  intros [|c s] H; [discriminate|].
  apply andb_true_iff in H. destruct H as [_ H].
  apply starts_with_class_length in H. simpl. lia.
Qed.

(** When the base-32 decoder returns, a checksum that is not the
    reversed hash of the key is rejected. *)
Lemma decodeAddress_checksum (a : string) (ps : list string)
    (bytes : Buffer) :
  nanoBase32_decode (strip_prefix a ps) = Ok bytes ->
  skipn 32 bytes <> rev (blake2b (firstn 32 bytes) 5) ->
  decodeAddress a ps = Ok None.
Proof.
  intros Hdec Hsum. unfold decodeAddress. rewrite Hdec.
  destruct (address_pattern_test _); [|reflexivity]. cbn [negb bind].
  destruct (Nat.eqb_spec (length (skipn 32 bytes))
              (length (rev (blake2b (firstn 32 bytes) 5)))) as [E|];
    [|reflexivity].
  cbn [negb].
  destruct (checksum_matches _ _) eqn:M; [|reflexivity].
  exfalso. apply Hsum. revert E M.
  generalize (rev (blake2b (firstn 32 bytes) 5)) as ys.
  generalize (skipn 32 bytes) as xs.
  induction xs as [|x xs IH]; intros [|y ys] E M; try discriminate;
    [reflexivity|].
  cbn in E, M. apply andb_true_iff in M. destruct M as [Hxy M].
  apply Z.eqb_eq in Hxy. subst y. f_equal. apply IH; [lia|exact M].
Qed.

(** The numeral test of the classifier looks for one digit, anywhere. *)
Lemma balance_pattern_test_digit (before after : string) (c : ascii) :
  is_digit c = true ->
  balance_pattern_test (before ++ String c after) = true.
Proof.
  intros Hc. unfold balance_pattern_test.
  induction before as [|d before IH]; simpl.
  - unfold is_digit in Hc. now rewrite Hc.
  - fold (before ++ String c after)%string. rewrite IH. apply orb_true_r.
Qed.

(** The classifier looks at the balance through that test only: a
    descriptor it accepts stays accepted, with the same keys, under any
    balance that holds a digit. *)
Lemma processBlockData_any_digit (c : CoinConfig) (b : BlockData)
    (keys : BlockKeys) (before after : string) (digit : ascii) :
  is_digit digit = true ->
  processBlockData c b = Ok keys ->
  processBlockData c (with_balance b (before ++ String digit after)) = Ok keys.
Proof.
  intros Hd H. unfold processBlockData in *. cbn [with_balance previousBlock
    representative balance sourceBlock recipient].
  rewrite (balance_pattern_test_digit before after digit Hd).
  destruct (truthy (previousBlock b)
            && negb (String.length (str (previousBlock b)) =? 64));
    [discriminate|].
  destruct (decodeAddress (representative b) (addressPrefixes c))
    as [[key|]|e]; cbn [bind] in *; try discriminate.
  destruct (balance_pattern_test (balance b)); cbn [negb] in *;
    [exact H|discriminate].
Qed.

(** ** Further properties of the code *)

(** *** Hex strings and buffers *)

Lemma hex_bytes_firstn (m : nat) :
  forall s n,
    all_chars is_hex_char s = true ->
    String.length s = 2 * m \/ String.length s = 2 * m + 1 ->
    Buf.hex_bytes n s = firstn n (Buf.hex_bytes m s)
    /\ length (Buf.hex_bytes m s) = m.
Proof.
  induction m as [|m IH]; intros s n Hs Hlen.
  - destruct s as [|a [|b s]]; cbn [String.length] in Hlen; try lia;
      destruct n; split; reflexivity.
  - destruct s as [|a [|b s]]; cbn [String.length] in Hlen; try lia.
    cbn [all_chars] in Hs. apply andb_true_iff in Hs. destruct Hs as [Ha Hs].
    apply andb_true_iff in Hs. destruct Hs as [Hb Hs].
    unfold is_hex_char in Ha, Hb.
    destruct n as [|n]; cbn [Buf.hex_bytes];
      destruct (Buf.hex_value a); try discriminate;
      destruct (Buf.hex_value b); try discriminate.
    + split; [reflexivity|]. cbn [length]. f_equal. apply (IH s 0 Hs). lia.
    + destruct (IH s n Hs) as [E L]; [lia|].
      rewrite E. cbn [firstn length]. split; [reflexivity|now rewrite L].
Qed.

Lemma half_cases (n : nat) : n = 2 * (n / 2) \/ n = 2 * (n / 2) + 1.
Proof.
  pose proof (Nat.div_mod_eq n 2) as E.
  pose proof (Nat.mod_upper_bound n 2) as B. lia.
Qed.

(** Decoding at most [n] bytes is cutting the whole decoding at [n]. *)
Lemma hex_bytes_from_hex (s : string) (n : nat) :
  all_chars is_hex_char s = true ->
  Buf.hex_bytes n s = firstn n (Buf.from_hex s)
  /\ length (Buf.from_hex s) = String.length s / 2.
Proof.
  intros Hs. unfold Buf.from_hex.
  apply hex_bytes_firstn; [exact Hs|apply half_cases].
Qed.

Lemma write_hex_any (buf w : list Z) (ptr k len : nat) (s : string) :
  buf = w ++ Buf.alloc k -> ptr = length w ->
  all_chars is_hex_char s = true -> k <= len ->
  Buf.write_hex buf s ptr len
  = Ok (length (firstn k (Buf.from_hex s)),
        (w ++ firstn k (Buf.from_hex s))
          ++ Buf.alloc (k - length (firstn k (Buf.from_hex s)))).
Proof.
  intros -> -> Hs Hlen. unfold Buf.write_hex.
  rewrite length_app, length_alloc.
  destruct (Nat.ltb_spec (length w + k) (length w)); [lia|].
  rewrite andb_false_r.
  replace (length w + k - length w) with k by lia.
  replace (Nat.min len k) with k by lia.
  rewrite (proj1 (hex_bytes_from_hex s k Hs)).
  rewrite blit_frame by apply firstn_le_length. reflexivity.
Qed.

Lemma hex_value_hex_digit (v : Z) :
  (0 <= v < 16)%Z -> Buf.hex_value (Buf.hex_digit v) = Some v.
Proof.
  intros H. rewrite <- (Z2Nat.id v) by lia.
  assert (K : Z.to_nat v < 16) by lia. revert K.
  generalize (Z.to_nat v) as k. intros k Hk.
  do 16 (destruct k as [|k]; [reflexivity|]). lia.
Qed.

(** [buf.toString("hex")] and back. *)
Lemma from_hex_toString_hex (bytes : Buffer) :
  is_byte_buffer bytes ->
  Buf.from_hex (Buf.toString_hex bytes) = bytes
  /\ is_hex_string (2 * length bytes) (Buf.toString_hex bytes) = true.
Proof.
  intros Hb.
  assert (G : forall n,
             length bytes <= n ->
             Buf.hex_bytes n (Buf.toString_hex bytes) = bytes
             /\ String.length (Buf.toString_hex bytes) = 2 * length bytes
             /\ all_chars is_hex_char (Buf.toString_hex bytes) = true).
  { induction Hb as [|v bytes Hv _ IH]; intros n Hn.
    - destruct n; repeat split.
    - cbn [length] in Hn. destruct n as [|n]; [lia|].
      destruct (IH n) as (E & L & C); [lia|].
      assert (Hhi : (0 <= Z.shiftr v 4 < 16)%Z).
      { rewrite Z.shiftr_div_pow2 by lia. change (2 ^ 4)%Z with 16%Z.
        split; [apply Z.div_pos; lia|apply Z.div_lt_upper_bound; lia]. }
      assert (Hlo : (0 <= Z.land v 15 < 16)%Z).
      { change 15%Z with (Z.ones 4). rewrite Z.land_ones by lia.
        apply Z.mod_pos_bound. reflexivity. }
      assert (Chi : is_hex_char (Buf.hex_digit (Z.shiftr v 4)) = true)
        by (unfold is_hex_char; now rewrite (hex_value_hex_digit _ Hhi)).
      assert (Clo : is_hex_char (Buf.hex_digit (Z.land v 15)) = true)
        by (unfold is_hex_char; now rewrite (hex_value_hex_digit _ Hlo)).
      cbn [Buf.toString_hex Buf.hex_bytes String.length all_chars length].
      rewrite (hex_value_hex_digit _ Hhi), (hex_value_hex_digit _ Hlo).
      rewrite E, L, C, Chi, Clo. repeat split; [|lia].
      f_equal. rewrite Z.shiftr_div_pow2 by lia.
      change 15%Z with (Z.ones 4). rewrite Z.land_ones by lia.
      change (2 ^ 4)%Z with 16%Z. pose proof (Z.div_mod v 16). lia. }
  destruct (G (length bytes) (le_n _)) as (E & L & C).
  unfold Buf.from_hex, is_hex_string. rewrite L, C, Nat.eqb_refl.
  replace (2 * length bytes / 2) with (length bytes)
    by (apply Nat.div_unique_exact; lia).
  split; [exact E|reflexivity].
Qed.

(** *** The encoded balance of any numeral *)

Lemma toString_hex_chars (n : N) :
  all_chars is_hex_char (BigInteger.toString n 16) = true.
Proof.
  unfold BigInteger.toString. destruct (n =? 0)%N; [reflexivity|].
  apply toBase_hex_chars.
Qed.

Lemma encodeBalance_numeral (v : string) :
  is_decimal_numeral v = true ->
  exists hex,
    encodeBalance v = Ok hex
    /\ all_chars is_hex_char hex = true
    /\ 32 <= String.length hex
    /\ BigInteger.bigInt hex 16 = Ok (numeral_value v).
Proof.
  intros Hv. unfold encodeBalance.
  rewrite (bigInt_numeral_value v Hv). cbn [bind].
  set (h := BigInteger.toString (numeral_value v) 16).
  destruct (Nat.ltb_spec (String.length h) 32) as [Hl|Hl]; eexists;
    (split; [reflexivity|]).
  - rewrite all_chars_app, zeros_hex_chars, length_append,
      length_repeat_string.
    split; [apply toString_hex_chars|]. split; [lia|].
    unfold BigInteger.bigInt. rewrite parseBase_zeros by lia.
    apply (bigInt_toString _ 16). lia.
  - split; [apply toString_hex_chars|]. split; [exact Hl|].
    apply (bigInt_toString _ 16). lia.
Qed.

(** *** Requests, in full *)

Lemma segments_frame_index (segments : list Z) :
  Forall is_uint32 segments ->
  forall (w : list Z) (k index : nat),
    length w = 1 + 4 * index -> 4 * length segments <= k ->
    forEach segments
      (fun segment '(buf, index) =>
         (buf <- Buf.writeUInt32BE buf segment (1 + 4 * index) ;;
          Ok (buf, S index))%js)
      (w ++ Buf.alloc k, index)
    = Ok ((w ++ flat_map uint32_be segments)
            ++ Buf.alloc (k - 4 * length segments),
          index + length segments).
Proof.
  induction 1 as [|v segments Hv _ IH]; intros w k index Hw Hk.
  - simpl. rewrite app_nil_r, Nat.sub_0_r, Nat.add_0_r. reflexivity.
  - cbn [forEach length] in *.
    rewrite (writeUInt32BE_frame _ w (1 + 4 * index) k v eq_refl
               (eq_sym Hw) Hv) by lia.
    cbn [bind]. rewrite IH.
    + replace (k - 4 - 4 * length segments)
        with (k - 4 * S (length segments)) by lia.
      replace (S index + length segments)
        with (index + S (length segments)) by lia.
      cbn [flat_map]. now rewrite <- !app_assoc.
    + rewrite length_app. cbn [uint32_be length]. lia.
    + lia.
Qed.

(** [getAddress] is one exchange of the path field, then the parsing of
    the response. *)
Lemma getAddress_run (coin : CoinConfig) (path : string)
    (boolDisplay : bool) (segments : list Z) (t : Transport) :
  BIPPath_fromString path = Ok segments ->
  length segments <= 255 ->
  Forall is_uint32 segments ->
  getAddress coin path boolDisplay t
  = (buf <- send 0xa1 0x02 (if boolDisplay then 0x01 else 0x00) 0x00
              (path_field segments) ;;
     addressLength <- pure (Buf.readUInt8 buf 32) ;;
     ret {| publicKey := Buf.toString_hex (Buf.slice buf 0 32);
            address :=
              Buf.toString_ascii
                (Buf.slice buf (33 + Z.to_nat addressLength
                                - Z.to_nat addressLength)
                   (33 + Z.to_nat addressLength)) |})%async t.
Proof.
  intros Hpath Hcount Hsegs. unfold getAddress. cbv zeta.
  rewrite (bindM_pure _ _ _ _ Hpath). cbv beta.
  erewrite bindM_pure
    by (eapply (writeUInt8_frame _ []); [reflexivity|reflexivity|lia|lia]).
  cbv beta.
  erewrite bindM_pure
    by (eapply (segments_frame_index segments Hsegs _ _ 0);
        [reflexivity|lia]).
  cbv beta iota.
  match goal with
  | |- context [Buf.alloc ?K] => rewrite (alloc_zero K) by lia
  end.
  rewrite app_nil_r. reflexivity.
Qed.

Lemma sign_p2_code (coin : CoinConfig) (b : BlockData) :
  truthy (recipient b) = present (recipient b) ->
  (if negb (String.eqb (addressPrimaryPrefix coin)
              (addressSecondaryPrefix coin))
   then
     if startsWith (representative b) (addressSecondaryPrefix coin)
     then
       Z.lor
         (if truthy (recipient b)
             && startsWith (str (recipient b)) (addressSecondaryPrefix coin)
          then Z.lor 0 1 else 0%Z) 2
     else
       if truthy (recipient b)
          && startsWith (str (recipient b)) (addressSecondaryPrefix coin)
       then Z.lor 0 1 else 0%Z
   else 0%Z)
  = sign_p2 coin b.
Proof.
  intros Ht. unfold sign_p2. rewrite Ht.
  destruct (String.eqb _ _); [reflexivity|]. cbn [negb].
  destruct (recipient b) as [r|]; cbn [present str andb];
    [destruct (startsWith r _)|];
    destruct (startsWith (representative b) _); reflexivity.
Qed.

Lemma send_run (cla ins p1 p2 : Z) (buf : Buffer) (t : Transport) :
  send cla ins p1 p2 buf t
  = (device t (exchanged t)
       {| cla := cla; ins := ins; p1 := p1; p2 := p2; data := buf |},
     after_exchange t
       {| cla := cla; ins := ins; p1 := p1; p2 := p2; data := buf |}).
Proof. reflexivity. Qed.

Lemma is_hex_string_length (n : nat) (s : string) :
  is_hex_string n s = true -> String.length s = n.
Proof. intros H. apply andb_true_iff in H. now apply Nat.eqb_eq. Qed.

Lemma is_hex_string_chars (n : nat) (s : string) :
  is_hex_string n s = true -> all_chars is_hex_char s = true.
Proof. intros H. now apply andb_true_iff in H. Qed.

Lemma firstn_app_cut {A : Type} (n : nat) (l1 l2 : list A) :
  firstn n l1 ++ firstn (n - length (firstn n l1)) l2 = firstn n (l1 ++ l2).
Proof.
  rewrite firstn_app. f_equal.
  rewrite length_firstn.
  destruct (Nat.le_ge_cases n (length l1)) as [H|H].
  - rewrite Nat.min_l by lia.
    replace (n - n) with 0 by lia. replace (n - length l1) with 0 by lia.
    reflexivity.
  - rewrite Nat.min_r by lia. reflexivity.
Qed.

(** [signBlock] on a well-formed descriptor is one exchange of the Sign
    command, then the parsing of the response. *)
Lemma signBlock_run (coin : CoinConfig) (path : string) (b : BlockData)
    (segments : list Z) (t : Transport) :
  (forall input, length (blake2b input 5) = 5) ->
  well_formed_path path segments ->
  well_formed_block coin b ->
  signBlock coin path b t
  = match device t (exchanged t) (sign_command coin segments b) with
    | Ok response =>
        (Ok (signature_of_response response),
         after_exchange t (sign_command coin segments b))
    | Throw e => (Throw e, after_exchange t (sign_command coin segments b))
    end.
Proof.
  intros Hh (Hpath & Hcount & Hsegs)
    ((kind & Hkind) & (key & Hrep) & Hrcp & Hprev & Hsrc & Hnum).
  assert (Hproc := processBlockData_valid coin b key kind Hrep Hrcp).
  specialize (Hproc (fun h E => is_hex_string_length _ h (Hprev h E))
                    (fun h E => is_hex_string_length _ h (Hsrc h E))
                    (numeral_passes_test _ Hnum) Hkind).
  destruct (encodeBalance_numeral _ Hnum) as (hex & Hhex & Hhexs & Lhex & _).
  pose proof (decodeAddress_key_length _ _ _ Hh Hrep) as Lkey.
  pose proof (proj2 (hex_bytes_from_hex hex 16 Hhexs)) as Lbal.
  assert (Lbal16 : length (firstn 16 (Buf.from_hex hex)) = 16).
  { rewrite length_firstn, Lbal. apply Nat.min_l.
    apply (Nat.Div0.div_le_mono 32 _ 2) in Lhex. exact Lhex. }
  assert (Erep : representative_field coin b = key)
    by (now apply decoded_key_eq).
  assert (Ebal : balance_bytes b = Buf.from_hex hex)
    by (unfold balance_bytes; now rewrite Hhex).
  destruct (previous_step b (Buf.alloc 32) [] 0 32 32 Hprev eq_refl eq_refl
              (le_n _) (le_n _)) as [_ Lprev].
  destruct (link_step coin b (Buf.alloc 32) [] 0 32 32 Hh Hsrc Hrcp eq_refl
              eq_refl (le_n _) (le_n _)) as [_ Llink].
  assert (Ht : truthy (recipient b) = present (recipient b)).
  { destruct (recipient b) as [r|] eqn:Er; [|reflexivity].
    destruct (Hrcp r eq_refl) as (k & Hk).
    apply (truthy_decodes _ _ _ Hk). }
  unfold signBlock. cbv zeta.
  rewrite (sign_p2_code coin b Ht).
  rewrite (bindM_pure _ _ _ _ Hproc). cbv beta.
  cbn [representativePublicKey recipientPublicKey].
  rewrite (bindM_pure _ _ _ _ Hpath). cbv beta.
  erewrite bindM_pure
    by (eapply (writeUInt8_frame _ []); [reflexivity|reflexivity|lia|lia]).
  cbv beta.
  erewrite bindM_pure
    by (eapply segments_frame; [assumption|reflexivity|lia]).
  cbv beta iota.
  erewrite bindM_pure
    by (eapply proj1, previous_step;
        [exact Hprev|reflexivity|frame_len|lia|frame_len]).
  cbv beta iota.
  erewrite bindM_pure
    by (eapply proj1, link_step;
        [exact Hh|exact Hsrc|exact Hrcp|reflexivity|frame_len|lia
        |frame_len]).
  cbv beta iota.
  erewrite copy_frame by (first [reflexivity|frame_len]).
  rewrite Lkey. cbv beta iota.
  rewrite (bindM_pure _ _ _ _ Hhex). cbv beta.
  erewrite bindM_pure
    by (eapply write_hex_any;
        [reflexivity|frame_len|exact Hhexs|frame_len]).
  cbv beta iota.
  match goal with
  | |- context [firstn ?K (Buf.from_hex hex)] => replace K with 16 by lia
  end.
  rewrite Lbal16.
  match goal with
  | |- context [Buf.alloc ?K] => rewrite (alloc_zero K) by lia
  end.
  rewrite app_nil_r.
  unfold bindM. rewrite send_run.
  unfold sign_command, block_prefix, path_field.
  rewrite Erep, Ebal. cbn [app]. rewrite <- !app_assoc.
  destruct (device t _ _) as [response|e]; [|reflexivity].
  unfold ret, signature_of_response, Buf.slice.
  rewrite (firstn_skipn_comm 64 32 response). reflexivity.
Qed.

(** [cacheBlock] on a well-formed descriptor and a signature of 128 hex
    characters is one exchange of the Cache command. *)
Lemma cacheBlock_run (coin : CoinConfig) (path : string) (b : BlockData)
    (segments : list Z) (signature : string) (t : Transport) :
  (forall input, length (blake2b input 5) = 5) ->
  well_formed_path path segments ->
  well_formed_block coin b ->
  is_hex_string 128 signature = true ->
  cacheBlock coin path b signature t
  = match device t (exchanged t)
            (cache_command coin segments b signature) with
    | Ok _ =>
        (Ok tt, after_exchange t (cache_command coin segments b signature))
    | Throw e =>
        (Throw e,
         after_exchange t (cache_command coin segments b signature))
    end.
Proof.
  intros Hh (Hpath & Hcount & Hsegs)
    ((kind & Hkind) & (key & Hrep) & Hrcp & Hprev & Hsrc & Hnum) Hsig.
  assert (Hproc := processBlockData_valid coin b key kind Hrep Hrcp).
  specialize (Hproc (fun h E => is_hex_string_length _ h (Hprev h E))
                    (fun h E => is_hex_string_length _ h (Hsrc h E))
                    (numeral_passes_test _ Hnum) Hkind).
  destruct (encodeBalance_numeral _ Hnum) as (hex & Hhex & Hhexs & Lhex & _).
  pose proof (decodeAddress_key_length _ _ _ Hh Hrep) as Lkey.
  pose proof (is_hex_string_length _ _ Hsig) as Lsiglen.
  pose proof (is_hex_string_chars _ _ Hsig) as Hsigs.
  pose proof (proj2 (hex_bytes_from_hex hex 16 Hhexs)) as Lbal.
  pose proof (proj2 (hex_bytes_from_hex signature 16 Hsigs)) as Lsig.
  rewrite Lsiglen in Lsig. change (128 / 2) with 64 in Lsig.
  assert (Lbal16 : 16 <= length (Buf.from_hex hex)).
  { rewrite Lbal.
    apply (Nat.Div0.div_le_mono 32 _ 2) in Lhex. exact Lhex. }
  assert (Erep : representative_field coin b = key)
    by (now apply decoded_key_eq).
  assert (Ebal : balance_bytes b = Buf.from_hex hex)
    by (unfold balance_bytes; now rewrite Hhex).
  destruct (previous_step b (Buf.alloc 32) [] 0 32 32 Hprev eq_refl eq_refl
              (le_n _) (le_n _)) as [_ Lprev].
  destruct (link_step coin b (Buf.alloc 32) [] 0 32 32 Hh Hsrc Hrcp eq_refl
              eq_refl (le_n _) (le_n _)) as [_ Llink].
  unfold cacheBlock. cbv zeta.
  rewrite (bindM_pure _ _ _ _ Hproc). cbv beta.
  cbn [representativePublicKey recipientPublicKey].
  rewrite Lsiglen. change (128 =? 128) with true. cbn [negb]. cbv iota.
  rewrite (bindM_pure _ _ _ _ Hpath). cbv beta.
  erewrite bindM_pure
    by (eapply (writeUInt8_frame _ []); [reflexivity|reflexivity|lia|lia]).
  cbv beta.
  erewrite bindM_pure
    by (eapply segments_frame; [assumption|reflexivity|lia]).
  cbv beta iota.
  erewrite bindM_pure
    by (eapply proj1, previous_step;
        [exact Hprev|reflexivity|frame_len|lia|frame_len]).
  cbv beta iota.
  erewrite bindM_pure
    by (eapply proj1, link_step;
        [exact Hh|exact Hsrc|exact Hrcp|reflexivity|frame_len|lia
        |frame_len]).
  cbv beta iota.
  erewrite copy_frame by (first [reflexivity|frame_len]).
  rewrite Lkey. cbv beta iota.
  rewrite (bindM_pure _ _ _ _ Hhex). cbv beta.
  erewrite bindM_pure
    by (eapply write_hex_any;
        [reflexivity|frame_len|exact Hhexs|frame_len]).
  cbv beta iota.
  match goal with
  | |- context [firstn ?K (Buf.from_hex hex)] => replace K with 80 by lia
  end.
  set (bal := firstn 80 (Buf.from_hex hex)).
  assert (Lbal80 : length bal <= 80) by (apply firstn_le_length).
  erewrite bindM_pure
    by (eapply write_hex_any;
        [reflexivity|frame_len|exact Hsigs|frame_len]).
  cbv beta iota.
  match goal with
  | |- context [firstn ?K (Buf.from_hex signature)] =>
      replace K with (80 - length bal) by lia
  end.
  set (sig := firstn (80 - length bal) (Buf.from_hex signature)).
  assert (Lsig80 : length bal + length sig = 80).
  { subst sig bal. rewrite !length_firstn, Lsig. lia. }
  match goal with
  | |- context [Buf.alloc ?K] => rewrite (alloc_zero K) by lia
  end.
  rewrite app_nil_r.
  unfold bindM. rewrite send_run.
  unfold cache_command, block_prefix, path_field.
  rewrite Erep, Ebal, <- (firstn_app_cut 80). fold bal sig.
  cbn [app]. rewrite <- !app_assoc.
  destruct (device t _ _); reflexivity.
Qed.

Lemma slice_tail (buf : Buffer) (n len : nat) :
  Buf.slice buf (n + len - len) (n + len) = firstn len (skipn n buf).
Proof.
  unfold Buf.slice. replace (n + len - len) with n by lia.
  symmetry. apply firstn_skipn_comm.
Qed.

(** [getAddress] on a well-formed path is one exchange of the address
    command, then the parsing of the response. *)
Lemma getAddress_exchange (coin : CoinConfig) (path : string)
    (boolDisplay : bool) (segments : list Z) (t : Transport) :
  well_formed_path path segments ->
  getAddress coin path boolDisplay t
  = match device t (exchanged t) (address_command segments boolDisplay) with
    | Ok response =>
        (match Buf.readUInt8 response 32 with
         | Ok len =>
             Ok {| publicKey := Buf.toString_hex (firstn 32 response);
                   address :=
                     Buf.toString_ascii
                       (firstn (Z.to_nat len) (skipn 33 response)) |}
         | Throw e => Throw e
         end,
         after_exchange t (address_command segments boolDisplay))
    | Throw e =>
        (Throw e, after_exchange t (address_command segments boolDisplay))
    end.
Proof.
  intros (Hpath & Hcount & Hsegs).
  rewrite (getAddress_run coin path boolDisplay segments t Hpath Hcount Hsegs).
  unfold bindM. rewrite send_run. fold (address_command segments boolDisplay).
  destruct (device t _ _) as [response|e]; [|reflexivity].
  unfold pure. destruct (Buf.readUInt8 response 32) as [len|e];
    [|reflexivity].
  rewrite (slice_tail response 33 (Z.to_nat len)). reflexivity.
Qed.

Lemma length_Buf_toString_hex (bytes : Buffer) :
  String.length (Buf.toString_hex bytes) = 2 * length bytes.
Proof. induction bytes as [|v bytes IH]; cbn [Buf.toString_hex String.length length]; lia. Qed.

Lemma bindM_pure_throw {S A B : Type} (r : result A) (e : exn)
    (k : A -> M S B) (s : S) :
  r = Throw e -> bindM (pure r) k s = (Throw e, s).
Proof. intros ->. reflexivity. Qed.

Lemma writeUInt8_range (buf : Buffer) (v : Z) (offset : nat) :
  (255 < v)%Z -> Buf.writeUInt8 buf v offset = Throw RangeError.
Proof.
  intros H. unfold Buf.writeUInt8.
  replace (v <=? 255)%Z with false by (symmetry; apply Z.leb_gt; lia).
  now rewrite andb_false_r.
Qed.

Lemma writeUInt32BE_range (buf : Buffer) (v : Z) (offset : nat) :
  ~ is_uint32 v -> Buf.writeUInt32BE buf v offset = Throw RangeError.
Proof.
  intros H. unfold Buf.writeUInt32BE, is_uint32 in *.
  destruct (Z.leb_spec 0 v); destruct (Z.leb_spec v 4294967295);
    cbn [andb]; try reflexivity.
  exfalso. apply H. lia.
Qed.

Lemma writeUInt32BE_cases (buf : Buffer) (v : Z) (offset : nat) :
  (exists buf', Buf.writeUInt32BE buf v offset = Ok buf')
  \/ Buf.writeUInt32BE buf v offset = Throw RangeError.
Proof.
  unfold Buf.writeUInt32BE. destruct (_ && _); [left; eauto|now right].
Qed.

Lemma forEach_throws {A S : Type} (f : A -> S -> result S) (e : exn)
    (xs : list A) :
  (forall x s, (exists s', f x s = Ok s') \/ f x s = Throw e) ->
  Exists (fun x => forall s, f x s = Throw e) xs ->
  forall s, forEach xs f s = Throw e.
Proof.
  intros Hf. induction 1 as [x xs Hx|x xs _ IH]; intros s; cbn [forEach].
  - now rewrite Hx.
  - destruct (Hf x s) as [(s' & ->)| ->]; [apply IH|reflexivity].
Qed.

Lemma segments_range (segments : list Z) (buf : Buffer) (ptr : nat) :
  Exists (fun v => ~ is_uint32 v) segments ->
  forEach segments
    (fun segment '(buf, ptr) =>
       (buf <- Buf.writeUInt32BE buf segment ptr ;; Ok (buf, ptr + 4))%js)
    (buf, ptr)
  = Throw RangeError.
Proof.
  intros H. apply forEach_throws.
  - intros x [b p]. destruct (writeUInt32BE_cases b x p) as [(b' & ->)| ->];
      [left; eexists; reflexivity|now right].
  - eapply Exists_impl; [|exact H]. intros v Hv [b p].
    now rewrite (writeUInt32BE_range b v p Hv).
Qed.

Lemma segments_range_index (segments : list Z) (buf : Buffer) (index : nat) :
  Exists (fun v => ~ is_uint32 v) segments ->
  forEach segments
    (fun segment '(buf, index) =>
       (buf <- Buf.writeUInt32BE buf segment (1 + 4 * index) ;;
        Ok (buf, S index))%js)
    (buf, index)
  = Throw RangeError.
Proof.
  intros H. apply forEach_throws.
  - intros x [b p].
    destruct (writeUInt32BE_cases b x (1 + 4 * p)) as [(b' & ->)| ->];
      [left; eexists; reflexivity|now right].
  - eapply Exists_impl; [|exact H]. intros v Hv [b p].
    now rewrite (writeUInt32BE_range b v _ Hv).
Qed.

Lemma firstn_app_exact {A : Type} (l1 l2 : list A) (n : nat) :
  length l1 = n -> firstn n (l1 ++ l2) = l1.
Proof.
  intros <-. rewrite firstn_app, firstn_all, Nat.sub_diag.
  cbn [firstn]. apply app_nil_r.
Qed.

Lemma skipn_app_exact {A : Type} (l1 l2 : list A) (n : nat) :
  length l1 = n -> skipn n (l1 ++ l2) = l2.
Proof.
  intros <-. rewrite skipn_app, skipn_all, Nat.sub_diag. reflexivity.
Qed.

Lemma is_byte_buffer_firstn (n : nat) (bytes : Buffer) :
  is_byte_buffer bytes -> is_byte_buffer (firstn n bytes).
Proof.
  unfold is_byte_buffer. intros H.
  rewrite <- (firstn_skipn n bytes) in H. now apply Forall_app in H.
Qed.

Lemma is_byte_buffer_skipn (n : nat) (bytes : Buffer) :
  is_byte_buffer bytes -> is_byte_buffer (skipn n bytes).
Proof.
  unfold is_byte_buffer. intros H.
  rewrite <- (firstn_skipn n bytes) in H. now apply Forall_app in H.
Qed.

(** *** getAddress *)

(** X1. For a path that parses to at most 255 segments of 32 bits,
    [getAddress] hands the device exactly one command: class [0xa1],
    instruction [0x02], first parameter 1 when the address is to be
    displayed and 0 otherwise, second parameter 0, and as payload the
    segment count in one byte followed by the segments as 4-byte
    big-endian integers.  An error of the device is the error of the
    call. *)
Theorem getAddress_request (coin : CoinConfig) (path : string)
    (boolDisplay : bool) (segments : list Z) (t : Transport) :
  well_formed_path path segments ->
  snd (getAddress coin path boolDisplay t)
  = after_exchange t
      {| cla := 0xa1; ins := 0x02;
         p1 := if boolDisplay then 0x01 else 0x00; p2 := 0x00;
         data := Z.of_nat (length segments) :: flat_map uint32_be segments |}
  /\ length (Z.of_nat (length segments) :: flat_map uint32_be segments)
     = 1 + 4 * length segments
  /\ (forall e,
        device t (exchanged t) (address_command segments boolDisplay)
        = Throw e ->
        fst (getAddress coin path boolDisplay t) = Throw e).
Proof.
  intros Hwf. rewrite (getAddress_exchange _ _ _ _ _ Hwf).
  split; [|split].
  - destruct (device t _ _); reflexivity.
  - cbn [length]. now rewrite length_uint32_segments.
  - intros e ->. reflexivity.
Qed.

(** X2. When the device answers an address request with a 32-byte
    public key, a length byte and that many bytes of address text,
    [getAddress] returns the key as 64 hex characters and the text as a
    string of the announced length; decoding the hex string gives the
    key bytes back. *)
Theorem getAddress_response (coin : CoinConfig) (path : string)
    (boolDisplay : bool) (segments : list Z) (t : Transport)
    (key addr rest : Buffer) (len : Z) :
  well_formed_path path segments ->
  device t (exchanged t) (address_command segments boolDisplay)
  = Ok (key ++ len :: addr ++ rest) ->
  length key = 32 ->
  length addr = Z.to_nat len ->
  is_byte_buffer key ->
  fst (getAddress coin path boolDisplay t)
  = Ok {| publicKey := Buf.toString_hex key;
          address := Buf.toString_ascii addr |}
  /\ is_hex_string 64 (Buf.toString_hex key) = true
  /\ Buf.from_hex (Buf.toString_hex key) = key
  /\ String.length (Buf.toString_ascii addr) = Z.to_nat len.
Proof.
  intros Hwf Hdev Lkey Laddr Hkey.
  rewrite (getAddress_exchange _ _ _ _ _ Hwf), Hdev. cbn [fst].
  unfold Buf.readUInt8.
  rewrite nth_error_app2 by lia.
  replace (32 - length key) with 0 by lia. cbn [nth_error].
  rewrite (firstn_app_exact key _ 32 Lkey).
  change 33 with (1 + 32). rewrite <- skipn_skipn.
  rewrite (skipn_app_exact key _ 32 Lkey). cbn [skipn].
  rewrite (firstn_app_exact addr _ _ Laddr).
  destruct (from_hex_toString_hex key Hkey) as [Hback Hhex].
  rewrite Lkey in Hhex.
  repeat split; try assumption.
  rewrite length_toString_ascii. exact Laddr.
Qed.

(** X3. [getAddress] reads the length byte at offset 32 and fails with a
    range error when the response has no such byte; it does not compare
    the announced length of the address with what follows: a response
    cut short inside the address is accepted, and the address returned
    is what was there. *)
Theorem getAddress_short_response (coin : CoinConfig) (path : string)
    (boolDisplay : bool) (segments : list Z) (t : Transport)
    (response : Buffer) :
  well_formed_path path segments ->
  device t (exchanged t) (address_command segments boolDisplay)
  = Ok response ->
  (length response <= 32 ->
   fst (getAddress coin path boolDisplay t) = Throw RangeError)
  /\ (forall len, nth_error response 32 = Some len ->
      exists r,
        fst (getAddress coin path boolDisplay t) = Ok r
        /\ String.length (publicKey r) = 64
        /\ String.length (address r)
           = Nat.min (Z.to_nat len) (length response - 33)).
Proof.
  intros Hwf Hdev.
  rewrite (getAddress_exchange _ _ _ _ _ Hwf), Hdev. cbn [fst].
  unfold Buf.readUInt8. split.
  - intros Hlen. apply nth_error_None in Hlen. now rewrite Hlen.
  - intros len Hnth. rewrite Hnth. eexists. split; [reflexivity|].
    cbn [publicKey address].
    assert (32 < length response)
      by (apply nth_error_Some; congruence).
    rewrite length_Buf_toString_hex, length_toString_ascii,
      !length_firstn, length_skipn.
    split; lia.
Qed.

(** X4. A path that does not parse, that has more than 255 segments or
    that has a segment outside 32 bits is refused before anything is
    handed to the device: [getAddress], and [signBlock] and [cacheBlock]
    on an accepted descriptor, throw and leave the transport as it
    was. *)
Theorem path_refused (coin : CoinConfig) (path : string) (t : Transport)
    (e : exn) :
  match BIPPath_fromString path with
  | Throw e' => e = e'
  | Ok segments =>
      e = RangeError
      /\ (255 < length segments \/ Exists (fun v => ~ is_uint32 v) segments)
  end ->
  (forall boolDisplay, getAddress coin path boolDisplay t = (Throw e, t))
  /\ (forall b keys,
        processBlockData coin b = Ok keys ->
        signBlock coin path b t = (Throw e, t)
        /\ (forall signature,
              String.length signature = 128 ->
              cacheBlock coin path b signature t = (Throw e, t))).
Proof.
  intros Hpath.
  destruct (BIPPath_fromString path) as [segments|e'] eqn:Epath.
  - destruct Hpath as [-> Hbad]. split.
    + intros d. unfold getAddress. cbv zeta.
      rewrite (bindM_pure _ _ _ _ Epath). cbv beta.
      destruct Hbad as [Hlong|Hseg].
      * apply bindM_pure_throw, writeUInt8_range. lia.
      * destruct (Buf.writeUInt8 _ _ 0) as [buf|e] eqn:E.
        -- rewrite (bindM_pure _ _ _ _ eq_refl).
           apply bindM_pure_throw, segments_range_index, Hseg.
        -- unfold Buf.writeUInt8 in E. destruct (_ && _); [discriminate|].
           injection E as <-. reflexivity.
    + intros b keys Hproc. split.
      * unfold signBlock. cbv zeta.
        rewrite (bindM_pure _ _ _ _ Hproc). cbv beta.
        rewrite (bindM_pure _ _ _ _ Epath). cbv beta.
        destruct Hbad as [Hlong|Hseg].
        -- apply bindM_pure_throw, writeUInt8_range. lia.
        -- destruct (Buf.writeUInt8 _ _ 0) as [buf|e] eqn:E.
           ++ rewrite (bindM_pure _ _ _ _ eq_refl).
              apply bindM_pure_throw, segments_range, Hseg.
           ++ unfold Buf.writeUInt8 in E. destruct (_ && _); [discriminate|].
              injection E as <-. reflexivity.
      * intros signature Lsig. unfold cacheBlock. cbv zeta.
        rewrite (bindM_pure _ _ _ _ Hproc). cbv beta.
        rewrite Lsig. change (128 =? 128) with true. cbn [negb]. cbv iota.
        rewrite (bindM_pure _ _ _ _ Epath). cbv beta.
        destruct Hbad as [Hlong|Hseg].
        -- apply bindM_pure_throw, writeUInt8_range. lia.
        -- destruct (Buf.writeUInt8 _ _ 0) as [buf|e] eqn:E.
           ++ rewrite (bindM_pure _ _ _ _ eq_refl).
              apply bindM_pure_throw, segments_range, Hseg.
           ++ unfold Buf.writeUInt8 in E. destruct (_ && _); [discriminate|].
              injection E as <-. reflexivity.
  - subst e'. split.
    + intros d. unfold getAddress. now apply bindM_pure_throw.
    + intros b keys Hproc. split.
      * unfold signBlock. cbv zeta.
        rewrite (bindM_pure _ _ _ _ Hproc). cbv beta.
        now apply bindM_pure_throw.
      * intros signature Lsig. unfold cacheBlock. cbv zeta.
        rewrite (bindM_pure _ _ _ _ Hproc). cbv beta.
        rewrite Lsig. change (128 =? 128) with true. cbn [negb]. cbv iota.
        now apply bindM_pure_throw.
Qed.

(** *** signBlock and cacheBlock *)

Lemma length_block_prefix (coin : CoinConfig) (segments : list Z)
    (b : BlockData) :
  (forall input, length (blake2b input 5) = 5) ->
  well_formed_block coin b ->
  length (block_prefix coin segments b) = 1 + 4 * length segments + 96.
Proof.
  intros Hh (_ & (key & Hrep) & Hrcp & Hprev & Hsrc & _).
  destruct (previous_step b (Buf.alloc 32) [] 0 32 32 Hprev eq_refl eq_refl
              (le_n _) (le_n _)) as [_ Lprev].
  destruct (link_step coin b (Buf.alloc 32) [] 0 32 32 Hh Hsrc Hrcp eq_refl
              eq_refl (le_n _) (le_n _)) as [_ Llink].
  unfold block_prefix, path_field, representative_field.
  rewrite (decoded_key_eq _ _ _ Hrep).
  rewrite !length_app, Lprev, Llink, (decodeAddress_key_length _ _ _ Hh Hrep).
  cbn [length]. rewrite length_uint32_segments. lia.
Qed.

Lemma length_balance_bytes (b : BlockData) :
  is_decimal_numeral (balance b) = true ->
  16 <= length (balance_bytes b)
  /\ ((numeral_value (balance b) < 2 ^ 128)%N ->
      length (balance_bytes b) = 16).
Proof.
  intros Hnum. unfold balance_bytes.
  destruct (encodeBalance_numeral _ Hnum) as (hex & Hhex & Hhexs & Lhex & _).
  rewrite Hhex. rewrite (proj2 (hex_bytes_from_hex hex 16 Hhexs)). split.
  - apply (Nat.Div0.div_le_mono 32 _ 2) in Lhex. exact Lhex.
  - intros Hlt.
    destruct (encodeBalance_small _ _ (bigInt_numeral_value _ Hnum) Hlt)
      as (hex' & Hhex' & Hs).
    assert (hex' = hex) by congruence. subst hex'.
    now rewrite (is_hex_string_length _ _ Hs).
Qed.

(** X5. For a well-formed descriptor, with a balance of any size, and a
    well-formed path, [signBlock] hands the device exactly one command:
    class [0xa1], instruction [0x04], first parameter 0, a second
    parameter that has bit 0 set when the recipient was given with the
    secondary prefix of the coin and bit 1 set when the representative
    was (and that is 0 for a coin with a single prefix), and a payload
    of the path, previous, link and representative fields followed by
    the first 16 bytes of the encoded balance; the payload is
    [1 + 4n + 112] bytes long for [n] segments. *)
Theorem signBlock_request (coin : CoinConfig) (path : string)
    (b : BlockData) (segments : list Z) (t : Transport) :
  (forall input, length (blake2b input 5) = 5) ->
  well_formed_path path segments ->
  well_formed_block coin b ->
  snd (signBlock coin path b t)
  = after_exchange t
      {| cla := 0xa1; ins := 0x04; p1 := 0x00; p2 := sign_p2 coin b;
         data := block_prefix coin segments b
                 ++ firstn 16 (balance_bytes b) |}
  /\ length (block_prefix coin segments b ++ firstn 16 (balance_bytes b))
     = 1 + 4 * length segments + 112
  /\ (addressPrimaryPrefix coin = addressSecondaryPrefix coin ->
      sign_p2 coin b = 0%Z)
  /\ (0 <= sign_p2 coin b <= 3)%Z.
Proof.
  intros Hh Hpath Hb.
  rewrite (signBlock_run _ _ _ _ _ Hh Hpath Hb).
  split; [|split; [|split]].
  - unfold sign_command. destruct (device t _ _); reflexivity.
  - rewrite length_app, (length_block_prefix _ _ _ Hh Hb), length_firstn.
    destruct Hb as (_ & _ & _ & _ & _ & Hnum).
    pose proof (proj1 (length_balance_bytes b Hnum)). lia.
  - intros E. unfold sign_p2. rewrite E, String.eqb_refl. reflexivity.
  - unfold sign_p2. destruct (String.eqb _ _); [lia|].
    destruct (recipient b) as [r|]; [destruct (startsWith r _)|];
      destruct (startsWith (representative b) _); lia.
Qed.

(** X6. [signBlock] returns what the device answered: the first 32 bytes
    as the block hash and the next 64 as the signature, both in hex; an
    error of the device is the error of the call.  For a response of a
    32-byte hash and a 64-byte signature the returned signature is a
    string of 128 hex characters that decodes to the signature bytes. *)
Theorem signBlock_response (coin : CoinConfig) (path : string)
    (b : BlockData) (segments : list Z) (t : Transport) :
  (forall input, length (blake2b input 5) = 5) ->
  well_formed_path path segments ->
  well_formed_block coin b ->
  (forall e,
      device t (exchanged t) (sign_command coin segments b) = Throw e ->
      fst (signBlock coin path b t) = Throw e)
  /\ (forall hash sig rest,
        device t (exchanged t) (sign_command coin segments b)
        = Ok (hash ++ sig ++ rest) ->
        length hash = 32 -> length sig = 64 ->
        is_byte_buffer sig ->
        fst (signBlock coin path b t)
        = Ok {| blockHash := Buf.toString_hex hash;
                signature := Buf.toString_hex sig |}
        /\ is_hex_string 128 (Buf.toString_hex sig) = true
        /\ Buf.from_hex (Buf.toString_hex sig) = sig).
Proof.
  intros Hh Hpath Hb.
  rewrite (signBlock_run _ _ _ _ _ Hh Hpath Hb). split.
  - intros e ->. reflexivity.
  - intros hash sig rest -> Lhash Lsig Hsig. cbn [fst].
    unfold signature_of_response.
    rewrite (firstn_app_exact hash _ 32 Lhash),
      (skipn_app_exact hash _ 32 Lhash), (firstn_app_exact sig _ 64 Lsig).
    destruct (from_hex_toString_hex sig Hsig) as [Hback Hhex].
    rewrite Lsig in Hhex. repeat split; assumption.
Qed.

(** X7. [signBlock] does not check the length of the response: whatever
    the device answers, the call succeeds, and a response shorter than
    96 bytes gives a shorter block hash or signature. *)
Theorem signBlock_any_response (coin : CoinConfig) (path : string)
    (b : BlockData) (segments : list Z) (t : Transport)
    (response : Buffer) :
  (forall input, length (blake2b input 5) = 5) ->
  well_formed_path path segments ->
  well_formed_block coin b ->
  device t (exchanged t) (sign_command coin segments b) = Ok response ->
  exists r,
    fst (signBlock coin path b t) = Ok r
    /\ String.length (blockHash r) = 2 * Nat.min 32 (length response)
    /\ String.length (signature r)
       = 2 * Nat.min 64 (length response - 32).
Proof.
  intros Hh Hpath Hb Hdev.
  rewrite (signBlock_run _ _ _ _ _ Hh Hpath Hb), Hdev.
  eexists. split; [reflexivity|].
  cbn [signature_of_response blockHash signature].
  now rewrite !length_Buf_toString_hex, !length_firstn, length_skipn.
Qed.

(** X8. Signing, then caching with the signature returned: when the
    balance is below [2^128] and the device answers the Sign request
    with at least 96 bytes, [cacheBlock] called with the signature that
    [signBlock] returned sends the payload of the Sign request followed
    by the 64 signature bytes of that answer. *)
Theorem sign_then_cache (coin : CoinConfig) (path : string)
    (b : BlockData) (segments : list Z) (t t' : Transport)
    (response : Buffer) (r : BlockSignature) :
  (forall input, length (blake2b input 5) = 5) ->
  well_formed_path path segments ->
  well_formed_block coin b ->
  (numeral_value (balance b) < 2 ^ 128)%N ->
  device t (exchanged t) (sign_command coin segments b) = Ok response ->
  96 <= length response ->
  is_byte_buffer response ->
  signBlock coin path b t = (Ok r, t') ->
  snd (cacheBlock coin path b (signature r) t')
  = after_exchange t'
      {| cla := 0xa1; ins := 0x03; p1 := 0x00; p2 := 0x00;
         data := data (sign_command coin segments b)
                 ++ firstn 64 (skipn 32 response) |}.
Proof.
  intros Hh Hpath Hb Hlt Hdev Hlen Hbytes Hsign.
  rewrite (signBlock_run _ _ _ _ _ Hh Hpath Hb), Hdev in Hsign.
  injection Hsign as <- <-.
  cbn [signature_of_response signature].
  set (sig := firstn 64 (skipn 32 response)).
  assert (Lsig : length sig = 64).
  { subst sig. rewrite length_firstn, length_skipn. lia. }
  assert (Hsig : is_byte_buffer sig).
  { subst sig. now apply is_byte_buffer_firstn, is_byte_buffer_skipn. }
  destruct (from_hex_toString_hex sig Hsig) as [Hback Hhex].
  rewrite Lsig in Hhex.
  rewrite (cacheBlock_run _ _ _ _ _ _ Hh Hpath Hb Hhex).
  destruct Hb as (_ & _ & _ & _ & _ & Hnum).
  pose proof (proj2 (length_balance_bytes b Hnum) Hlt) as Lbal.
  assert (E : cache_command coin segments b (Buf.toString_hex sig)
              = {| cla := 0xa1; ins := 0x03; p1 := 0x00; p2 := 0x00;
                   data := data (sign_command coin segments b) ++ sig |}).
  { unfold cache_command, sign_command. cbn [data]. rewrite Hback.
    rewrite !firstn_all2 by (rewrite ?length_app; lia).
    now rewrite <- app_assoc. }
  rewrite E.
  match goal with
  | |- snd (match ?d with _ => _ end) = _ => destruct d; reflexivity
  end.
Qed.

(** X9. A descriptor that the classifier rejects reaches no device:
    [signBlock] and [cacheBlock] throw the classifier's error and leave
    the transport as it was, whatever the path and, for [cacheBlock],
    whatever the signature. *)
Theorem rejected_block_sends_nothing (coin : CoinConfig) (path : string)
    (b : BlockData) (signature : string) (t : Transport) (e : exn) :
  processBlockData coin b = Throw e ->
  signBlock coin path b t = (Throw e, t)
  /\ cacheBlock coin path b signature t = (Throw e, t).
Proof.
  intros Hproc. split.
  - unfold signBlock. cbv zeta. now apply bindM_pure_throw.
  - unfold cacheBlock. cbv zeta. now apply bindM_pure_throw.
Qed.

(** *** What a call does to the transport *)

Lemma sends_nothing_ret {A : Type} (a : A) :
  sends_nothing (ret (S := Transport) a).
Proof. intros t. reflexivity. Qed.

Lemma sends_nothing_throw {A : Type} (e : exn) :
  sends_nothing (throw (S := Transport) (A := A) e).
Proof. intros t. reflexivity. Qed.

Lemma sends_nothing_pure {A : Type} (r : result A) :
  sends_nothing (pure (S := Transport) r).
Proof. intros t. reflexivity. Qed.

Lemma sends_nothing_bind {A B : Type} (m : M Transport A)
    (k : A -> M Transport B) :
  sends_nothing m -> (forall a, sends_nothing (k a)) ->
  sends_nothing (bindM m k).
Proof.
  intros Hm Hk t. unfold bindM. specialize (Hm t).
  destruct (m t) as [[a|e] t']; cbn [snd] in *; subst t';
    [apply Hk|reflexivity].
Qed.

Lemma once_bind_pure {A B : Type} (r : result A) (k : A -> M Transport B) :
  (forall a, fails_or_exchanges_once (k a)) ->
  fails_or_exchanges_once (bindM (pure r) k).
Proof.
  intros Hk t. destruct r as [a|e]; [apply Hk|].
  left. exists e. reflexivity.
Qed.

Lemma once_bind_send {B : Type} (cla ins p1 p2 : Z) (buf : Buffer)
    (k : Buffer -> M Transport B) :
  (forall response, sends_nothing (k response)) ->
  fails_or_exchanges_once (bindM (send cla ins p1 p2 buf) k).
Proof.
  intros Hk t. right. eexists. unfold bindM. rewrite send_run.
  destruct (device t _ _) as [response|e]; [apply Hk|reflexivity].
Qed.

Ltac quiet :=
  repeat first
    [ apply sends_nothing_ret
    | apply sends_nothing_throw
    | apply sends_nothing_pure
    | apply sends_nothing_bind; [|intros ?]
    | match goal with
      | |- sends_nothing (match ?x with _ => _ end) => destruct x
      | |- sends_nothing (if ?x then _ else _) => destruct x
      end ].

Ltac one_exchange :=
  repeat first
    [ apply once_bind_pure; intros ?
    | apply once_bind_send; intros ?; quiet
    | match goal with
      | |- fails_or_exchanges_once (match ?x with _ => _ end) => destruct x
      | |- fails_or_exchanges_once (if ?x then _ else _) => destruct x
      end
    | (intros t; left; eexists; reflexivity) ].

Lemma getAppConfiguration_once (coin : CoinConfig) :
  fails_or_exchanges_once (getAppConfiguration coin).
Proof. unfold getAppConfiguration. cbv zeta. one_exchange. Qed.

Lemma getAddress_once (coin : CoinConfig) (path : string)
    (boolDisplay : bool) :
  fails_or_exchanges_once (getAddress coin path boolDisplay).
Proof. unfold getAddress. cbv zeta. one_exchange. Qed.

Lemma signBlock_once (coin : CoinConfig) (path : string) (b : BlockData) :
  fails_or_exchanges_once (signBlock coin path b).
Proof. unfold signBlock. cbv zeta. one_exchange. Qed.

Lemma cacheBlock_once (coin : CoinConfig) (path : string) (b : BlockData)
    (signature : string) :
  fails_or_exchanges_once (cacheBlock coin path b signature).
Proof. unfold cacheBlock. cbv zeta. one_exchange. Qed.

(** X10. Every device call of api.js either throws with the transport
    untouched or hands the device exactly one command; none sends a
    second command, and none changes the device or the scramble key. *)
Theorem one_exchange_per_call (coin : CoinConfig) (path : string)
    (boolDisplay : bool) (b : BlockData) (signature : string) :
  fails_or_exchanges_once (getAppConfiguration coin)
  /\ fails_or_exchanges_once (getAddress coin path boolDisplay)
  /\ fails_or_exchanges_once (signBlock coin path b)
  /\ fails_or_exchanges_once (cacheBlock coin path b signature).
Proof.
  repeat split.
  - apply getAppConfiguration_once.
  - apply getAddress_once.
  - apply signBlock_once.
  - apply cacheBlock_once.
Qed.

Lemma on_transport_once {A : Type} (m : M Transport A) (this : BaseAPI) :
  fails_or_exchanges_once m ->
  transport (snd (on_transport m this)) = transport this
  \/ exists apdu,
       transport (snd (on_transport m this))
       = after_exchange (transport this) apdu.
Proof.
  intros Hm. unfold on_transport.
  destruct (Hm (transport this)) as [(e & E)|(apdu & E)].
  - left. rewrite E. reflexivity.
  - right. exists apdu. destruct (m (transport this)) as [r t'].
    cbn [snd] in *. exact E.
Qed.

Lemma guarded_once {A : Type} (m : M Transport A) (this : BaseAPI) :
  fails_or_exchanges_once m ->
  let after := snd ((_ <- _assertCorrectCoin ;; on_transport m)%async this) in
  transport after = transport this
  \/ exists apdu, transport after = after_exchange (transport this) apdu.
Proof.
  intros Hm. cbv zeta. unfold bindM. rewrite assertCorrectCoin_state.
  destruct (fst (_assertCorrectCoin this)) as [[]|e].
  - now apply on_transport_once.
  - left. reflexivity.
Qed.

Lemma run_call_transport (c : call) (this : BaseAPI) :
  transport (snd (run_call c this)) = transport this
  \/ exists apdu,
       transport (snd (run_call c this))
       = after_exchange (transport this) apdu.
Proof.
  destruct c as [|path d|path b|path b sig]; cbn [run_call];
    rewrite ?bindM_snd_ret.
  - unfold BaseAPI_getAppConfiguration, bindM.
    destruct (on_transport_once (getAppConfiguration (coin this)) this
                (getAppConfiguration_once _)) as [E|(apdu & E)];
      destruct (on_transport _ this) as [[a|e] this']; cbn [snd] in *;
      first [now left | right; now exists apdu].
  - apply guarded_once, getAddress_once.
  - apply guarded_once, signBlock_once.
  - apply guarded_once, cacheBlock_once.
Qed.

Lemma run_call_coin (c : call) (this : BaseAPI) :
  coin (snd (run_call c this)) = coin this.
Proof.
  destruct (is_app_query c) eqn:Q.
  - destruct c; try discriminate Q. cbn [run_call].
    rewrite bindM_snd_ret. unfold BaseAPI_getAppConfiguration, bindM.
    pose proof (proj2 (on_transport_identity
                         (getAppConfiguration (coin this)) this)) as E.
    destruct (on_transport _ this) as [[a|e] this']; exact E.
  - apply run_call_identity, Q.
Qed.

(** X11. Over any sequence of calls on a session object, failed ones
    included, the coin configuration, the device and the scramble key
    stay what they were, the commands exchanged before are still there
    in the same order, and at most one command per call was added.  A
    session made by the constructor keeps the scramble key [mRB]. *)
Theorem session_transport (calls : list call) (this : BaseAPI) :
  coin (run_calls calls this) = coin this
  /\ device (transport (run_calls calls this)) = device (transport this)
  /\ scrambleKey (transport (run_calls calls this))
     = scrambleKey (transport this)
  /\ (exists sent,
        exchanged (transport (run_calls calls this))
        = exchanged (transport this) ++ sent
        /\ length sent <= length calls)
  /\ (forall t c,
        this = BaseAPI_constructor t c ->
        scrambleKey (transport (run_calls calls this)) = Some "mRB").
Proof.
  assert (H : coin (run_calls calls this) = coin this
              /\ device (transport (run_calls calls this))
                 = device (transport this)
              /\ scrambleKey (transport (run_calls calls this))
                 = scrambleKey (transport this)
              /\ (exists sent,
                    exchanged (transport (run_calls calls this))
                    = exchanged (transport this) ++ sent
                    /\ length sent <= length calls)).
  { revert this. induction calls as [|c calls IH]; intros this.
    - repeat split. exists []. now rewrite app_nil_r.
    - unfold run_calls in *. cbn [fold_left].
      destruct (IH (snd (run_call c this)))
        as (Hc & Hd & Hk & sent & Hs & Hl).
      rewrite Hc, Hd, Hk, Hs, run_call_coin.
      destruct (run_call_transport c this) as [E|(apdu & E)]; rewrite E.
      + repeat split. exists sent. cbn [length]. split; [reflexivity|lia].
      + repeat split. exists (apdu :: sent). cbn [after_exchange exchanged].
        rewrite <- app_assoc. cbn [length app].
        split; [reflexivity|lia]. }
  destruct H as (Hc & Hd & Hk & Hs). repeat split; try assumption.
  intros t c ->. rewrite Hk. reflexivity.
Qed.

(** *** The classifier *)

Lemma truthy_supplied (o : option string) : truthy (supplied o) = truthy o.
Proof.
  destruct o as [s|]; [|reflexivity]. cbn [supplied truthy].
  destruct (String.eqb s EmptyString) eqn:E; [reflexivity|].
  cbn [truthy]. now rewrite E.
Qed.

Lemma str_supplied (o : option string) : str (supplied o) = str o.
Proof.
  destruct o as [s|]; [|reflexivity]. cbn [supplied].
  destruct (String.eqb_spec s EmptyString) as [->|_]; reflexivity.
Qed.

Lemma processBlockData_supplied (c : CoinConfig) (b : BlockData) :
  processBlockData c (without_empty_fields b) = processBlockData c b.
Proof.
  unfold processBlockData, without_empty_fields.
  cbn [previousBlock representative balance sourceBlock recipient].
  now rewrite !truthy_supplied, !str_supplied.
Qed.

(** X12. An optional field holding the empty string is the same as no
    field: the classifier, [signBlock] and [cacheBlock] give the same
    result and send the same command for a descriptor and for the
    descriptor with its empty fields removed. *)
Theorem empty_fields_absent (coin : CoinConfig) (path : string)
    (b : BlockData) (signature : string) (t : Transport) :
  processBlockData coin (without_empty_fields b) = processBlockData coin b
  /\ signBlock coin path (without_empty_fields b) t = signBlock coin path b t
  /\ cacheBlock coin path (without_empty_fields b) signature t
     = cacheBlock coin path b signature t.
Proof.
  split; [apply processBlockData_supplied|].
  split.
  - unfold signBlock. cbv zeta. rewrite processBlockData_supplied.
    unfold without_empty_fields.
    cbn [previousBlock representative balance sourceBlock recipient].
    now rewrite !truthy_supplied, !str_supplied.
  - unfold cacheBlock. cbv zeta. rewrite processBlockData_supplied.
    unfold without_empty_fields.
    cbn [previousBlock representative balance sourceBlock recipient].
    now rewrite !truthy_supplied, !str_supplied.
Qed.

Lemma checksum_matches_eq (checksum computedChecksum : Buffer) :
  length checksum = length computedChecksum ->
  checksum_matches checksum computedChecksum = true ->
  checksum = computedChecksum.
Proof.
  revert computedChecksum.
  induction checksum as [|x xs IH]; intros [|y ys] L H;
    try discriminate L; [reflexivity|].
  cbn [checksum_matches] in H. apply andb_true_iff in H as [Hxy Hrest].
  apply Z.eqb_eq in Hxy. subst y. f_equal. apply IH; [|exact Hrest].
  now injection L.
Qed.

Lemma checksum_matches_refl (checksum : Buffer) :
  checksum_matches checksum checksum = true.
Proof.
  induction checksum as [|x xs IH]; [reflexivity|].
  cbn [checksum_matches]. now rewrite Z.eqb_refl.
Qed.

(** X13. [decodeAddress] returns a key exactly when, once one leading
    prefix is cut off, the text matches the address pattern and decodes
    to bytes whose part after the first 32 is the 5-byte BLAKE2b digest
    of those 32, reversed; the key is those first 32 bytes. *)
Theorem decodeAddress_checksum_iff (a : string) (ps : list string)
    (bytes key : Buffer) :
  nanoBase32_decode (strip_prefix a ps) = Ok bytes ->
  (decodeAddress a ps = Ok (Some key)
   <-> address_pattern_test (strip_prefix a ps) = true
       /\ key = firstn 32 bytes
       /\ skipn 32 bytes = rev (blake2b (firstn 32 bytes) 5)).
Proof.
  intros Hdec. unfold decodeAddress. cbv zeta.
  destruct (address_pattern_test _); cbn [negb].
  - rewrite Hdec. cbn [bind]. split.
    + intros H.
      destruct (Nat.eqb_spec (length (skipn 32 bytes))
                  (length (rev (blake2b (firstn 32 bytes) 5))))
        as [L|L]; cbn [negb] in H; [|discriminate H].
      destruct (checksum_matches _ _) eqn:C; cbn [negb] in H;
        [|discriminate H].
      split; [reflexivity|]. split; [congruence|].
      now apply checksum_matches_eq.
    + intros (_ & -> & E). rewrite E, Nat.eqb_refl, checksum_matches_refl.
      reflexivity.
  - split; [discriminate|]. intros (H & _). discriminate H.
Qed.

Lemma prefix_app (p s : string) : String.prefix p (p ++ s) = true.
Proof.
  induction p as [|c p IH]; cbn [String.prefix append].
  - now destruct s.
  - destruct (ascii_dec c c) as [_|N]; [exact IH|now elim N].
Qed.

Lemma substr_app (p s : string) : substr (p ++ s) (String.length p) = s.
Proof. induction p as [|c p IH]; [now destruct s|exact IH]. Qed.

(** X14. Cutting the prefix: an address written with the primary prefix
    of the coin decodes as the text after the prefix does, and so does
    an address written with the secondary prefix, unless that address
    happens to start with the primary prefix as well.  The same text
    under either prefix of Nano gives the same key. *)
Theorem decodeAddress_prefix (coin : CoinConfig) (body : string) :
  decodeAddress (addressPrimaryPrefix coin ++ body) (addressPrefixes coin)
  = decodeAddress body []
  /\ (startsWith (addressSecondaryPrefix coin ++ body)
        (addressPrimaryPrefix coin) = false ->
      decodeAddress (addressSecondaryPrefix coin ++ body)
        (addressPrefixes coin)
      = decodeAddress body [])
  /\ decodeAddress ("nano_" ++ body) (addressPrefixes nano_coin)
     = decodeAddress ("xrb_" ++ body) (addressPrefixes nano_coin).
Proof.
  assert (P : forall c : CoinConfig,
            decodeAddress (addressPrimaryPrefix c ++ body) (addressPrefixes c)
            = decodeAddress body []).
  { intros c. unfold decodeAddress, addressPrefixes. cbn [strip_prefix].
    unfold startsWith. now rewrite prefix_app, substr_app. }
  assert (S : forall c : CoinConfig,
            startsWith (addressSecondaryPrefix c ++ body)
              (addressPrimaryPrefix c) = false ->
            decodeAddress (addressSecondaryPrefix c ++ body)
              (addressPrefixes c)
            = decodeAddress body []).
  { intros c H. unfold decodeAddress, addressPrefixes. cbn [strip_prefix].
    rewrite H. unfold startsWith. now rewrite prefix_app, substr_app. }
  split; [apply P|]. split; [apply S|].
  exact (eq_trans (P nano_coin) (eq_sym (S nano_coin eq_refl))).
Qed.

Lemma present_supplied (o : option string) : present (supplied o) = truthy o.
Proof.
  destruct o as [s|]; [|reflexivity]. cbn [supplied truthy].
  now destruct (String.eqb s EmptyString).
Qed.

(** X15. What the classifier accepts is valid in the sense of the
    checks it makes: a supplied hash has 64 characters, the
    representative and a supplied recipient decode to the keys that are
    returned, the balance contains a digit, and the fields supplied
    (empty strings not counted) form one of the four shapes. *)
Theorem processBlockData_accepted (c : CoinConfig) (b : BlockData)
    (keys : BlockKeys) :
  processBlockData c b = Ok keys ->
  (truthy (previousBlock b) = true ->
   String.length (str (previousBlock b)) = 64)
  /\ (truthy (sourceBlock b) = true ->
      String.length (str (sourceBlock b)) = 64)
  /\ decodeAddress (representative b) (addressPrefixes c)
     = Ok (Some (representativePublicKey keys))
  /\ balance_pattern_test (balance b) = true
  /\ (if truthy (recipient b)
      then exists key,
             decodeAddress (str (recipient b)) (addressPrefixes c)
             = Ok (Some key)
             /\ recipientPublicKey keys = Some key
      else recipientPublicKey keys = None)
  /\ (exists kind, block_kind (without_empty_fields b) = Some kind).
Proof.
  unfold processBlockData, block_kind, without_empty_fields.
  cbn [previousBlock sourceBlock recipient].
  rewrite !present_supplied.
  destruct (truthy (previousBlock b)) eqn:Tp; cbn [andb];
    [destruct (Nat.eqb_spec (String.length (str (previousBlock b))) 64)
       as [Lp|Lp]; cbn [negb]; [|discriminate]|];
    (destruct (decodeAddress (representative b) _) as [[key|]|e];
       cbn [bind]; [|discriminate|discriminate]);
    (destruct (balance_pattern_test (balance b)); cbn [negb];
       [|discriminate]);
    (destruct (truthy (sourceBlock b)) eqn:Ts; cbn [andb];
       [destruct (Nat.eqb_spec (String.length (str (sourceBlock b))) 64)
          as [Ls|Ls]; cbn [negb]; [|discriminate]|]);
    (destruct (truthy (recipient b)) eqn:Tr; cbn [andb];
       [destruct (decodeAddress (str (recipient b)) _) as [[rkey|]|e];
          cbn [bind]; [|discriminate|discriminate]|cbn [bind]]);
    cbn [negb andb]; intros [= <-];
    cbn [representativePublicKey recipientPublicKey];
    repeat split; try assumption; try discriminate; eauto.
Qed.

(** X16. Every failure of the classifier is one of its six messages or
    an exception of the base-32 decoder; the check of [previousBlock]
    comes first: a supplied previous hash of the wrong length is
    reported whatever the other fields hold. *)
Theorem processBlockData_errors (c : CoinConfig) (b : BlockData) :
  (forall e,
      processBlockData c b = Throw e ->
      In e [Error "`previousBlock` must be a 64 character hex string";
            Error (badAddressReason c "representative");
            Error "`balance` must be a number";
            Error "`sourceBlock` must be a 64 character hex string";
            Error (badAddressReason c "recipient");
            Error "`blockData` optional field configuration is unsupported"]
      \/ exists a, nanoBase32_decode a = Throw e)
  /\ (forall h,
        previousBlock b = Some h -> h <> EmptyString ->
        String.length h <> 64 ->
        processBlockData c b
        = Throw (Error "`previousBlock` must be a 64 character hex string")).
Proof.
  assert (D : forall a ps e,
            decodeAddress a ps = Throw e ->
            exists a', nanoBase32_decode a' = Throw e).
  { intros a ps e. unfold decodeAddress. cbv zeta.
    destruct (address_pattern_test _); cbn [negb]; [|discriminate].
    destruct (nanoBase32_decode _) as [bytes|e'] eqn:E; cbn [bind].
    - destruct (negb _); [discriminate|].
      destruct (negb _); discriminate.
    - intros [= <-]. eauto. }
  split.
  - intros e. unfold processBlockData.
    destruct (truthy (previousBlock b) && _);
      [intros [= <-]; left; cbn [In]; tauto|].
    destruct (decodeAddress (representative b) _) as [[key|]|e'] eqn:Er;
      cbn [bind];
      [|intros [= <-]; left; cbn [In]; tauto
       |intros [= <-]; right; eapply D, Er].
    destruct (negb (balance_pattern_test _));
      [intros [= <-]; left; cbn [In]; tauto|].
    destruct (truthy (sourceBlock b) && _);
      [intros [= <-]; left; cbn [In]; tauto|].
    destruct (truthy (recipient b)); cbn [andb bind].
    + destruct (decodeAddress (str (recipient b)) _) as [[rkey|]|e'] eqn:Ec;
        cbn [bind];
        [|intros [= <-]; left; cbn [In]; tauto
         |intros [= <-]; right; eapply D, Ec].
      destruct (_ && _); [|discriminate].
      intros [= <-]; left; cbn [In]; tauto.
    + destruct (_ && _); [|discriminate].
      intros [= <-]; left; cbn [In]; tauto.
  - intros h Hp Hne Hlen. unfold processBlockData. rewrite Hp.
    rewrite (truthy_nonempty h Hne). cbn [str andb].
    destruct (Nat.eqb_spec (String.length h) 64) as [L|L]; [contradiction|].
    reflexivity.
Qed.

(** *** The balance codec *)

(** X17. Two decimal numerals have the same encoding exactly when they
    denote the same number: leading zeros do not matter, and different
    amounts are never confused, also above [2^128]. *)
Theorem encodeBalance_same_value (v1 v2 : string) :
  is_decimal_numeral v1 = true ->
  is_decimal_numeral v2 = true ->
  (encodeBalance v1 = encodeBalance v2
   <-> numeral_value v1 = numeral_value v2).
Proof.
  intros H1 H2. split.
  - intros E.
    destruct (encodeBalance_numeral v1 H1) as (h1 & E1 & _ & _ & B1).
    destruct (encodeBalance_numeral v2 H2) as (h2 & E2 & _ & _ & B2).
    assert (h1 = h2) by congruence. subst h2. congruence.
  - intros E. unfold encodeBalance.
    now rewrite (bigInt_numeral_value v1 H1), (bigInt_numeral_value v2 H2), E.
Qed.

Lemma hex_char_digit (c : ascii) :
  is_hex_char c = true ->
  exists d, BigInteger.digit_value c = Some d /\ (d < 16)%N
            /\ lower_digit c = BigInteger.digit_char d
            /\ Ascii.eqb (lower_digit c) "0" = (d =? 0)%N.
Proof.
  destruct c as [[] [] [] [] [] [] [] []]; try discriminate; intros _;
    eexists; (split; [reflexivity|]); repeat split.
Qed.

Lemma toBase_hex_digit (d : N) :
  d <> 0%N -> (d < 16)%N ->
  BigInteger.toBase 16 d = String (BigInteger.digit_char d) EmptyString.
Proof.
  intros Hz Hd. rewrite toBase_step by lia.
  rewrite N.div_small, N.mod_small by lia. reflexivity.
Qed.

(** Reading a string of hex digits and writing the number back: the
    digits come back in lower case, after those of the accumulator or
    without their leading zeros. *)
Lemma parseBase_hex (s : string) :
  all_chars is_hex_char s = true ->
  forall acc, exists n,
    BigInteger.parseBase 16 acc s = Ok n
    /\ (acc <> 0%N ->
        BigInteger.toBase 16 n
        = (BigInteger.toBase 16 acc ++ map_string lower_digit s)%string)
    /\ (acc = 0%N ->
        BigInteger.toBase 16 n
        = strip_leading_zeros (map_string lower_digit s)).
Proof.
  induction s as [|c s IH]; intros Hs acc.
  - exists acc. split; [reflexivity|]. split.
    + intros _. cbn [map_string]. now rewrite append_nil_r.
    + intros ->. reflexivity.
  - cbn [all_chars] in Hs. apply andb_true_iff in Hs. destruct Hs as [Hc Hs].
    destruct (hex_char_digit c Hc) as (d & Hv & Hd & Hch & Hz0).
    destruct (IH Hs (acc * 16 + d)%N) as (n & Hn & Hnz & Hz).
    exists n. cbn [BigInteger.parseBase map_string]. rewrite Hv.
    destruct (N.ltb_spec d 16) as [_|]; [|lia].
    split; [exact Hn|]. split.
    + intros Hacc. rewrite Hnz by lia.
      rewrite (toBase_step 16 (acc * 16 + d)) by lia.
      replace ((acc * 16 + d) / 16)%N with acc
        by (apply N.div_unique with d; lia).
      replace ((acc * 16 + d) mod 16)%N with d
        by (apply N.mod_unique with acc; lia).
      rewrite Hch, append_assoc. reflexivity.
    + intros ->. cbn [strip_leading_zeros]. rewrite Hz0.
      change (0 * 16 + d)%N with d in *.
      destruct (N.eqb_spec d 0) as [->|Hd0].
      * now apply Hz.
      * rewrite Hnz, toBase_hex_digit, Hch by assumption. reflexivity.
Qed.

Lemma dec_digit_char (d : N) :
  (d < 10)%N -> is_digit (BigInteger.digit_char d) = true.
Proof.
  intros H. rewrite <- (N2Nat.id d).
  assert (K : (N.to_nat d < 10)%nat) by lia. revert K.
  generalize (N.to_nat d) as k. intros k Hk.
  do 10 (destruct k as [|k]; [reflexivity|]). lia.
Qed.

Lemma toBase_dec_chars (n : N) :
  all_chars is_digit (BigInteger.toBase 10 n) = true.
Proof.
  induction n as [n IH] using (well_founded_induction N.lt_wf_0).
  destruct (N.eq_dec n 0) as [->|Hz]; [reflexivity|].
  rewrite toBase_step, all_chars_app by lia.
  rewrite IH by (apply N.div_lt; lia). cbn [all_chars].
  rewrite dec_digit_char by (apply N.mod_lt; lia). reflexivity.
Qed.

Lemma toString_decimal_numeral (n : N) :
  is_decimal_numeral (BigInteger.toString n 10) = true.
Proof.
  unfold BigInteger.toString, is_decimal_numeral.
  destruct (N.eqb_spec n 0) as [->|Hz]; [reflexivity|].
  rewrite toBase_dec_chars, andb_true_r.
  rewrite toBase_step by lia.
  now destruct (BigInteger.toBase 10 (n / 10)).
Qed.

Lemma zeros_strip (s : string) :
  s = (repeat_string "0"
         (String.length s - String.length (strip_leading_zeros s))
       ++ strip_leading_zeros s)%string
  /\ String.length (strip_leading_zeros s) <= String.length s.
Proof.
  induction s as [|c s [IH L]]; [split; reflexivity|].
  cbn [strip_leading_zeros].
  destruct (Ascii.eqb_spec c "0") as [->|Hc].
  - cbn [String.length]. split; [|lia].
    replace (S (String.length s) - String.length (strip_leading_zeros s))
      with (S (String.length s - String.length (strip_leading_zeros s)))
      by lia.
    cbn [repeat_string append]. now rewrite <- IH.
  - split; [|lia]. now rewrite Nat.sub_diag.
Qed.

Lemma zeros_add (a b : nat) :
  repeat_string "0" (a + b)
  = (repeat_string "0" a ++ repeat_string "0" b)%string.
Proof.
  induction a as [|a IH]; [reflexivity|].
  cbn [Nat.add repeat_string append]. now rewrite IH.
Qed.

Lemma length_map_string (f : ascii -> ascii) (s : string) :
  String.length (map_string f s) = String.length s.
Proof. induction s as [|c s IH]; cbn [map_string String.length]; congruence. Qed.

(** X18. Decoding, then encoding: for a string of 1 to 32 hex digits, in
    either case, [decodeBalance] gives a decimal numeral without leading
    zeros, and [encodeBalance] of that numeral gives the digits back in
    lower case, padded with zeros on the left to 32 characters; for
    32 digits, the string itself in lower case. *)
Theorem balance_reverse_round_trip (h : string) :
  h <> EmptyString ->
  all_chars is_hex_char h = true ->
  String.length h <= 32 ->
  exists d,
    decodeBalance h = Ok d
    /\ is_decimal_numeral d = true
    /\ canonical_decimal d = d
    /\ encodeBalance d
       = Ok (repeat_string "0" (32 - String.length h)
             ++ map_string lower_digit h)%string.
Proof.
  intros Hne Hh Hlen.
  destruct (parseBase_hex h Hh 0%N) as (n & Hn & _ & Hz).
  specialize (Hz eq_refl).
  exists (BigInteger.toString n 10).
  assert (Hback : BigInteger.bigInt (BigInteger.toString n 10) 10 = Ok n)
    by (apply bigInt_toString; lia).
  split; [|split; [|split]].
  - unfold decodeBalance, BigInteger.bigInt. now rewrite Hn.
  - apply toString_decimal_numeral.
  - destruct (bigInt_decimal _ (toString_decimal_numeral n))
      as (n' & Hn' & E).
    assert (n' = n) by congruence. subst n'. now rewrite <- E.
  - unfold encodeBalance. rewrite Hback. cbn [bind]. f_equal.
    set (s := map_string lower_digit h) in *.
    assert (Ls : String.length s = String.length h)
      by apply length_map_string.
    destruct (zeros_strip s) as [Es Lstrip].
    rewrite <- Hz, Ls in Es, Lstrip.
    assert (Lpos : 0 < String.length h).
    { destruct h; [contradiction|cbn [String.length]; lia]. }
    unfold BigInteger.toString.
    destruct (N.eqb_spec n 0) as [->|Hnz].
    + rewrite toBase_zero in Es. cbn [String.length] in Es.
      rewrite Nat.sub_0_r, append_nil_r in Es.
      change (String.length "0" <? 32) with true. cbv iota.
      change (32 - String.length "0") with 31.
      rewrite Es, <- zeros_add.
      replace (32 - String.length h + String.length h) with (31 + 1) by lia.
      now rewrite zeros_add.
    + set (v := BigInteger.toBase 16 n) in *.
      rewrite Es, <- append_assoc, <- zeros_add.
      destruct (Nat.ltb_spec (String.length v) 32) as [Lv|Lv].
      * f_equal. f_equal. lia.
      * replace (32 - String.length h + (String.length h - String.length v))
          with 0 by lia.
        reflexivity.
Qed.

(** *** Balances of more than 128 bits *)

Lemma toBase_empty (radix n : N) :
  (2 <= radix)%N -> BigInteger.toBase radix n = EmptyString -> n = 0%N.
Proof.
  intros Hr E. destruct (N.eq_dec n 0) as [|Hz]; [assumption|].
  rewrite toBase_step in E by assumption.
  destruct (BigInteger.toBase radix (n / radix)); discriminate E.
Qed.

(** The last [k] digits of a number, and the digits of the number
    divided by [16^k] before them. *)
Lemma toBase_split (k : nat) :
  forall n,
    k <= String.length (BigInteger.toBase 16 n) ->
    exists tail,
      BigInteger.toBase 16 n
      = (BigInteger.toBase 16 (n / 16 ^ N.of_nat k) ++ tail)%string
      /\ String.length tail = k.
Proof.
  induction k as [|k IH]; intros n Hk.
  - exists EmptyString. change (16 ^ N.of_nat 0)%N with 1%N.
    now rewrite N.div_1_r, append_nil_r.
  - assert (Hz : n <> 0%N).
    { intros ->. rewrite toBase_zero in Hk. cbn [String.length] in Hk. lia. }
    rewrite toBase_step in Hk |- * by lia.
    rewrite length_append in Hk. cbn [String.length] in Hk.
    destruct (IH (n / 16)%N) as (tail & E & L); [lia|].
    exists (tail ++ String (BigInteger.digit_char (n mod 16)) EmptyString)%string.
    rewrite Nat2N.inj_succ, N.pow_succ_r', <- N.Div0.div_div.
    rewrite E, append_assoc. split; [reflexivity|].
    rewrite length_append, L. cbn [String.length]. lia.
Qed.

Lemma hex_bytes_app (m : nat) :
  forall s1 s2,
    String.length s1 = 2 * m -> all_chars is_hex_char s1 = true ->
    Buf.hex_bytes m (s1 ++ s2) = Buf.hex_bytes m s1.
Proof.
  induction m as [|m IH]; intros s1 s2 L H.
  - destruct s1; [|discriminate L]. now destruct s2 as [|? [|? ?]].
  - destruct s1 as [|a [|c s1]]; cbn [String.length] in L; try lia.
    cbn [all_chars] in H.
    apply andb_true_iff in H as [Ha H]. apply andb_true_iff in H as [Hc H].
    cbn [append Buf.hex_bytes].
    unfold is_hex_char in Ha, Hc.
    destruct (Buf.hex_value a); [|discriminate Ha].
    destruct (Buf.hex_value c); [|discriminate Hc].
    f_equal. apply IH; [|exact H]. cbn [String.length] in L. lia.
Qed.

(** The digits of a balance of more than 32 hex digits, and the balance
    that has the first 32 of them. *)
Lemma overflow_digits (n : N) :
  (2 ^ 128 <= n)%N ->
  let hex := BigInteger.toString n 16 in
  let q := (n / 16 ^ N.of_nat (String.length hex - 32))%N in
  32 < String.length hex
  /\ (q < 2 ^ 128)%N
  /\ String.length (BigInteger.toString q 16) = 32
  /\ exists tail, hex = (BigInteger.toString q 16 ++ tail)%string.
Proof.
  intros Hn. cbv zeta.
  assert (Hz : n <> 0%N) by (intros ->; exact (Hn eq_refl)).
  assert (En : BigInteger.toString n 16 = BigInteger.toBase 16 n).
  { unfold BigInteger.toString.
    destruct (N.eqb_spec n 0); [contradiction|reflexivity]. }
  rewrite !En.
  pose proof (length_toBase_gt 16 32 ltac:(lia) n Hn) as L.
  destruct (toBase_split (String.length (BigInteger.toBase 16 n) - 32) n
              ltac:(lia)) as (tail & E & Lt).
  set (q := (n / 16 ^ N.of_nat (String.length (BigInteger.toBase 16 n) - 32))%N)
    in *.
  assert (Lq : String.length (BigInteger.toBase 16 q) = 32).
  { apply (f_equal String.length) in E. rewrite length_append, Lt in E. lia. }
  assert (Hq : q <> 0%N).
  { intros Q. rewrite Q, toBase_zero in Lq. discriminate Lq. }
  assert (Eq : BigInteger.toString q 16 = BigInteger.toBase 16 q).
  { unfold BigInteger.toString.
    destruct (N.eqb_spec q 0); [contradiction|reflexivity]. }
  rewrite Eq. split; [exact L|]. split; [|split; [exact Lq|now exists tail]].
  destruct (N.lt_ge_cases q (2 ^ 128)) as [|Hge]; [assumption|].
  pose proof (length_toBase_gt 16 32 ltac:(lia) q Hge). lia.
Qed.

Lemma well_formed_with_balance (coin : CoinConfig) (b : BlockData)
    (v : string) :
  well_formed_block coin b ->
  is_decimal_numeral v = true ->
  well_formed_block coin (with_balance b v).
Proof.
  intros (Hk & Hr & Hc & Hp & Hs & _) Hv. repeat split; assumption.
Qed.

(** X19. A balance of [2^128] or more is not refused.  Its hex rendering
    has more than 32 digits, of which the request carries the first 32:
    [signBlock] sends the very command, and returns the very result, of
    the descriptor whose balance is the given one divided by 16 to the
    number of digits in excess. *)
Theorem signBlock_overflow (coin : CoinConfig) (path : string)
    (b : BlockData) (segments : list Z) (v : string) (t : Transport) :
  (forall input, length (blake2b input 5) = 5) ->
  well_formed_path path segments ->
  well_formed_block coin b ->
  (2 ^ 128 <= numeral_value (balance b))%N ->
  is_decimal_numeral v = true ->
  numeral_value v
  = (numeral_value (balance b)
     / 16 ^ N.of_nat
              (String.length
                 (BigInteger.toString (numeral_value (balance b)) 16) - 32))%N ->
  (numeral_value v < 2 ^ 128)%N
  /\ (numeral_value v < numeral_value (balance b))%N
  /\ signBlock coin path b t = signBlock coin path (with_balance b v) t.
Proof.
  intros Hh Hpath Hb Hn Hv Ev.
  pose proof (well_formed_with_balance coin b v Hb Hv) as Hb'.
  destruct (overflow_digits _ Hn) as (L & Hq & Lq & tail & E).
  rewrite <- Ev in Hq, Lq, E.
  split; [exact Hq|]. split; [lia|].
  rewrite (signBlock_run _ _ _ _ _ Hh Hpath Hb),
    (signBlock_run _ _ _ _ _ Hh Hpath Hb').
  assert (Ecmd : sign_command coin segments b
                 = sign_command coin segments (with_balance b v)).
  { unfold sign_command. f_equal. f_equal.
    destruct Hb as (_ & _ & _ & _ & _ & Hnum).
    unfold balance_bytes, encodeBalance. cbn [balance with_balance].
    rewrite (bigInt_numeral_value _ Hnum), (bigInt_numeral_value _ Hv).
    cbn [bind].
    replace (String.length (BigInteger.toString (numeral_value (balance b)) 16)
             <? 32) with false by (symmetry; apply Nat.ltb_ge; lia).
    rewrite Lq. change (32 <? 32) with false. cbv iota.
    assert (Hc : all_chars is_hex_char
                   (BigInteger.toString (numeral_value v) 16) = true)
      by apply toString_hex_chars.
    rewrite <- (proj1 (hex_bytes_from_hex _ 16 (toString_hex_chars _))).
    rewrite E, (hex_bytes_app 16 _ tail Lq Hc).
    rewrite (proj1 (hex_bytes_from_hex _ 16 Hc)). reflexivity. }
  now rewrite Ecmd.
Qed.

(** X20. The Cache request in full: for a well-formed descriptor, with a
    balance of any size, and a signature of 128 hex characters,
    [cacheBlock] sends class [0xa1], instruction [0x03], parameters 0,
    and after the path, previous, link and representative fields the
    first 80 bytes of the encoded balance followed by the signature.
    Below [2^128] that is the 16 balance bytes and the whole signature;
    when the encoded balance takes more than 16 bytes, what it takes in
    excess is cut off the end of the signature. *)
Theorem cacheBlock_request (coin : CoinConfig) (path : string)
    (b : BlockData) (segments : list Z) (signature : string)
    (t : Transport) :
  (forall input, length (blake2b input 5) = 5) ->
  well_formed_path path segments ->
  well_formed_block coin b ->
  is_hex_string 128 signature = true ->
  snd (cacheBlock coin path b signature t)
  = after_exchange t
      {| cla := 0xa1; ins := 0x03; p1 := 0x00; p2 := 0x00;
         data := block_prefix coin segments b
                 ++ firstn 80 (balance_bytes b ++ Buf.from_hex signature) |}
  /\ length (block_prefix coin segments b
             ++ firstn 80 (balance_bytes b ++ Buf.from_hex signature))
     = 1 + 4 * length segments + 176
  /\ ((numeral_value (balance b) < 2 ^ 128)%N ->
      firstn 80 (balance_bytes b ++ Buf.from_hex signature)
      = balance_bytes b ++ Buf.from_hex signature)
  /\ (forall excess,
        length (balance_bytes b) = 16 + excess -> excess <= 64 ->
        firstn 80 (balance_bytes b ++ Buf.from_hex signature)
        = balance_bytes b ++ firstn (64 - excess) (Buf.from_hex signature)).
Proof.
  intros Hh Hpath Hb Hsig.
  rewrite (cacheBlock_run _ _ _ _ _ _ Hh Hpath Hb Hsig).
  pose proof (length_block_prefix coin segments b Hh Hb) as Lp.
  destruct Hb as (_ & _ & _ & _ & _ & Hnum).
  destruct (length_balance_bytes b Hnum) as [Lge Leq].
  pose proof (proj2 (hex_bytes_from_hex signature 16
                       (is_hex_string_chars _ _ Hsig))) as Ls.
  rewrite (is_hex_string_length _ _ Hsig) in Ls.
  change (128 / 2) with 64 in Ls.
  split; [|split; [|split]].
  - unfold cache_command. destruct (device t _ _); reflexivity.
  - rewrite length_app, Lp, length_firstn, length_app, Ls. lia.
  - intros Hlt. apply firstn_all2. rewrite length_app, Ls, (Leq Hlt). lia.
  - intros excess Le Hex. rewrite firstn_app, firstn_all2 by lia.
    f_equal. f_equal. lia.
Qed.

(** *** The app query *)

Lemma getAppConfiguration_run (coin : CoinConfig) (t : Transport) :
  snd (getAppConfiguration coin t) = after_exchange t app_info_command
  /\ (forall e,
        fst (getAppConfiguration coin t) = Throw e ->
        device t (exchanged t) app_info_command = Throw e
        \/ (e = RangeError
            /\ exists response,
                 device t (exchanged t) app_info_command = Ok response
                 /\ length response < 3)).
Proof.
  destruct (device t (exchanged t) app_info_command) as [response|e'] eqn:D.
  - destruct response as [|major [|minor [|patch rest]]].
    4: { rewrite (getAppConfiguration_parse coin t _ _ _ _ D).
         split; [reflexivity|discriminate]. }
    all: unfold getAppConfiguration; cbv zeta; unfold bindM;
      rewrite send_run; change (Buf.alloc 0) with (@nil Z);
      fold app_info_command; rewrite D;
      (split; [reflexivity|]); intros e [= <-]; right;
      (split; [reflexivity|]); eexists; (split; [reflexivity|]);
      cbn [length]; lia.
  - unfold getAppConfiguration. cbv zeta. unfold bindM.
    rewrite send_run. change (Buf.alloc 0) with (@nil Z).
    fold app_info_command. rewrite D.
    split; [reflexivity|]. intros e [= <-]. now left.
Qed.

(** X21. The app query is not guarded: whatever app the session has on
    record, and whatever the device answers, [getAppConfiguration] of
    the session hands the device exactly the app-info command (class
    [0xa1], instruction [0x01], no payload) and leaves the coin
    configuration alone. *)
Theorem app_query_always_sent (this : BaseAPI) :
  transport (snd (BaseAPI_getAppConfiguration this))
  = after_exchange (transport this)
      {| cla := 0xa1; ins := 0x01; p1 := 0x00; p2 := 0x00; data := [] |}
  /\ coin (snd (BaseAPI_getAppConfiguration this)) = coin this.
Proof.
  unfold BaseAPI_getAppConfiguration, bindM, on_transport.
  pose proof (proj1 (getAppConfiguration_run (coin this) (transport this)))
    as E.
  destruct (getAppConfiguration _ _) as [[conf|e] t']; cbn [snd] in *;
    subst t'; split; reflexivity.
Qed.

(** X22. A failed app query changes nothing of what the session has on
    record: the recorded app name stays, so the guard decides after the
    failure as it did before.  The query fails only with the error of
    the device or, when the response has fewer than three bytes, with a
    range error. *)
Theorem app_query_failure (this : BaseAPI) (e : exn) :
  fst (BaseAPI_getAppConfiguration this) = Throw e ->
  _appCoin (snd (BaseAPI_getAppConfiguration this)) = _appCoin this
  /\ fst (_assertCorrectCoin (snd (BaseAPI_getAppConfiguration this)))
     = fst (_assertCorrectCoin this)
  /\ (device (transport this) (exchanged (transport this)) app_info_command
      = Throw e
      \/ (e = RangeError
          /\ exists response,
               device (transport this) (exchanged (transport this))
                 app_info_command = Ok response
               /\ length response < 3)).
Proof.
  unfold BaseAPI_getAppConfiguration, bindM, on_transport.
  pose proof (proj2 (getAppConfiguration_run (coin this) (transport this)) e)
    as E.
  destruct (getAppConfiguration _ _) as [[conf|e'] t']; cbn [fst snd] in *;
    intros H; [discriminate H|].
  split; [reflexivity|]. split; [|now apply E].
  unfold _assertCorrectCoin. cbn [_appCoin coin].
  destruct (_appCoin this) as [appCoin|]; [|reflexivity].
  destruct (negb _); reflexivity.
Qed.

(** *** Nano.js *)

Lemma Nano_decodeAddress_eq (a : string) :
  Nano_decodeAddress a = decodeAddress a (addressPrefixes nano_coin).
Proof. reflexivity. Qed.

(** X23. Nano.js and the later files agree outside the classifier: its
    constructor sets the scramble key that [BaseAPI] sets, its
    address decoder is [decodeAddress] with the prefixes [nano_] and
    [xrb_], its balance codec is that of util.js, its [getAddress] is
    that of api.js, and its [getAppConfiguration] sends the same
    command and returns the same version string, without the name of
    the coin. *)
Theorem Nano_agrees_with_api (a v path : string) (boolDisplay : bool)
    (coin : CoinConfig) (t : Transport) :
  Nano_constructor t = transport (BaseAPI_constructor t coin)
  /\ Nano_decodeAddress a = decodeAddress a ["nano_"; "xrb_"]
  /\ Nano_encodeBalance v = encodeBalance v
  /\ Nano_decodeBalance v = decodeBalance v
  /\ Nano_getAddress path boolDisplay t = getAddress coin path boolDisplay t
  /\ snd (Nano_getAppConfiguration t) = snd (getAppConfiguration coin t)
  /\ fst (Nano_getAppConfiguration t)
     = match fst (getAppConfiguration coin t) with
       | Ok conf => Ok {| nanoVersion := version conf |}
       | Throw e => Throw e
       end.
Proof.
  repeat (split; [reflexivity|]).
  assert (N : Nano_getAppConfiguration t
              = match device t (exchanged t) app_info_command with
                | Ok (major :: minor :: patch :: _) =>
                    (Ok {| nanoVersion :=
                             (Number_toString major ++ "."
                              ++ Number_toString minor ++ "."
                              ++ Number_toString patch)%string |},
                     after_exchange t app_info_command)
                | Ok _ => (Throw RangeError, after_exchange t app_info_command)
                | Throw e => (Throw e, after_exchange t app_info_command)
                end).
  { unfold Nano_getAppConfiguration. cbv zeta. unfold bindM.
    rewrite send_run. change (Buf.alloc 0) with (@nil Z).
    fold app_info_command.
    destruct (device t _ _) as [[|major [|minor [|patch rest]]]|e];
      reflexivity. }
  rewrite N.
  destruct (device t (exchanged t) app_info_command) as [response|e] eqn:D.
  - destruct response as [|major [|minor [|patch rest]]].
    4: { rewrite (getAppConfiguration_parse coin t _ _ _ _ D).
         split; reflexivity. }
    all: unfold getAppConfiguration; cbv zeta; unfold bindM;
      rewrite send_run; change (Buf.alloc 0) with (@nil Z);
      fold app_info_command; rewrite D; split; reflexivity.
  - unfold getAppConfiguration. cbv zeta. unfold bindM.
    rewrite send_run. change (Buf.alloc 0) with (@nil Z).
    fold app_info_command. rewrite D. split; reflexivity.
Qed.

Lemma Nano_balance_length (b : BlockData) (keys : BlockKeys) :
  Nano_processBlockData b = Ok keys -> String.length (balance b) = 32.
Proof.
  unfold Nano_processBlockData.
  destruct (truthy (previousBlock b) && _); [discriminate|].
  destruct (Nano_decodeAddress (representative b)) as [[key|]|e];
    cbn [bind]; [|discriminate|discriminate].
  destruct (Nat.eqb_spec (String.length (balance b)) 32) as [L|L];
    cbn [negb]; [intros _; exact L|discriminate].
Qed.

Lemma Nano_processBlockData_agrees (b : BlockData) (keys : BlockKeys) :
  String.length (balance b) = 32 ->
  balance_pattern_test (balance b) = true ->
  (Nano_processBlockData b = Ok keys
   <-> processBlockData nano_coin b = Ok keys).
Proof.
  intros L T. unfold Nano_processBlockData, processBlockData.
  rewrite L, T, !Nano_decodeAddress_eq.
  change (32 =? 32) with true. cbn [negb].
  destruct (truthy (previousBlock b) && _); [split; discriminate|].
  destruct (decodeAddress (representative b) _) as [[key|]|e];
    cbn [bind]; [|split; discriminate|reflexivity].
  destruct (truthy (sourceBlock b) && _); [split; discriminate|].
  destruct (if truthy (recipient b) then _ else _) as [rkey|e];
    cbn [bind]; [|reflexivity].
  destruct (truthy (recipient b) && _); [split; discriminate|].
  destruct (negb _ && _ && _ && _); [split; discriminate|reflexivity].
Qed.

(** X24. The classifier of Nano.js accepts a descriptor only when its
    balance has exactly 32 characters; on descriptors with such a
    balance that contains a digit it agrees with the classifier of
    api.js for Nano. *)
Theorem Nano_processBlockData_balance (b : BlockData) (keys : BlockKeys) :
  (Nano_processBlockData b = Ok keys -> String.length (balance b) = 32)
  /\ (String.length (balance b) = 32 ->
      balance_pattern_test (balance b) = true ->
      (Nano_processBlockData b = Ok keys
       <-> processBlockData nano_coin b = Ok keys)).
Proof.
  split.
  - apply Nano_balance_length.
  - apply Nano_processBlockData_agrees.
Qed.

(** X25. [signBlock] and [cacheBlock] of Nano.js hand the device nothing
    unless the balance has exactly 32 characters: for a balance of any
    other length, the 33-digit one of the documentation included, they
    throw with the transport untouched. *)
Theorem Nano_balance_refused (path : string) (b : BlockData)
    (signature : string) (t : Transport) :
  String.length (balance b) <> 32 ->
  (exists e, Nano_signBlock path b t = (Throw e, t))
  /\ (exists e, Nano_cacheBlock path b signature t = (Throw e, t)).
Proof.
  intros H.
  destruct (Nano_processBlockData b) as [keys|e] eqn:P.
  - elim H. exact (Nano_balance_length b keys P).
  - split; exists e.
    + unfold Nano_signBlock. cbv zeta. now apply bindM_pure_throw.
    + unfold Nano_cacheBlock. cbv zeta. now apply bindM_pure_throw.
Qed.

(** X26. On a descriptor that the classifier of Nano.js accepts and
    whose balance contains a digit, [signBlock] and [cacheBlock] of
    Nano.js do what those of api.js do for the coin Nano: the same
    command to the device, the same result. *)
Theorem Nano_requests_agree (path : string) (b : BlockData)
    (keys : BlockKeys) (signature : string) (t : Transport) :
  Nano_processBlockData b = Ok keys ->
  balance_pattern_test (balance b) = true ->
  Nano_signBlock path b t = signBlock nano_coin path b t
  /\ Nano_cacheBlock path b signature t
     = cacheBlock nano_coin path b signature t.
Proof.
  intros P T.
  pose proof (proj1 (Nano_processBlockData_agrees b keys
                       (Nano_balance_length b keys P) T) P) as P'.
  split.
  - unfold Nano_signBlock, signBlock. cbv zeta.
    rewrite (bindM_pure _ _ _ _ P), (bindM_pure _ _ _ _ P'). reflexivity.
  - unfold Nano_cacheBlock, cacheBlock. cbv zeta.
    rewrite (bindM_pure _ _ _ _ P), (bindM_pure _ _ _ _ P'). reflexivity.
Qed.

(** *** What the bytes of a request mean *)

Lemma hex_value_digit (c : ascii) :
  is_hex_char c = true ->
  exists d, BigInteger.digit_value c = Some d /\ (d < 16)%N
            /\ Buf.hex_value c = Some (Z.of_N d).
Proof.
  destruct c as [[] [] [] [] [] [] [] []]; try discriminate; intros _;
    eexists; (split; [reflexivity|]); split; reflexivity.
Qed.

Lemma parseBase_hex_bytes (m : nat) :
  forall s acc,
    String.length s = 2 * m -> all_chars is_hex_char s = true ->
    exists n,
      BigInteger.parseBase 16 acc s = Ok n
      /\ fold_left (fun a x => a * 256 + x)%Z (Buf.hex_bytes m s) (Z.of_N acc)
         = Z.of_N n
      /\ is_byte_buffer (Buf.hex_bytes m s).
Proof.
  induction m as [|m IH]; intros s acc L H.
  - destruct s; [|discriminate L]. exists acc. repeat split. constructor.
  - destruct s as [|a [|c s]]; cbn [String.length] in L; try lia.
    cbn [all_chars] in H.
    apply andb_true_iff in H as [Ha H]. apply andb_true_iff in H as [Hc H].
    destruct (hex_value_digit a Ha) as (da & Va & La & Ba).
    destruct (hex_value_digit c Hc) as (dc & Vc & Lc & Bc).
    destruct (IH s ((acc * 16 + da) * 16 + dc)%N ltac:(lia) H)
      as (n & Hn & Hv & Hb).
    exists n. cbn [BigInteger.parseBase Buf.hex_bytes].
    rewrite Va, Vc, Ba, Bc.
    destruct (N.ltb_spec da 16); [|lia]. destruct (N.ltb_spec dc 16); [|lia].
    split; [exact Hn|]. cbn [fold_left]. split.
    + rewrite <- Hv. f_equal. lia.
    + constructor; [lia|exact Hb].
Qed.

(** X27. The balance on the wire: below [2^128] the balance bytes of a
    block request are 16 bytes that, read as one big-endian integer, are
    the amount the decimal balance denotes. *)
Theorem balance_bytes_big_endian (b : BlockData) :
  is_decimal_numeral (balance b) = true ->
  (numeral_value (balance b) < 2 ^ 128)%N ->
  length (balance_bytes b) = 16
  /\ firstn 16 (balance_bytes b) = balance_bytes b
  /\ is_byte_buffer (balance_bytes b)
  /\ be_value (balance_bytes b) = Z.of_N (numeral_value (balance b)).
Proof.
  intros Hnum Hlt.
  pose proof (proj2 (length_balance_bytes b Hnum) Hlt) as L.
  split; [exact L|]. split; [apply firstn_all2; lia|].
  destruct (encodeBalance_numeral _ Hnum) as (hex & Hhex & Hc & _ & Hv).
  destruct (encodeBalance_small _ _ (bigInt_numeral_value _ Hnum) Hlt)
    as (hex' & Hhex' & Hs).
  assert (hex' = hex) by congruence. subst hex'.
  unfold balance_bytes, be_value. rewrite Hhex. unfold Buf.from_hex.
  rewrite (is_hex_string_length _ _ Hs). change (32 / 2) with 16.
  destruct (parseBase_hex_bytes 16 hex 0%N (is_hex_string_length _ _ Hs) Hc)
    as (n & Hn & Hf & Hb).
  split; [exact Hb|].
  unfold BigInteger.bigInt in Hv. change (Z.of_N 0) with 0%Z in Hf.
  rewrite Hf. congruence.
Qed.

Lemma be_value_uint32 (v : Z) : is_uint32 v -> be_value (uint32_be v) = v.
Proof.
  unfold is_uint32, uint32_be, be_value. cbn [fold_left]. intros H.
  change (2 ^ 32)%Z with 4294967296%Z in *.
  change (2 ^ 24)%Z with 16777216%Z in *.
  change (2 ^ 16)%Z with 65536%Z in *.
  change (2 ^ 8)%Z with 256%Z in *.
  Z.to_euclidean_division_equations. lia.
Qed.

Lemma read_segments_written (segments : list Z) (tail : Buffer) :
  Forall is_uint32 segments ->
  read_segments (length segments) (flat_map uint32_be segments ++ tail)
  = segments.
Proof.
  induction 1 as [|v segments Hv _ IH]; [reflexivity|].
  cbn [length flat_map]. rewrite <- app_assoc.
  change (uint32_be v ++ flat_map uint32_be segments ++ tail)
    with ((v / 2 ^ 24) mod 256 :: (v / 2 ^ 16) mod 256
          :: (v / 2 ^ 8) mod 256 :: v mod 256
          :: flat_map uint32_be segments ++ tail)%Z.
  cbn [read_segments]. rewrite IH. f_equal.
  exact (be_value_uint32 v Hv).
Qed.

Lemma read_path_written (segments : list Z) (tail : Buffer) :
  Forall is_uint32 segments ->
  read_path (path_field segments ++ tail) = segments.
Proof.
  intros H. unfold path_field, read_path. cbn [app].
  rewrite Nat2Z.id. now apply read_segments_written.
Qed.

Lemma after_exchange_inj (t : Transport) (c1 c2 : APDU) :
  after_exchange t c1 = after_exchange t c2 -> c1 = c2.
Proof.
  intros E. apply (f_equal exchanged) in E. cbn [after_exchange exchanged] in E.
  apply app_inv_head in E. now injection E.
Qed.

Lemma getAddress_sent (coin : CoinConfig) (path : string)
    (boolDisplay : bool) (segments : list Z) (t : Transport) :
  well_formed_path path segments ->
  snd (getAddress coin path boolDisplay t)
  = after_exchange t (address_command segments boolDisplay).
Proof.
  intros Hwf. rewrite (getAddress_exchange _ _ _ _ _ Hwf).
  destruct (device t _ _); reflexivity.
Qed.

Lemma signBlock_sent (coin : CoinConfig) (path : string) (b : BlockData)
    (segments : list Z) (t : Transport) :
  (forall input, length (blake2b input 5) = 5) ->
  well_formed_path path segments ->
  well_formed_block coin b ->
  snd (signBlock coin path b t)
  = after_exchange t (sign_command coin segments b).
Proof.
  intros Hh Hwf Hb. rewrite (signBlock_run _ _ _ _ _ Hh Hwf Hb).
  destruct (device t _ _); reflexivity.
Qed.


Lemma hex_value_lower (c : ascii) :
  Buf.hex_value (lower_digit c) = Buf.hex_value c.
Proof. destruct c as [[] [] [] [] [] [] [] []]; reflexivity. Qed.

Lemma hex_bytes_lower (n : nat) :
  forall s, Buf.hex_bytes n (map_string lower_digit s) = Buf.hex_bytes n s.
Proof.
  induction n as [|n IH]; intros s.
  - now destruct s as [|a [|c s]].
  - destruct s as [|a [|c s]]; try reflexivity.
    cbn [map_string Buf.hex_bytes]. now rewrite !hex_value_lower, IH.
Qed.

Lemma from_hex_lower (s : string) :
  Buf.from_hex (map_string lower_digit s) = Buf.from_hex s.
Proof.
  unfold Buf.from_hex. now rewrite length_map_string, hex_bytes_lower.
Qed.

Lemma is_hex_string_lower (n : nat) (s : string) :
  is_hex_string n s = true ->
  is_hex_string n (map_string lower_digit s) = true.
Proof.
  unfold is_hex_string. rewrite length_map_string.
  intros H. apply andb_true_iff in H as [L H]. rewrite L. cbn [andb].
  clear L. induction s as [|c s IH]; [reflexivity|].
  cbn [all_chars map_string] in *. apply andb_true_iff in H as [Hc H].
  rewrite (IH H), andb_true_r. unfold is_hex_char in *.
  now rewrite hex_value_lower.
Qed.

Lemma well_formed_lower_case (coin : CoinConfig) (b : BlockData) :
  well_formed_block coin b -> well_formed_block coin (lower_case_hashes b).
Proof.
  intros ((kind & Hk) & Hr & Hc & Hp & Hs & Hn).
  split; [exists kind|split; [exact Hr|split; [exact Hc|split; [|split]]]].
  - unfold block_kind, lower_case_hashes in *.
    cbn [previousBlock sourceBlock recipient].
    destruct (previousBlock b), (sourceBlock b); exact Hk.
  - cbn [lower_case_hashes previousBlock]. intros h E.
    destruct (previousBlock b) as [h0|]; [|discriminate E].
    injection E as <-. now apply is_hex_string_lower, Hp.
  - cbn [lower_case_hashes sourceBlock]. intros h E.
    destruct (sourceBlock b) as [h0|]; [|discriminate E].
    injection E as <-. now apply is_hex_string_lower, Hs.
  - exact Hn.
Qed.

(** X29. The case of the hex digits of the hashes does not matter: for a
    well-formed descriptor, [signBlock] and [cacheBlock] send the same
    command and give the same result whether [previousBlock] and
    [sourceBlock] are written in upper, lower or mixed case. *)
Theorem hash_case_insensitive (coin : CoinConfig) (path : string)
    (b : BlockData) (segments : list Z) (signature : string)
    (t : Transport) :
  (forall input, length (blake2b input 5) = 5) ->
  well_formed_path path segments ->
  well_formed_block coin b ->
  is_hex_string 128 signature = true ->
  signBlock coin path (lower_case_hashes b) t = signBlock coin path b t
  /\ cacheBlock coin path (lower_case_hashes b) signature t
     = cacheBlock coin path b signature t.
Proof.
  intros Hh Hpath Hb Hsig.
  pose proof (well_formed_lower_case coin b Hb) as Hb'.
  assert (P : block_prefix coin segments (lower_case_hashes b)
              = block_prefix coin segments b).
  { unfold block_prefix, previous_field, link_field, lower_case_hashes.
    cbn [previousBlock sourceBlock recipient representative].
    destruct (previousBlock b), (sourceBlock b); cbn [option_map];
      now rewrite ?from_hex_lower. }
  split.
  - rewrite (signBlock_run _ _ _ _ _ Hh Hpath Hb),
      (signBlock_run _ _ _ _ _ Hh Hpath Hb').
    unfold sign_command. now rewrite P.
  - rewrite (cacheBlock_run _ _ _ _ _ _ Hh Hpath Hb Hsig),
      (cacheBlock_run _ _ _ _ _ _ Hh Hpath Hb' Hsig).
    unfold cache_command. now rewrite P.
Qed.

End Package.

(** ** The code on the data of its documentation

    The statements below run the embedding with the models of
    nano-base32 and BLAKE2b in place of the imported packages. *)

Lemma length_le_bytes (n : nat) (w : Z) : length (Blake2b.le_bytes n w) = n.
Proof. revert w. induction n; intros w; simpl; congruence. Qed.

Lemma length_compress (h block : list Z) (t : Z) (last : bool) :
  length (Blake2b.compress h block t last) = 8.
Proof. unfold Blake2b.compress. now rewrite length_map, length_seq. Qed.

Lemma length_absorb (fuel : nat) :
  forall h t msg,
    length h = 8 -> length (Blake2b.absorb fuel h t msg) = 8.
Proof.
  induction fuel as [|fuel IH]; intros h t msg Hh; [exact Hh|].
  cbn [Blake2b.absorb]. destruct (length msg <=? 128).
  - apply length_compress.
  - apply IH, length_compress.
Qed.

Lemma length_hash_bytes (h : list Z) :
  length (flat_map (Blake2b.le_bytes 8) h) = 8 * length h.
Proof.
  induction h as [|w h IH]; [reflexivity|].
  cbn [flat_map]. rewrite length_app, length_le_bytes, IH. simpl. lia.
Qed.

(** BLAKE2b returns as many bytes as it is asked for, up to 64. *)
Lemma blake2b_length (input : Buffer) (outlen : nat) :
  outlen <= 64 -> length (Blake2b.blake2b input outlen) = outlen.
Proof.
  intros H. unfold Blake2b.blake2b.
  rewrite length_firstn, length_hash_bytes, length_absorb; [lia|reflexivity].
Qed.

(** The address of the documentation decodes, its checksum being the
    reversed 5-byte hash of its key. *)
Example decodeAddress_doc :
  decodeAddress NanoBase32.decode Blake2b.blake2b
    ("xrb_" ++ doc_address) (addressPrefixes nano_coin)
  = Ok (Some (Buf.from_hex
          "bd6267d6ecd8038327d2bcc0850bdf8f56ec0414912207e81bcf90dfac8a4aaa")).
Proof. vm_compute. reflexivity. Qed.

Example encodeBalance_doc :
  encodeBalance "14000000000000000000000000"
  = Ok "00000000000b949d854f34fece000000".
Proof. vm_compute. reflexivity. Qed.

Example decodeBalance_doc :
  decodeBalance "00000000000B949D854F34FECE000000"
  = Ok "14000000000000000000000000".
Proof. vm_compute. reflexivity. Qed.

(** C4, where the code departs from it. The remainder [1000...0] has the
    right length but holds the character ['0'], which is not in the
    base-32 alphabet; the pattern of [decodeAddress] lets it through, the
    base-32 decoder throws, and so does [decodeAddress] instead of
    returning null. *)
Theorem decodeAddress_zero_digit (blake2b : Buffer -> nat -> Buffer) :
  let address := ("xrb_1" ++ repeat_string "0" 59)%string in
  NanoBase32.indexOf NanoBase32.alphabet "0" = None
  /\ address_pattern_test (strip_prefix address ["nano_"; "xrb_"]) = true
  /\ decodeAddress NanoBase32.decode blake2b address ["nano_"; "xrb_"]
     = Throw (Error "Invalid character found: 0").
Proof. vm_compute. repeat split. Qed.

(** The same for an address with a prefix that is not accepted: the
    prefix stays, the pattern matches further on, the decoder throws on
    the underscore. *)
Example decodeAddress_foreign_prefix (blake2b : Buffer -> nat -> Buffer) :
  decodeAddress NanoBase32.decode blake2b ("ban_" ++ doc_address)
    ["nano_"; "xrb_"]
  = Throw (Error "Invalid character found: _").
Proof. vm_compute. reflexivity. Qed.

(** C5, where the code departs from it. The balance ["1a"] is not a
    decimal numeral, yet the classifier accepts the descriptor: its test
    is satisfied by the digit. *)
Theorem processBlockData_lax_balance :
  is_decimal_numeral "1a" = false
  /\ processBlockData NanoBase32.decode Blake2b.blake2b nano_coin
       (with_balance openBlockData "1a")
     = Ok {| representativePublicKey :=
               Buf.from_hex
                 "bd6267d6ecd8038327d2bcc0850bdf8f56ec0414912207e81bcf90dfac8a4aaa";
             recipientPublicKey := None |}.
Proof. vm_compute. split; reflexivity. Qed.

(** C6 refuted as stated: a signature of 128 characters that are not
    hexadecimal passes the check; the request is sent, with 64 zero bytes
    where the signature belongs. *)
Lemma cacheBlock_non_hex_signature :
  let signature := repeat_string "z" 128 in
  let sent :=
    cacheBlock NanoBase32.decode Blake2b.blake2b doc_path nano_coin
      "44'/165'/0'" sendBlockData signature (answering []) in
  is_hex_string 128 signature = false
  /\ fst sent = Ok tt
  /\ map data (exchanged (snd sent))
     = [sign_payload NanoBase32.decode Blake2b.blake2b nano_coin
          [0x8000002C; 0x800000A5; 0x80000000]%Z sendBlockData
        ++ Buf.alloc 64].
Proof. vm_compute. repeat split. Qed.


(** The request of the documentation's open block: the zero previous
    field, the source hash, the representative key, the balance. *)
Example signBlock_open_doc :
  map data
    (exchanged
       (snd (signBlock NanoBase32.decode Blake2b.blake2b doc_path nano_coin
               "44'/165'/0'" openBlockData (answering []))))
  = [Buf.from_hex
       ("03" ++ "8000002c" ++ "800000a5" ++ "80000000"
        ++ "0000000000000000000000000000000000000000000000000000000000000000"
        ++ "06b95c8a7ec4116e5bd907cd6dc65d310e065992a2e1d02f337d1a8308debc14"
        ++ "bd6267d6ecd8038327d2bcc0850bdf8f56ec0414912207e81bcf90dfac8a4aaa"
        ++ "000004ee2d6d415b85acef8100000000")].
Proof. vm_compute. reflexivity. Qed.

(** *** The theorems at the data of the documentation *)

Lemma block_request_payload_witness :
  exists p2,
    exchanged
      (snd (signBlock NanoBase32.decode Blake2b.blake2b doc_path nano_coin
              "44'/165'/0'" sendBlockData (answering [])))
    = exchanged (answering [])
      ++ [{| cla := 0xa1; ins := 0x04; p1 := 0x00; p2 := p2;
             data := sign_payload NanoBase32.decode Blake2b.blake2b nano_coin
                       [0x8000002C; 0x800000A5; 0x80000000]%Z
                       sendBlockData |}].
Proof.
  refine (proj1 (proj2
    (block_request_payload NanoBase32.decode Blake2b.blake2b doc_path
       nano_coin "44'/165'/0'" sendBlockData
       [0x8000002C; 0x800000A5; 0x80000000]%Z
       (Buf.from_hex
          "bd6267d6ecd8038327d2bcc0850bdf8f56ec0414912207e81bcf90dfac8a4aaa")
       SendBlock (repeat_string "ab" 64) (answering [])
       _ _ _ _ _ _ _ _ _ _ _ _))).
  - intros input. apply blake2b_length. lia.
  - reflexivity.
  - simpl. lia.
  - repeat constructor; unfold is_uint32; lia.
  - reflexivity.
  - vm_compute. reflexivity.
  - intros r [= <-]. eexists. vm_compute. reflexivity.
  - intros h [= <-]. reflexivity.
  - intros h H. discriminate H.
  - reflexivity.
  - reflexivity.
  - reflexivity.
Defined.

Lemma processBlockData_shapes_witness :
  (exists keys,
      processBlockData NanoBase32.decode Blake2b.blake2b nano_coin
        sendBlockData = Ok keys)
  <-> (exists kind, block_kind sendBlockData = Some kind).
Proof.
  refine (proj1
    (processBlockData_shapes NanoBase32.decode Blake2b.blake2b nano_coin
       sendBlockData
       (Buf.from_hex
          "bd6267d6ecd8038327d2bcc0850bdf8f56ec0414912207e81bcf90dfac8a4aaa")
       _ _ _ _ _)).
  - vm_compute. reflexivity.
  - intros r [= <-]. eexists. vm_compute. reflexivity.
  - intros h [= <-]. reflexivity.
  - intros h H. discriminate H.
  - reflexivity.
Defined.

Lemma balance_round_trip_witness :
  exists hex,
    encodeBalance "0014000000000000000000000000" = Ok hex
    /\ String.length hex = 32
    /\ hex = (repeat_string "0"
                (32 - String.length
                        (BigInteger.toString 14000000000000000000000000 16))
              ++ BigInteger.toString 14000000000000000000000000 16)%string
    /\ decodeBalance hex = Ok "14000000000000000000000000".
Proof.
  apply (balance_round_trip "0014000000000000000000000000").
  - reflexivity.
  - reflexivity.
Defined.

Lemma encodeBalance_overflow_witness :
  encodeBalance "340282366920938463463374607431768211456"
  = Ok (BigInteger.toString (2 ^ 128) 16)
  /\ 32 < String.length (BigInteger.toString (2 ^ 128) 16)
  /\ BigInteger.bigInt (BigInteger.toString (2 ^ 128) 16) 16 = Ok (2 ^ 128)%N.
Proof.
  apply (encodeBalance_overflow "340282366920938463463374607431768211456").
  - reflexivity.
  - vm_compute. discriminate.
Defined.

Lemma cacheBlock_signature_length_witness :
  cacheBlock NanoBase32.decode Blake2b.blake2b doc_path nano_coin
    "44'/165'/0'" sendBlockData "abcd" (answering [])
  = (Throw (Error "`signature` must be a 128 character hex string"),
     answering []).
Proof.
  refine (cacheBlock_signature_length NanoBase32.decode Blake2b.blake2b
            doc_path nano_coin "44'/165'/0'" sendBlockData
            {| representativePublicKey :=
                 Buf.from_hex
                   "bd6267d6ecd8038327d2bcc0850bdf8f56ec0414912207e81bcf90dfac8a4aaa";
               recipientPublicKey :=
                 Some (Buf.from_hex
                   "bd6267d6ecd8038327d2bcc0850bdf8f56ec0414912207e81bcf90dfac8a4aaa")
            |}
            "abcd" (answering []) _ _).
  - vm_compute. reflexivity.
  - simpl. lia.
Defined.

Lemma assertCorrectCoin_spec_witness :
  (let fresh :=
     run_calls NanoBase32.decode Blake2b.blake2b doc_path
       [CallGetAddress "44'/165'/0'" false]
       (BaseAPI_constructor (answering []) nano_coin) in
   _appCoin fresh = None /\ _assertCorrectCoin fresh = (Ok tt, fresh))
  /\ (let asked :=
        snd (BaseAPI_getAppConfiguration
               (BaseAPI_constructor
                  (answering [1; 0; 0; 6; 66; 97; 110; 97; 110; 111]%Z)
                  nano_coin)) in
      _appCoin asked = Some "Banano"
      /\ _assertCorrectCoin asked
         = (Throw (wrong_app "Nano" "Banano"), asked))
  /\ (let asked :=
        snd (BaseAPI_getAppConfiguration
               (Banano_constructor
                  (answering [1; 0; 0; 6; 66; 97; 110; 97; 110; 111]%Z))) in
      _appCoin asked = Some "Banano"
      /\ _assertCorrectCoin asked = (Ok tt, asked)).
Proof.
  pose proof (assertCorrectCoin_spec NanoBase32.decode Blake2b.blake2b
                doc_path) as (Never & Asked & _ & _).
  split; [|split].
  - refine (Never (answering []) nano_coin
              [CallGetAddress "44'/165'/0'" false] _).
    reflexivity.
  - destruct (Asked (BaseAPI_constructor
                       (answering [1; 0; 0; 6; 66; 97; 110; 97; 110; 111]%Z)
                       nano_coin)
                1%Z 0%Z 0%Z 6%Z [66; 97; 110; 97; 110; 111]%Z []
                eq_refl eq_refl) as (_ & Hname & _ & _ & Hwrong).
    split; [exact Hname|]. apply Hwrong. discriminate.
  - destruct (Asked (Banano_constructor
                       (answering [1; 0; 0; 6; 66; 97; 110; 97; 110; 111]%Z))
                1%Z 0%Z 0%Z 6%Z [66; 97; 110; 97; 110; 111]%Z []
                eq_refl eq_refl) as (_ & Hname & _ & Hright & _).
    split; [exact Hname|]. apply Hright. reflexivity.
Defined.

Lemma getAppConfiguration_response_witness :
  exists name,
    fst (getAppConfiguration nano_coin
           (answering [1; 2; 13; 4; 78; 97; 110; 111]%Z))
    = Ok {| version := "1.2.13"; appCoinName := name |}
    /\ name = "Nano".
Proof.
  destruct (getAppConfiguration_response nano_coin
              (answering [1; 2; 13; 4; 78; 97; 110; 111]%Z)
              1 2 13 [4; 78; 97; 110; 111]%Z eq_refl)
    as (name & Hconf & Hname & _).
  exists name. split; [exact Hconf|].
  exact (proj1 (Hname 4%Z [78; 97; 110; 111]%Z [] eq_refl eq_refl)).
Defined.


(** *** The further properties at the data of the documentation *)

Lemma doc_path_well_formed :
  well_formed_path doc_path "44'/165'/0'"
    [0x8000002C; 0x800000A5; 0x80000000]%Z.
Proof.
  split; [reflexivity|]. split; [simpl; lia|].
  repeat constructor; unfold is_uint32; lia.
Defined.

Lemma sendBlockData_well_formed :
  well_formed_block NanoBase32.decode Blake2b.blake2b nano_coin sendBlockData.
Proof.
  split; [eexists; reflexivity|].
  split; [eexists; vm_compute; reflexivity|].
  split; [intros r [= <-]; eexists; vm_compute; reflexivity|].
  split; [intros h [= <-]; reflexivity|].
  split; [intros h H; discriminate H|reflexivity].
Defined.

Lemma checksum_length (input : Buffer) :
  length (Blake2b.blake2b input 5) = 5.
Proof. apply blake2b_length. lia. Defined.

Lemma getAddress_request_witness :
  snd (getAddress doc_path nano_coin "44'/165'/0'" true (answering []))
  = after_exchange (answering [])
      {| cla := 0xa1; ins := 0x02; p1 := 0x01; p2 := 0x00;
         data := [3; 128; 0; 0; 44; 128; 0; 0; 165; 128; 0; 0; 0]%Z |}.
Proof.
  exact (proj1 (getAddress_request doc_path nano_coin "44'/165'/0'" true
                  [0x8000002C; 0x800000A5; 0x80000000]%Z (answering [])
                  doc_path_well_formed)).
Defined.

Lemma getAddress_response_witness :
  fst (getAddress doc_path nano_coin "44'/165'/0'" false
         (answering (repeat 171%Z 32 ++ 2%Z :: [120; 114] ++ [0])%Z))
  = Ok {| publicKey := repeat_string "ab" 32; address := "xr" |}.
Proof.
  refine (proj1 (getAddress_response doc_path nano_coin "44'/165'/0'" false
                   [0x8000002C; 0x800000A5; 0x80000000]%Z
                   (answering (repeat 171%Z 32 ++ 2%Z :: [120; 114] ++ [0])%Z)
                   (repeat 171%Z 32) [120; 114]%Z [0%Z] 2%Z
                   doc_path_well_formed _ _ _ _)).
  - reflexivity.
  - reflexivity.
  - reflexivity.
  - unfold is_byte_buffer. repeat constructor; lia.
Defined.

Lemma getAddress_short_response_witness :
  fst (getAddress doc_path nano_coin "44'/165'/0'" false
         (answering (repeat 171%Z 32)))
  = Throw RangeError.
Proof.
  refine (proj1 (getAddress_short_response doc_path nano_coin "44'/165'/0'"
                   false [0x8000002C; 0x800000A5; 0x80000000]%Z
                   (answering (repeat 171%Z 32)) (repeat 171%Z 32)
                   doc_path_well_formed _) _).
  - reflexivity.
  - simpl. lia.
Defined.

(** The parser of bip32-path on the path of the documentation, on a
    path with the root written out and on a path of 256 segments. *)
Example fromString_doc :
  BIP32Path.fromString "44'/165'/0'" = doc_path "44'/165'/0'"
  /\ BIP32Path.fromString "m/44'" = Ok [0x8000002C]%Z
  /\ BIP32Path.fromString (repeat_string "0/" 255 ++ "0")
     = Ok (repeat 0%Z 256).
Proof. vm_compute. repeat split. Qed.

Lemma path_refused_witness :
  getAddress BIP32Path.fromString nano_coin (repeat_string "0/" 255 ++ "0")
    true (answering [])
  = (Throw RangeError, answering []).
Proof.
  refine (proj1 (path_refused NanoBase32.decode Blake2b.blake2b
                   BIP32Path.fromString nano_coin
                   (repeat_string "0/" 255 ++ "0") (answering [])
                   RangeError _) true).
  replace (BIP32Path.fromString (repeat_string "0/" 255 ++ "0"))
    with (Ok (repeat 0%Z 256)) by (vm_compute; reflexivity).
  split; [reflexivity|]. left. rewrite repeat_length. lia.
Defined.

Lemma signBlock_request_witness :
  snd (signBlock NanoBase32.decode Blake2b.blake2b doc_path nano_coin
         "44'/165'/0'" sendBlockData (answering []))
  = after_exchange (answering [])
      {| cla := 0xa1; ins := 0x04; p1 := 0x00; p2 := 0x02;
         data := block_prefix NanoBase32.decode Blake2b.blake2b nano_coin
                   [0x8000002C; 0x800000A5; 0x80000000]%Z sendBlockData
                 ++ firstn 16 (balance_bytes sendBlockData) |}.
Proof.
  exact (proj1 (signBlock_request NanoBase32.decode Blake2b.blake2b doc_path
                  nano_coin "44'/165'/0'" sendBlockData
                  [0x8000002C; 0x800000A5; 0x80000000]%Z (answering [])
                  checksum_length doc_path_well_formed
                  sendBlockData_well_formed)).
Defined.

Lemma signBlock_response_witness :
  fst (signBlock NanoBase32.decode Blake2b.blake2b doc_path nano_coin
         "44'/165'/0'" sendBlockData
         (answering (repeat 1%Z 32 ++ repeat 205%Z 64 ++ [])))
  = Ok {| blockHash := Buf.toString_hex (repeat 1%Z 32);
          signature := Buf.toString_hex (repeat 205%Z 64) |}.
Proof.
  refine (proj1 (proj2 (signBlock_response NanoBase32.decode Blake2b.blake2b
                   doc_path nano_coin "44'/165'/0'" sendBlockData
                   [0x8000002C; 0x800000A5; 0x80000000]%Z
                   (answering (repeat 1%Z 32 ++ repeat 205%Z 64 ++ []))
                   checksum_length doc_path_well_formed
                   sendBlockData_well_formed)
                   (repeat 1%Z 32) (repeat 205%Z 64) [] _ _ _ _)).
  - reflexivity.
  - reflexivity.
  - reflexivity.
  - unfold is_byte_buffer. apply Forall_forall. intros v Hv.
    apply repeat_spec in Hv. lia.
Defined.

Lemma signBlock_any_response_witness :
  exists r,
    fst (signBlock NanoBase32.decode Blake2b.blake2b doc_path nano_coin
           "44'/165'/0'" sendBlockData (answering [1; 2; 3]%Z))
    = Ok r
    /\ String.length (blockHash r) = 6
    /\ String.length (signature r) = 0.
Proof.
  refine (signBlock_any_response NanoBase32.decode Blake2b.blake2b doc_path
            nano_coin "44'/165'/0'" sendBlockData
            [0x8000002C; 0x800000A5; 0x80000000]%Z (answering [1; 2; 3]%Z)
            [1; 2; 3]%Z checksum_length doc_path_well_formed
            sendBlockData_well_formed _).
  reflexivity.
Defined.

Lemma sign_then_cache_witness :
  snd (cacheBlock NanoBase32.decode Blake2b.blake2b doc_path nano_coin
         "44'/165'/0'" sendBlockData (repeat_string "07" 64)
         (after_exchange (answering (repeat 7%Z 96))
            (sign_command NanoBase32.decode Blake2b.blake2b nano_coin
               [0x8000002C; 0x800000A5; 0x80000000]%Z sendBlockData)))
  = after_exchange
      (after_exchange (answering (repeat 7%Z 96))
         (sign_command NanoBase32.decode Blake2b.blake2b nano_coin
            [0x8000002C; 0x800000A5; 0x80000000]%Z sendBlockData))
      {| cla := 0xa1; ins := 0x03; p1 := 0x00; p2 := 0x00;
         data := data (sign_command NanoBase32.decode Blake2b.blake2b
                         nano_coin [0x8000002C; 0x800000A5; 0x80000000]%Z
                         sendBlockData)
                 ++ repeat 7%Z 64 |}.
Proof.
  refine (sign_then_cache NanoBase32.decode Blake2b.blake2b doc_path
            nano_coin "44'/165'/0'" sendBlockData
            [0x8000002C; 0x800000A5; 0x80000000]%Z
            (answering (repeat 7%Z 96)) _ (repeat 7%Z 96)
            {| blockHash := repeat_string "07" 32;
               signature := repeat_string "07" 64 |}
            checksum_length doc_path_well_formed sendBlockData_well_formed
            _ _ _ _ _).
  - reflexivity.
  - reflexivity.
  - simpl. lia.
  - unfold is_byte_buffer. apply Forall_forall. intros v Hv.
    apply repeat_spec in Hv. lia.
  - vm_compute. reflexivity.
Defined.

Lemma rejected_block_sends_nothing_witness :
  signBlock NanoBase32.decode Blake2b.blake2b doc_path nano_coin
    "44'/165'/0'" (with_balance sendBlockData "none") (answering [])
  = (Throw (Error "`balance` must be a number"), answering []).
Proof.
  refine (proj1 (rejected_block_sends_nothing NanoBase32.decode
                   Blake2b.blake2b doc_path nano_coin "44'/165'/0'"
                   (with_balance sendBlockData "none") EmptyString
                   (answering []) (Error "`balance` must be a number") _)).
  vm_compute. reflexivity.
Defined.

Lemma decodeAddress_checksum_iff_witness :
  decodeAddress NanoBase32.decode Blake2b.blake2b ("xrb_" ++ doc_address)
    ["nano_"; "xrb_"]
  = Ok (Some (Buf.from_hex
          "bd6267d6ecd8038327d2bcc0850bdf8f56ec0414912207e81bcf90dfac8a4aaa")).
Proof.
  refine (proj2 (decodeAddress_checksum_iff NanoBase32.decode Blake2b.blake2b
                   ("xrb_" ++ doc_address) ["nano_"; "xrb_"]
                   (Buf.from_hex
                      ("bd6267d6ecd8038327d2bcc0850bdf8f56ec0414912207e81b"
                       ++ "cf90dfac8a4aaa" ++ "e051c66472"))
                   (Buf.from_hex
                      "bd6267d6ecd8038327d2bcc0850bdf8f56ec0414912207e81bcf90dfac8a4aaa")
                   _) _).
  - vm_compute. reflexivity.
  - vm_compute. repeat split.
Defined.

Lemma processBlockData_accepted_witness :
  decodeAddress NanoBase32.decode Blake2b.blake2b
    (representative sendBlockData) (addressPrefixes nano_coin)
  = Ok (Some (Buf.from_hex
          "bd6267d6ecd8038327d2bcc0850bdf8f56ec0414912207e81bcf90dfac8a4aaa")).
Proof.
  refine (proj1 (proj2 (proj2
    (processBlockData_accepted NanoBase32.decode Blake2b.blake2b nano_coin
       sendBlockData
       {| representativePublicKey :=
            Buf.from_hex
              "bd6267d6ecd8038327d2bcc0850bdf8f56ec0414912207e81bcf90dfac8a4aaa";
          recipientPublicKey :=
            Some (Buf.from_hex
              "bd6267d6ecd8038327d2bcc0850bdf8f56ec0414912207e81bcf90dfac8a4aaa")
       |} _)))).
  vm_compute. reflexivity.
Defined.

Lemma encodeBalance_same_value_witness :
  encodeBalance "007" = encodeBalance "7"
  <-> numeral_value "007" = numeral_value "7".
Proof.
  apply (encodeBalance_same_value "007" "7"); reflexivity.
Defined.

Lemma balance_reverse_round_trip_witness :
  exists d,
    decodeBalance "00000000000B949D854F34FECE000000" = Ok d
    /\ is_decimal_numeral d = true
    /\ canonical_decimal d = d
    /\ encodeBalance d
       = Ok (repeat_string "0" (32 - 32)
             ++ map_string lower_digit "00000000000B949D854F34FECE000000")%string.
Proof.
  apply (balance_reverse_round_trip "00000000000B949D854F34FECE000000").
  - discriminate.
  - reflexivity.
  - simpl. lia.
Defined.

Lemma signBlock_overflow_witness :
  signBlock NanoBase32.decode Blake2b.blake2b doc_path nano_coin
    "44'/165'/0'"
    (with_balance sendBlockData "340282366920938463463374607431768211456")
    (answering [])
  = signBlock NanoBase32.decode Blake2b.blake2b doc_path nano_coin
      "44'/165'/0'"
      (with_balance
         (with_balance sendBlockData
            "340282366920938463463374607431768211456")
         "21267647932558653966460912964485513216")
      (answering []).
Proof.
  refine (proj2 (proj2
    (signBlock_overflow NanoBase32.decode Blake2b.blake2b doc_path nano_coin
       "44'/165'/0'"
       (with_balance sendBlockData "340282366920938463463374607431768211456")
       [0x8000002C; 0x800000A5; 0x80000000]%Z
       "21267647932558653966460912964485513216" (answering [])
       checksum_length doc_path_well_formed _ _ _ _))).
  - apply well_formed_with_balance;
      [exact sendBlockData_well_formed|reflexivity].
  - vm_compute. discriminate.
  - reflexivity.
  - vm_compute. reflexivity.
Defined.

Lemma cacheBlock_request_witness :
  snd (cacheBlock NanoBase32.decode Blake2b.blake2b doc_path nano_coin
         "44'/165'/0'" sendBlockData (repeat_string "ab" 64) (answering []))
  = after_exchange (answering [])
      {| cla := 0xa1; ins := 0x03; p1 := 0x00; p2 := 0x00;
         data := block_prefix NanoBase32.decode Blake2b.blake2b nano_coin
                   [0x8000002C; 0x800000A5; 0x80000000]%Z sendBlockData
                 ++ firstn 80 (balance_bytes sendBlockData
                               ++ Buf.from_hex (repeat_string "ab" 64)) |}.
Proof.
  refine (proj1 (cacheBlock_request NanoBase32.decode Blake2b.blake2b
                   doc_path nano_coin "44'/165'/0'" sendBlockData
                   [0x8000002C; 0x800000A5; 0x80000000]%Z
                   (repeat_string "ab" 64) (answering [])
                   checksum_length doc_path_well_formed
                   sendBlockData_well_formed _)).
  reflexivity.
Defined.

Lemma app_query_failure_witness :
  _appCoin (snd (BaseAPI_getAppConfiguration
                   (BaseAPI_constructor (answering [1; 0]%Z) nano_coin)))
  = None.
Proof.
  refine (proj1 (app_query_failure
                   (BaseAPI_constructor (answering [1; 0]%Z) nano_coin)
                   RangeError _)).
  reflexivity.
Defined.

Lemma Nano_balance_refused_witness :
  exists e,
    Nano_signBlock NanoBase32.decode Blake2b.blake2b doc_path "44'/165'/0'"
      sendBlockData (answering [])
    = (Throw e, answering []).
Proof.
  refine (proj1 (Nano_balance_refused NanoBase32.decode Blake2b.blake2b
                   doc_path "44'/165'/0'" sendBlockData EmptyString
                   (answering []) _)).
  vm_compute. lia.
Defined.

Lemma Nano_requests_agree_witness :
  Nano_signBlock NanoBase32.decode Blake2b.blake2b doc_path "44'/165'/0'"
    (with_balance sendBlockData "00000000000000000000000000000001")
    (answering [])
  = signBlock NanoBase32.decode Blake2b.blake2b doc_path nano_coin
      "44'/165'/0'"
      (with_balance sendBlockData "00000000000000000000000000000001")
      (answering []).
Proof.
  refine (proj1 (Nano_requests_agree NanoBase32.decode Blake2b.blake2b
                   doc_path "44'/165'/0'"
                   (with_balance sendBlockData
                      "00000000000000000000000000000001")
                   {| representativePublicKey :=
                        Buf.from_hex
                          "bd6267d6ecd8038327d2bcc0850bdf8f56ec0414912207e81bcf90dfac8a4aaa";
                      recipientPublicKey :=
                        Some (Buf.from_hex
                          "bd6267d6ecd8038327d2bcc0850bdf8f56ec0414912207e81bcf90dfac8a4aaa")
                   |} EmptyString (answering []) _ _)).
  - vm_compute. reflexivity.
  - reflexivity.
Defined.

Lemma balance_bytes_big_endian_witness :
  be_value (balance_bytes sendBlockData)
  = Z.of_N (numeral_value (balance sendBlockData)).
Proof.
  refine (proj2 (proj2 (proj2 (balance_bytes_big_endian sendBlockData _ _)))).
  - reflexivity.
  - vm_compute. reflexivity.
Defined.


Lemma hash_case_insensitive_witness :
  signBlock NanoBase32.decode Blake2b.blake2b doc_path nano_coin
    "44'/165'/0'" (lower_case_hashes sendBlockData) (answering [])
  = signBlock NanoBase32.decode Blake2b.blake2b doc_path nano_coin
      "44'/165'/0'" sendBlockData (answering []).
Proof.
  refine (proj1 (hash_case_insensitive NanoBase32.decode Blake2b.blake2b
                   doc_path nano_coin "44'/165'/0'" sendBlockData
                   [0x8000002C; 0x800000A5; 0x80000000]%Z
                   (repeat_string "ab" 64) (answering [])
                   checksum_length doc_path_well_formed
                   sendBlockData_well_formed _)).
  reflexivity.
Defined.
